(** * VM_to_ASM: the stack-VM to Hack-assembly translator

    A shallow embedding of [VM_to_ASM.go].  The Go globals
    [compLabelCounter], [callCounter], [currentFunctionName] and [fileName]
    become the fields of a [Context] record that is passed explicitly; Go
    strings are byte strings ([string]); Go [int] is a 64-bit integer ([Z]
    with its wrap-around written out); a function returning
    [(string, error)] returns a [result]. *)

From Stdlib Require Import ZArith NArith List Lia Bool Ascii String Permutation.
From Stdlib Require Import DecimalString DecimalZ.
Import ListNotations.

Local Open Scope Z_scope.
Local Open Scope string_scope.

(** ** Text helpers *)

(** The line feed, written [\n] in the Go literals. *)
Definition nl : string := String "010"%char EmptyString.

(** [txt [l1; ...; ln]] is the Go literal ["l1\n...ln\n"]. *)
Fixpoint txt (ls : list string) : string :=
  match ls with
  | [] => ""
  | l :: r => l ++ nl ++ txt r
  end.

Definition byte (c : ascii) : N := N_of_ascii c.

Definition slen (s : string) : Z := Z.of_nat (String.length s).

(** ** Go [int] *)

Definition int_min : Z := - 2 ^ 63.
Definition int_max : Z := 2 ^ 63 - 1.

(** Two's-complement wrap-around of 64-bit [int] arithmetic. *)
Definition int_wrap (z : Z) : Z := (z + 2 ^ 63) mod 2 ^ 64 - 2 ^ 63.

(** [fmt.Sprintf("%d", n)]. *)
Definition fmt_d (n : Z) : string := NilZero.string_of_int (Z.to_int n).

(** ** The parts of Go's [strconv] and [strings] the translator calls *)

Definition is_digit (c : ascii) : bool :=
  (48 <=? byte c)%N && (byte c <=? 57)%N.

Fixpoint digits_val (acc : Z) (s : string) : option Z :=
  match s with
  | EmptyString => Some acc
  | String c r =>
      if is_digit c then digits_val (10 * acc + (Z.of_N (byte c) - 48)) r
      else None
  end.

(** [strconv.Atoi]: an optional sign, then one or more decimal digits; a
    value outside the range of [int] is an error. *)
Definition Atoi (s : string) : option Z :=
  let '(neg, body) :=
    match s with
    | String c r =>
        if (byte c =? 43)%N then (false, r)
        else if (byte c =? 45)%N then (true, r)
        else (false, s)
    | EmptyString => (false, s)
    end in
  match body with
  | EmptyString => None
  | _ =>
      match digits_val 0 body with
      | None => None
      | Some v =>
          let n := if neg then - v else v in
          if ((int_min <=? n) && (n <=? int_max))%Z then Some n else None
      end
  end.

Definition asciiSpace (c : ascii) : bool :=
  let b := byte c in
  ((9 <=? b) && (b <=? 13) || (b =? 32))%N.

(** Width in bytes of the white-space rune at the head of [s], [0%nat] when
    there is none.  [unicode.IsSpace] holds of the six ASCII spaces and of
    U+0085, U+00A0, U+1680, U+2000..U+200A, U+2028, U+2029, U+202F, U+205F
    and U+3000, here in their UTF-8 encodings. *)
Definition spaceWidth (s : string) : nat :=
  match s with
  | EmptyString => 0%nat
  | String c r =>
      if asciiSpace c then 1%nat
      else
        match r with
        | EmptyString => 0%nat
        | String d r' =>
            let b0 := byte c in
            let b1 := byte d in
            if ((b0 =? 194) && ((b1 =? 133) || (b1 =? 160)))%N then 2%nat
            else
              match r' with
              | EmptyString => 0%nat
              | String e _ =>
                  let b2 := byte e in
                  if ((b0 =? 225) && (b1 =? 154) && (b2 =? 128))%N then 3%nat
                  else if ((b0 =? 226) && (b1 =? 128)
                           && (((128 <=? b2) && (b2 <=? 138))
                               || (b2 =? 168) || (b2 =? 169) || (b2 =? 175)))%N
                       then 3%nat
                  else if ((b0 =? 226) && (b1 =? 129) && (b2 =? 159))%N then 3%nat
                  else if ((b0 =? 227) && (b1 =? 128) && (b2 =? 128))%N then 3%nat
                  else 0%nat
              end
        end
  end.

Definition flush (cur : string) : list string :=
  match cur with
  | EmptyString => []
  | _ => [cur]
  end.

(** The scan of [strings.Fields]: [skip] counts the bytes still to drop of
    a multi-byte white-space rune, [cur] is the field being collected. *)
Fixpoint fieldsFrom (skip : nat) (cur : string) (s : string) : list string :=
  match s with
  | EmptyString => flush cur
  | String c r =>
      match skip with
      | S k => fieldsFrom k cur r
      | O =>
          match spaceWidth s with
          | O => fieldsFrom 0 (cur ++ String c EmptyString) r
          | S w => flush cur ++ fieldsFrom w EmptyString r
          end
      end
  end.

(** [strings.Fields]. *)
Definition Fields (s : string) : list string := fieldsFrom 0 EmptyString s.

(** [s] is made of white-space runes only. *)
Fixpoint allSpace (skip : nat) (s : string) : bool :=
  match s with
  | EmptyString => true
  | String _ r =>
      match skip with
      | S k => allSpace k r
      | O =>
          match spaceWidth s with
          | O => false
          | S w => allSpace w r
          end
      end
  end.

Fixpoint trimLeft (skip : nat) (s : string) : string :=
  match s with
  | EmptyString => EmptyString
  | String _ r =>
      match skip with
      | S k => trimLeft k r
      | O =>
          match spaceWidth s with
          | O => s
          | S w => trimLeft w r
          end
      end
  end.

Fixpoint trimRight (s : string) : string :=
  match s with
  | EmptyString => EmptyString
  | String c r => if allSpace 0 s then EmptyString else String c (trimRight r)
  end.

(** [strings.TrimSpace]. *)
Definition TrimSpace (s : string) : string := trimRight (trimLeft 0 s).

(** [strings.HasPrefix(s, p)] is [String.prefix p s]. *)
Definition HasPrefix (s p : string) : bool := String.prefix p s.

(** [strings.HasSuffix]. *)
Definition HasSuffix (s p : string) : bool :=
  let n := String.length s in
  let m := String.length p in
  (m <=? n)%nat && String.eqb (String.substring (n - m) m s) p.

(** [strings.SplitN(s, "//", 2)[0]]: [s] up to its first ["//"]. *)
Fixpoint beforeComment (s : string) : string :=
  match s with
  | EmptyString => EmptyString
  | String c r =>
      if HasPrefix s "//" then EmptyString else String c (beforeComment r)
  end.

Definition upper (c : ascii) : ascii :=
  let b := byte c in
  if ((97 <=? b) && (b <=? 122))%N then ascii_of_N (b - 32) else c.

(** [strings.ToUpper], on the ASCII words it is called with. *)
Fixpoint ToUpper (s : string) : string :=
  match s with
  | EmptyString => EmptyString
  | String c r => String (upper c) (ToUpper r)
  end.

(** ** Errors and the translation context *)

Inductive result (A : Type) : Type :=
| Ok (a : A)
| Err (msg : string).
Arguments Ok {A} a.
Arguments Err {A} msg.

Definition is_ok {A} (r : result A) : bool :=
  match r with Ok _ => true | Err _ => false end.

(** The package-level variables of [VM_to_ASM.go]. *)
Record Context : Type := mkContext {
  fileName : string;
  compLabelCounter : Z;
  callCounter : Z;
  currentFunctionName : string
}.

(** Their values when [main] starts: Go zero values. *)
Definition initialContext : Context := mkContext "" 0 0 "".

Definition bumpComp (c : Context) : Context :=
  mkContext (fileName c) (int_wrap (compLabelCounter c + 1))
            (callCounter c) (currentFunctionName c).

Definition bumpCall (c : Context) : Context :=
  mkContext (fileName c) (compLabelCounter c)
            (int_wrap (callCounter c + 1)) (currentFunctionName c).

(** ** Code generation, one function of the source each *)

Definition translateReturnCommand : string :=
  txt ["@LCL"; "D=M"; "@5"; "A=D-A"; "D=M"; "@R13"; "M=D"] ++
  txt ["@SP"; "A=M-1"; "D=M"; "@ARG"; "A=M"; "M=D"] ++
  txt ["D=A+1"; "@SP"; "M=D"] ++
  txt ["@LCL"; "AM=M-1"; "D=M"; "@THAT"; "M=D"] ++
  txt ["@LCL"; "AM=M-1"; "D=M"; "@THIS"; "M=D"] ++
  txt ["@LCL"; "AM=M-1"; "D=M"; "@ARG"; "M=D"] ++
  txt ["@LCL"; "A=M-1"; "D=M"; "@LCL"; "M=D"] ++
  txt ["@R13"; "A=M"; "0;JMP"].

Definition translateGotoCommand (label : string) : string :=
  txt ["@" ++ label; "0;JMP"].

Definition translateIfGotoCommand (label : string) : string :=
  txt ["@SP"; "AM=M-1"; "D=M"; "@" ++ label; "D;JNE"].

Definition translateLabelCommand (label : string) (ctx : Context) : string :=
  txt ["(" ++ currentFunctionName ctx ++ "$" ++ label ++ ")"].

(** The [for] loop over [LCL], [ARG], [THIS], [THAT] of
    [translateCallCommand]. *)
Fixpoint pushSegments (asm : string) (segments : list string) : string :=
  match segments with
  | [] => asm
  | segment :: r =>
      pushSegments
        (asm ++ txt ["@" ++ segment; "D=M"; "@SP"; "A=M"; "M=D"; "@SP"; "M=M+1"])
        r
  end.

Definition translateCallCommand (functionName : string) (numArgs : Z)
    (ctx : Context) : result string * Context :=
  let returnLabel := functionName ++ "$ret." ++ fmt_d (callCounter ctx) in
  let ctx := bumpCall ctx in
  let asm := txt ["@" ++ returnLabel; "D=A"; "@SP"; "A=M"; "M=D"; "@SP"; "M=M+1"] in
  let asm := pushSegments asm ["LCL"; "ARG"; "THIS"; "THAT"] in
  let asm := asm ++ txt ["@SP"; "D=M"; "@" ++ fmt_d numArgs; "D=D-A"; "@5";
                         "D=D-A"; "@ARG"; "M=D"] in
  let asm := asm ++ txt ["@SP"; "D=M"; "@LCL"; "M=D"] in
  let asm := asm ++ txt ["@" ++ functionName; "0;JMP"] in
  let asm := asm ++ txt ["(" ++ returnLabel ++ ")"] in
  (Ok asm, ctx).

(** The loop [for i := 0; i < numLocals; i++] appending to the builder. *)
Fixpoint initLocals (iterations : nat) (asm : string) : string :=
  match iterations with
  | O => asm
  | S k => initLocals k (asm ++ txt ["@SP"; "A=M"; "M=0"] ++ txt ["@SP"; "M=M+1"])
  end.

Definition translateFunctionCommand (functionName : string) (numLocals : Z)
    : result string :=
  let asm := txt ["(" ++ functionName ++ ")"] in
  Ok (initLocals (Z.to_nat numLocals) asm).

Definition pushSegmentTemplate (segment index : string) : string :=
  txt ["@" ++ segment; "D=M"; "@" ++ index; "A=D+A"; "D=M"; "@SP"; "A=M"; "M=D";
       "@SP"; "M=M+1"].

Definition translatePushCommand (segment index fileName : string)
    : result string :=
  if segment =? "constant" then
    Ok (txt ["@" ++ index; "D=A"; "@SP"; "A=M"; "M=D"; "@SP"; "M=M+1"])
  else if segment =? "local" then Ok (pushSegmentTemplate "LCL" index)
  else if segment =? "argument" then Ok (pushSegmentTemplate "ARG" index)
  else if segment =? "this" then Ok (pushSegmentTemplate "THIS" index)
  else if segment =? "that" then Ok (pushSegmentTemplate "THAT" index)
  else if segment =? "static" then
    Ok (txt ["@" ++ fileName ++ "." ++ index; "D=M"; "@SP"; "A=M"; "M=D"; "@SP";
             "M=M+1"])
  else if segment =? "temp" then
    match Atoi index with
    | None => Err ("invalid index for push temp command: " ++ index)
    | Some offset =>
        Ok (txt ["@R" ++ fmt_d (int_wrap (5 + offset)); "D=M"; "@SP"; "A=M"; "M=D";
                 "@SP"; "M=M+1"])
    end
  else if segment =? "pointer" then
    if index =? "0" then
      Ok (txt ["@THIS"; "D=M"] ++ txt ["@SP"; "A=M"; "M=D"; "@SP"; "M=M+1"])
    else if index =? "1" then
      Ok (txt ["@THAT"; "D=M"] ++ txt ["@SP"; "A=M"; "M=D"; "@SP"; "M=M+1"])
    else Err ("invalid index for push pointer command: " ++ index)
  else Err ("unsupported push command: push " ++ segment ++ " " ++ index).

Definition translateArithmeticCommand (cmd : string) : string :=
  if cmd =? "add" then txt ["@SP"; "AM=M-1"; "D=M"; "A=A-1"; "M=D+M"]
  else if cmd =? "sub" then txt ["@SP"; "AM=M-1"; "D=M"; "A=A-1"; "M=M-D"]
  else if cmd =? "neg" then txt ["@SP"; "A=M-1"; "M=-M"]
  else if cmd =? "and" then txt ["@SP"; "AM=M-1"; "D=M"; "A=A-1"; "M=D&M"]
  else if cmd =? "or" then txt ["@SP"; "AM=M-1"; "D=M"; "A=A-1"; "M=D|M"]
  else if cmd =? "not" then txt ["@SP"; "A=M-1"; "M=!M"]
  else "".

(** The map literal of [translateComparisonCommand]; a key it lacks gives
    the empty string. *)
Definition jumpInstruction (cmd : string) : string :=
  if cmd =? "eq" then "JEQ"
  else if cmd =? "lt" then "JLT"
  else if cmd =? "gt" then "JGT"
  else "".

Definition trueLabel (cmd : string) (labelCounter : Z) : string :=
  ToUpper cmd ++ "_TRUE_" ++ fmt_d labelCounter.

Definition endLabel (cmd : string) (labelCounter : Z) : string :=
  ToUpper cmd ++ "_END_" ++ fmt_d labelCounter.

Definition translateComparisonCommand (cmd : string) (labelCounter : Z) : string :=
  txt ["@SP"; "AM=M-1"; "D=M"; "A=A-1"; "D=M-D"; "@" ++ trueLabel cmd labelCounter;
       "D;" ++ jumpInstruction cmd] ++
  txt ["@SP"; "A=M-1"; "M=0"; "@" ++ endLabel cmd labelCounter; "0;JMP";
       "(" ++ trueLabel cmd labelCounter ++ ")"; "@SP"; "A=M-1"; "M=-1";
       "(" ++ endLabel cmd labelCounter ++ ")"].

Definition popTemplate (baseAddr index : string) : string :=
  txt ["@" ++ baseAddr; "D=M"; "@" ++ index; "D=D+A"; "@R13"; "M=D"; "@SP";
       "AM=M-1"; "D=M"; "@R13"; "A=M"; "M=D"].

Definition translatePopCommand (segment index fileName : string)
    : result string :=
  if segment =? "local" then Ok (popTemplate "LCL" index)
  else if segment =? "argument" then Ok (popTemplate "ARG" index)
  else if segment =? "this" then Ok (popTemplate "THIS" index)
  else if segment =? "that" then Ok (popTemplate "THAT" index)
  else if segment =? "temp" then
    match Atoi index with
    | None => Err ("invalid index for pop temp command: " ++ index)
    | Some tempIndex =>
        Ok (txt ["@" ++ fmt_d 5; "D=A"; "@" ++ fmt_d tempIndex; "D=D+A"; "@R13";
                 "M=D"; "@SP"; "AM=M-1"; "D=M"; "@R13"; "A=M"; "M=D"])
    end
  else if segment =? "pointer" then
    if index =? "0" then Ok (txt ["@SP"; "AM=M-1"; "D=M"; "@" ++ "THIS"; "M=D"])
    else if index =? "1" then Ok (txt ["@SP"; "AM=M-1"; "D=M"; "@" ++ "THAT"; "M=D"])
    else Err ("invalid index for pop pointer command: " ++ index)
  else if segment =? "static" then
    match Atoi index with
    | None => Err ("invalid index for pop static command: " ++ index)
    | Some staticIndex =>
        Ok (txt ["@SP"; "AM=M-1"; "D=M"; "@" ++ fileName ++ "." ++ fmt_d staticIndex;
                 "M=D"])
    end
  else Err ("unsupported segment for pop command: " ++ segment).

(** ** Dispatch: [vmCommandToAsm] *)

Definition vmCommandToAsm (cmd : string) (ctx : Context)
    : result string * Context :=
  let cmd := TrimSpace (beforeComment cmd) in
  let parts := Fields cmd in
  match parts with
  | [] => (Err "empty command line", ctx)
  | op :: operands =>
      if (op =? "add") || (op =? "sub") || (op =? "neg") || (op =? "and")
         || (op =? "or") || (op =? "not")
      then (Ok (translateArithmeticCommand op), ctx)
      else if (op =? "eq") || (op =? "lt") || (op =? "gt")
      then (Ok (translateComparisonCommand op (compLabelCounter ctx)), bumpComp ctx)
      else if (op =? "push") || (op =? "pop")
      then
        match operands with
        | [segment; index] =>
            if op =? "push"
            then (translatePushCommand segment index (fileName ctx), ctx)
            else (translatePopCommand segment index (fileName ctx), ctx)
        | _ => (Err ("invalid " ++ op ++ " command: " ++ cmd), ctx)
        end
      else if (op =? "function") || (op =? "call")
      then
        match operands with
        | [functionName; count] =>
            match Atoi count with
            | None => (Err ("invalid number for " ++ op ++ " command: " ++ count), ctx)
            | Some numLocalsOrArgs =>
                if op =? "function"
                then (translateFunctionCommand functionName numLocalsOrArgs, ctx)
                else translateCallCommand functionName numLocalsOrArgs ctx
            end
        | _ => (Err ("invalid " ++ op ++ " command: " ++ cmd), ctx)
        end
      else if op =? "if-goto"
      then
        match operands with
        | [label] => (Ok (translateIfGotoCommand label), ctx)
        | _ => (Err ("invalid if-goto command: " ++ cmd), ctx)
        end
      else if op =? "goto"
      then
        match operands with
        | [label] => (Ok (translateGotoCommand label), ctx)
        | _ => (Err ("invalid goto command: " ++ cmd), ctx)
        end
      else if op =? "label"
      then
        match operands with
        | [label] => (Ok (translateLabelCommand label ctx), ctx)
        | _ => (Err ("invalid label command: " ++ cmd), ctx)
        end
      else if op =? "return"
      then
        match operands with
        | [] => (Ok translateReturnCommand, ctx)
        | _ => (Err ("invalid return command: " ++ cmd), ctx)
        end
      else (Err ("unsupported command: " ++ cmd), ctx)
  end.

(** ** The buffered writer and the per-file loop *)

(** Default buffer size of [bufio.NewWriter]. *)
Definition bufSize : nat := 4096.

(** State of the output: the bytes that reached [asmFile], and the bytes
    still held in the buffer of the current [bufio.Writer]. *)
Record Output : Type := mkOutput {
  written : string;
  buffered : string
}.

(** [bufio.Writer.WriteString] on a writer whose underlying [*os.File]
    accepts every write: a string that fits is buffered; one that does not is
    written through when the buffer is empty, and otherwise fills the buffer,
    which is flushed, before its remainder is buffered or written through. *)
Definition WriteString (s : string) (o : Output) : Output :=
  let avail := (bufSize - String.length (buffered o))%nat in
  if (String.length s <=? avail)%nat then mkOutput (written o) (buffered o ++ s)
  else if (String.length (buffered o) =? 0)%nat then mkOutput (written o ++ s) ""
  else
    let head := String.substring 0 avail s in
    let tail := String.substring avail (String.length s - avail) s in
    let file := written o ++ buffered o ++ head in
    if (String.length tail <=? bufSize)%nat then mkOutput file tail
    else mkOutput (file ++ tail) "".

(** [bufio.Writer.Flush]. *)
Definition Flush (o : Output) : Output :=
  mkOutput (written o ++ buffered o) "".

(** A source file as [bufio.Scanner] delivers it: its lines, then the
    scanner's error, if any. *)
Record vmFile : Type := mkVmFile {
  fileLines : list string;
  scanErr : option string
}.

(** The [for scanner.Scan()] loop of [translateVMFileToASM]: the error it
    returns with, if any, and the state it leaves. *)
Fixpoint translateLines (lines : list string) (ctx : Context) (o : Output)
    : option string * Context * Output :=
  match lines with
  | [] => (None, ctx, o)
  | line :: rest =>
      let vmCommand := TrimSpace line in
      if (vmCommand =? "") || HasPrefix vmCommand "//"
      then translateLines rest ctx o
      else
        match vmCommandToAsm vmCommand ctx with
        | (Err e, ctx') => (Some e, ctx', o)
        | (Ok asm, ctx') => translateLines rest ctx' (WriteString asm o)
        end
  end.

(** [translateVMFileToASM]: [f] is what [os.Open] gives for the path, [None]
    when it fails; [asmFile] is the content of the output file so far.  The
    writer is local to the call, so what it still buffers when the function
    returns early is never written. *)
Definition translateVMFileToASM (f : option vmFile) (ctx : Context)
    (asmFile : string) : option string * Context * string :=
  match f with
  | None => (Some "open", ctx, asmFile)
  | Some vm =>
      match translateLines (fileLines vm) ctx (mkOutput asmFile "") with
      | (Some e, ctx', o) => (Some e, ctx', written o)
      | (None, ctx', o) =>
          match scanErr vm with
          | Some e => (Some e, ctx', written o)
          | None => (None, ctx', written (Flush o))
          end
      end
  end.

(** ** [main] *)

Record DirEntry : Type := mkDirEntry {
  Name : string;
  IsDir : bool
}.

(** The input directory: what [os.ReadDir] lists and what [os.Open] gives
    for the name of an entry. *)
Record Dir : Type := mkDir {
  entries : list DirEntry;
  open : string -> option vmFile
}.

Fixpoint checkForSysVM (files : list DirEntry) : bool :=
  match files with
  | [] => false
  | entry :: rest =>
      if negb (IsDir entry) && (Name entry =? "Sys.vm") then true
      else checkForSysVM rest
  end.

(** What [main] writes first. *)
Definition bootstrap : string := txt ["@256"; "D=A"; "@SP"; "M=D"].

(** The loop [for _, entry := range files] of [main]. *)
Fixpoint translateEntries (d : Dir) (files : list DirEntry) (ctx : Context)
    (asmFile : string) : Context * string :=
  match files with
  | [] => (ctx, asmFile)
  | entry :: rest =>
      if negb (IsDir entry) && HasSuffix (Name entry) ".vm"
         && negb (Name entry =? "Sys.vm")
      then
        let '(_, ctx', asmFile') :=
          translateVMFileToASM (open d (Name entry)) ctx asmFile in
        translateEntries d rest ctx' asmFile'
      else translateEntries d rest ctx asmFile
  end.

(** [main], for a directory that can be read and an output file that can be
    created and written: the final context and content of the [.asm] file. *)
Definition main (d : Dir) : Context * string :=
  let asmFile := bootstrap in
  let files := entries d in
  let hasSysVM := checkForSysVM files in
  let '(ctx, asmFile) :=
    if hasSysVM
    then
      let '(_, ctx', asmFile') :=
        translateVMFileToASM (open d "Sys.vm") initialContext asmFile in
      (ctx', asmFile')
    else (initialContext, asmFile) in
  translateEntries d files ctx asmFile.

(** ** The target: Hack assembly and the Hack machine

    The emitted text is Hack assembly.  To state what a block does to the
    stack, the text is read back line by line, assembled and run on the
    16-bit Hack machine.  The assembler's own rejections (a constant above
    32767, a symbol with a forbidden character) are not modelled: they only
    remove programs. *)

Inductive Comp : Type :=
| C_0 | C_1 | C_m1 | C_D | C_A | C_M | C_notD | C_notA | C_notM
| C_negD | C_negA | C_negM | C_Dp1 | C_Ap1 | C_Mp1 | C_Dm1 | C_Am1 | C_Mm1
| C_DpA | C_DpM | C_DmA | C_DmM | C_AmD | C_MmD
| C_DandA | C_DandM | C_DorA | C_DorM.

Inductive Jump : Type :=
| J_none | JGT | JEQ | JGE | JLT | JNE | JLE | JMP.

Record Dest : Type := mkDest { dA : bool; dD : bool; dM : bool }.

(** A line of assembly text. *)
Inductive Line : Type :=
| AInstr (operand : string)
| CInstr (d : Dest) (c : Comp) (j : Jump)
| LabelDecl (name : string).

(** An instruction in ROM: symbols resolved. *)
Inductive Instr : Type :=
| IA (value : Z)
| IC (d : Dest) (c : Comp) (j : Jump).

Fixpoint lookup {V : Type} (table : list (string * V)) (k : string) : option V :=
  match table with
  | [] => None
  | (k', v) :: r => if k' =? k then Some v else lookup r k
  end.

Definition compTable : list (string * Comp) :=
  [("0", C_0); ("1", C_1); ("-1", C_m1); ("D", C_D); ("A", C_A); ("M", C_M);
   ("!D", C_notD); ("!A", C_notA); ("!M", C_notM);
   ("-D", C_negD); ("-A", C_negA); ("-M", C_negM);
   ("D+1", C_Dp1); ("A+1", C_Ap1); ("M+1", C_Mp1);
   ("D-1", C_Dm1); ("A-1", C_Am1); ("M-1", C_Mm1);
   ("D+A", C_DpA); ("D+M", C_DpM); ("D-A", C_DmA); ("D-M", C_DmM);
   ("A-D", C_AmD); ("M-D", C_MmD);
   ("D&A", C_DandA); ("D&M", C_DandM); ("D|A", C_DorA); ("D|M", C_DorM)].

Definition destTable : list (string * Dest) :=
  [("M", mkDest false false true); ("D", mkDest false true false);
   ("MD", mkDest false true true); ("A", mkDest true false false);
   ("AM", mkDest true false true); ("AD", mkDest true true false);
   ("AMD", mkDest true true true)].

Definition jumpTable : list (string * Jump) :=
  [("JGT", JGT); ("JEQ", JEQ); ("JGE", JGE); ("JLT", JLT); ("JNE", JNE);
   ("JLE", JLE); ("JMP", JMP)].

Definition predefined : list (string * Z) :=
  [("SP", 0); ("LCL", 1); ("ARG", 2); ("THIS", 3); ("THAT", 4);
   ("R0", 0); ("R1", 1); ("R2", 2); ("R3", 3); ("R4", 4); ("R5", 5);
   ("R6", 6); ("R7", 7); ("R8", 8); ("R9", 9); ("R10", 10); ("R11", 11);
   ("R12", 12); ("R13", 13); ("R14", 14); ("R15", 15);
   ("SCREEN", 16384); ("KBD", 24576)].

(** [s] cut at the first occurrence of [c]. *)
Fixpoint splitOn (c : ascii) (s : string) : option (string * string) :=
  match s with
  | EmptyString => None
  | String x r =>
      if Ascii.eqb x c then Some (EmptyString, r)
      else
        match splitOn c r with
        | Some (a, b) => Some (String x a, b)
        | None => None
        end
  end.

(** [s] without its last character, when that character is [c]. *)
Fixpoint dropLast (c : ascii) (s : string) : option string :=
  match s with
  | EmptyString => None
  | String x EmptyString => if Ascii.eqb x c then Some EmptyString else None
  | String x r =>
      match dropLast c r with
      | Some a => Some (String x a)
      | None => None
      end
  end.

Definition parseC (s : string) : option Line :=
  let '(d, rest) :=
    match splitOn "=" s with
    | Some (a, b) => (lookup destTable a, b)
    | None => (Some (mkDest false false false), s)
    end in
  let '(c, j) :=
    match splitOn ";" rest with
    | Some (a, b) => (lookup compTable a, lookup jumpTable b)
    | None => (lookup compTable rest, Some J_none)
    end in
  match d, c, j with
  | Some d, Some c, Some j => Some (CInstr d c j)
  | _, _, _ => None
  end.

Definition parseLine (s : string) : option Line :=
  match s with
  | EmptyString => None
  | String x r =>
      if Ascii.eqb x "@" then Some (AInstr r)
      else if Ascii.eqb x "(" then
        match dropLast ")" r with
        | Some name => Some (LabelDecl name)
        | None => None
        end
      else parseC s
  end.

(** The lines of a text: each ends at a line feed. *)
Fixpoint splitLines (cur : string) (s : string) : list string :=
  match s with
  | EmptyString => flush cur
  | String c r =>
      if Ascii.eqb c "010"%char then cur :: splitLines EmptyString r
      else splitLines (cur ++ String c EmptyString) r
  end.

Fixpoint parseLines (ls : list string) : option (list Line) :=
  match ls with
  | [] => Some []
  | l :: r =>
      match parseLine l, parseLines r with
      | Some x, Some xs => Some (x :: xs)
      | _, _ => None
      end
  end.

(** First pass of the assembler: a label names the address of the
    instruction that follows it. *)
Fixpoint labelTable (ls : list Line) (next : nat) : list (string * nat) :=
  match ls with
  | [] => []
  | LabelDecl name :: r => (name, next) :: labelTable r next
  | _ :: r => labelTable r (S next)
  end.

(** A decimal constant. *)
Definition numeral (x : string) : option Z :=
  match x with
  | EmptyString => None
  | _ => digits_val 0 x
  end.

(** Second pass: the value of an [@] operand for a block loaded at ROM
    address [base]; [sigma] is the rest of the program's symbol table
    (labels declared elsewhere, variables). *)
Definition resolve (base : Z) (labels : list (string * nat)) (sigma : string -> Z)
    (x : string) : Z :=
  match numeral x with
  | Some n => n
  | None =>
      match lookup predefined x with
      | Some v => v
      | None =>
          match lookup labels x with
          | Some i => base + Z.of_nat i
          | None => sigma x
          end
      end
  end.

Fixpoint instructions (r : string -> Z) (ls : list Line) : list Instr :=
  match ls with
  | [] => []
  | AInstr x :: rest => IA (r x) :: instructions r rest
  | CInstr d c j :: rest => IC d c j :: instructions r rest
  | LabelDecl _ :: rest => instructions r rest
  end.

Definition assemble (base : Z) (sigma : string -> Z) (text : string)
    : option (list Instr) :=
  match parseLines (splitLines EmptyString text) with
  | None => None
  | Some ls => Some (instructions (resolve base (labelTable ls 0) sigma) ls)
  end.

(** Registers and data memory. *)
Record Machine : Type := mkMachine {
  regA : Z;
  regD : Z;
  ram : Z -> Z
}.

(** A 16-bit word, in two's complement. *)
Definition wrap16 (z : Z) : Z := (z + 32768) mod 65536 - 32768.

(** The memory sees the low 15 bits of [A]. *)
Definition addr (a : Z) : Z := a mod 32768.

Definition store (m : Z -> Z) (a v : Z) : Z -> Z :=
  fun x => if (x =? a)%Z then v else m x.

Definition evalComp (c : Comp) (a d m : Z) : Z :=
  wrap16
    match c with
    | C_0 => 0 | C_1 => 1 | C_m1 => -1
    | C_D => d | C_A => a | C_M => m
    | C_notD => Z.lnot d | C_notA => Z.lnot a | C_notM => Z.lnot m
    | C_negD => - d | C_negA => - a | C_negM => - m
    | C_Dp1 => d + 1 | C_Ap1 => a + 1 | C_Mp1 => m + 1
    | C_Dm1 => d - 1 | C_Am1 => a - 1 | C_Mm1 => m - 1
    | C_DpA => d + a | C_DpM => d + m | C_DmA => d - a | C_DmM => d - m
    | C_AmD => a - d | C_MmD => m - d
    | C_DandA => Z.land d a | C_DandM => Z.land d m
    | C_DorA => Z.lor d a | C_DorM => Z.lor d m
    end.

Definition jumps (j : Jump) (v : Z) : bool :=
  match j with
  | J_none => false
  | JGT => (0 <? v)%Z | JEQ => (v =? 0)%Z | JGE => (0 <=? v)%Z
  | JLT => (v <? 0)%Z | JNE => negb (v =? 0)%Z | JLE => (v <=? 0)%Z
  | JMP => true
  end.

(** The register and memory effect of one instruction. *)
Definition step (i : Instr) (st : Machine) : Machine :=
  match i with
  | IA v => mkMachine v (regD st) (ram st)
  | IC d c _ =>
      let v := evalComp c (regA st) (regD st) (ram st (addr (regA st))) in
      mkMachine (if dA d then v else regA st)
                (if dD d then v else regD st)
                (if dM d then store (ram st) (addr (regA st)) v else ram st)
  end.

(** Whether instruction [i] jumps in state [st], and where to. *)
Definition jumpTarget (i : Instr) (st : Machine) : option Z :=
  match i with
  | IA _ => None
  | IC _ c j =>
      if jumps j (evalComp c (regA st) (regD st) (ram st (addr (regA st))))
      then Some (regA st) else None
  end.

(** How the run of a block ends: control falls off its end, or leaves it by
    a jump to [target], or the fuel is spent. *)
Inductive Outcome : Type :=
| Done (st : Machine)
| Exit (target : Z) (st : Machine)
| OutOfFuel.

(** Run the block [rom], loaded at [base], from its [pc]-th instruction. *)
Fixpoint exec (fuel : nat) (base : Z) (rom : list Instr) (pc : nat)
    (st : Machine) : Outcome :=
  match fuel with
  | O => OutOfFuel
  | S fuel' =>
      match nth_error rom pc with
      | None => Done st
      | Some i =>
          match jumpTarget i st with
          | None => exec fuel' base rom (S pc) (step i st)
          | Some t =>
              if ((base <=? t) && (t <=? base + Z.of_nat (List.length rom)))%Z
              then exec fuel' base rom (Z.to_nat (t - base)) (step i st)
              else Exit t (step i st)
          end
      end
  end.

(** Assemble a block of emitted text and run it from its first instruction.
    The blocks of the translator only jump forwards, so one unit of fuel per
    instruction, and one to see the end, is enough. *)
Definition runBlock (base : Z) (sigma : string -> Z) (text : string)
    (st : Machine) : option Outcome :=
  match assemble base sigma text with
  | None => None
  | Some rom => Some (exec (S (List.length rom)) base rom 0 st)
  end.

(** The stack pointer is the word at address 0. *)
Definition SP (st : Machine) : Z := ram st 0.

(** ** Vocabulary of the properties *)

(** The tokens [vmCommandToAsm] dispatches on. *)
Definition parts (cmd : string) : list string :=
  Fields (TrimSpace (beforeComment cmd)).

Definition isSome {A} (o : option A) : bool :=
  match o with Some _ => true | None => false end.

Fixpoint hasNL (s : string) : bool :=
  match s with
  | EmptyString => false
  | String c r => Ascii.eqb c "010"%char || hasNL r
  end.

(** The context after a sequence of calls of [vmCommandToAsm], whatever each
    returned: the globals outlive every call, file and error. *)
Fixpoint contextAfter (cmds : list string) (ctx : Context) : Context :=
  match cmds with
  | [] => ctx
  | c :: r => contextAfter r (snd (vmCommandToAsm c ctx))
  end.

(** The predicate of a comparison command. *)
Definition comparisonOp (cmd : string) : option string :=
  match parts cmd with
  | op :: _ => if (op =? "eq") || (op =? "lt") || (op =? "gt") then Some op else None
  | [] => None
  end.

(** The labels a text declares, in order. *)
Fixpoint labelNames (ls : list Line) : list string :=
  match ls with
  | [] => []
  | LabelDecl name :: r => name :: labelNames r
  | _ :: r => labelNames r
  end.

Definition declaredLabels (text : string) : option (list string) :=
  option_map labelNames (parseLines (splitLines EmptyString text)).

(** The text the commands of a file produce up to the first that fails,
    with no writer in between. *)
Fixpoint generated (lines : list string) (ctx : Context)
    : string * option string * Context :=
  match lines with
  | [] => (EmptyString, None, ctx)
  | line :: rest =>
      let vmCommand := TrimSpace line in
      if (vmCommand =? "") || HasPrefix vmCommand "//"
      then generated rest ctx
      else
        match vmCommandToAsm vmCommand ctx with
        | (Err e, ctx') => (EmptyString, Some e, ctx')
        | (Ok asm, ctx') =>
            let '(text, e, ctx'') := generated rest ctx' in
            (asm ++ text, e, ctx'')
        end
  end.

(** What translating one file adds to the output file. *)
Definition unitBlock (f : option vmFile) (ctx : Context) : string * Context :=
  let '(_, ctx', out) := translateVMFileToASM f ctx EmptyString in (out, ctx').

(** The files [main] translates, in the order it does. *)
Definition eligible (e : DirEntry) : bool :=
  negb (IsDir e) && HasSuffix (Name e) ".vm" && negb (Name e =? "Sys.vm").

Definition unitOrder (d : Dir) : list string :=
  (if checkForSysVM (entries d) then ["Sys.vm"] else [])
  ++ map Name (filter eligible (entries d)).

Fixpoint blocksOf (d : Dir) (names : list string) (ctx : Context) : list string :=
  match names with
  | [] => []
  | n :: r =>
      let '(b, ctx') := unitBlock (open d n) ctx in
      b :: blocksOf d r ctx'
  end.

(** [occursIn a b]: the text [a] occurs in [b]. *)
Fixpoint occursIn (a b : string) : bool :=
  String.prefix a b ||
  match b with
  | EmptyString => false
  | String _ r => occursIn a r
  end.

Definition isBinary (op : string) : bool :=
  (op =? "add") || (op =? "sub") || (op =? "and") || (op =? "or").

Definition isUnary (op : string) : bool := (op =? "neg") || (op =? "not").

Definition isCompare (op : string) : bool :=
  (op =? "eq") || (op =? "lt") || (op =? "gt").

(** The stack effect the specification documents for a command, from its
    tokens: -1 for the binary operations and the comparisons, 0 for the
    unary ones, +1 for [push], -1 for [pop], +k for [function f k]. *)
Definition documentedDelta (ps : list string) : option Z :=
  match ps with
  | [] => None
  | op :: operands =>
      if isBinary op || isCompare op then Some (-1)
      else if isUnary op then Some 0
      else if op =? "push" then Some 1
      else if op =? "pop" then Some (-1)
      else if op =? "function" then
        match operands with
        | [_; k] => Atoi k
        | _ => None
        end
      else None
  end.

(** The same, with the effect the [function] loop really has: it runs
    [max k 0] times. *)
Definition stackDelta (ps : list string) : option Z :=
  match ps with
  | op :: _ =>
      if op =? "function" then option_map (Z.max 0) (documentedDelta ps)
      else documentedDelta ps
  | [] => None
  end.

Definition isPop (ps : list string) : bool :=
  match ps with
  | op :: _ => op =? "pop"
  | [] => false
  end.

(** The stack pointer is in the stack area and [n] more words fit. *)
Definition stackFits (st : Machine) (n : Z) : Prop :=
  256 <= SP st <= 32767 /\ SP st + n <= 32767.

(** Instructions run one after the other. *)
Definition runStraight (rom : list Instr) (st : Machine) : Machine :=
  fold_left (fun s i => step i s) rom st.

Definition jumpFree (i : Instr) : bool :=
  match i with
  | IA _ => true
  | IC _ _ J_none => true
  | IC _ _ _ => false
  end.


(** The lines of a comparison block. *)
Definition comparisonLines (T E J : string) : list string :=
  ["@SP"; "AM=M-1"; "D=M"; "A=A-1"; "D=M-D"; "@" ++ T; "D;" ++ J;
   "@SP"; "A=M-1"; "M=0"; "@" ++ E; "0;JMP"; "(" ++ T ++ ")"; "@SP"; "A=M-1";
   "M=-1"; "(" ++ E ++ ")"].

(** Two files that use the same static index. *)
Definition staticDir : Dir :=
  mkDir [mkDirEntry "A.vm" false; mkDirEntry "B.vm" false]
        (fun name =>
           if name =? "A.vm" then Some (mkVmFile ["push static 3"] None)
           else if name =? "B.vm" then Some (mkVmFile ["pop static 3"] None)
           else None).

(** The blocks [translateCallCommand] puts together, line by line. *)
Definition pushAddressLines (label : string) : list string :=
  ["@" ++ label; "D=A"; "@SP"; "A=M"; "M=D"; "@SP"; "M=M+1"].

Definition pushRegisterLines (register : string) : list string :=
  ["@" ++ register; "D=M"; "@SP"; "A=M"; "M=D"; "@SP"; "M=M+1"].

Definition setArgLines (n : Z) : list string :=
  ["@SP"; "D=M"; "@" ++ fmt_d n; "D=D-A"; "@5"; "D=D-A"; "@ARG"; "M=D"].

Definition setLclLines : list string := ["@SP"; "D=M"; "@LCL"; "M=D"].

Definition jumpLines (target : string) : list string := ["@" ++ target; "0;JMP"].

Definition callLines (name : string) (n counter : Z) : list string :=
  let ret := name ++ "$ret." ++ fmt_d counter in
  (pushAddressLines ret
   ++ pushRegisterLines "LCL" ++ pushRegisterLines "ARG"
   ++ pushRegisterLines "THIS" ++ pushRegisterLines "THAT"
   ++ setArgLines n ++ setLclLines ++ jumpLines name
   ++ [("(" ++ ret ++ ")")%string])%list.

(** A file whose second command fails, and a sibling. *)
Definition failingDir : Dir :=
  mkDir [mkDirEntry "A.vm" false; mkDirEntry "B.vm" false]
        (fun name =>
           if name =? "A.vm" then Some (mkVmFile ["push constant 7"; "bogus"] None)
           else if name =? "B.vm" then Some (mkVmFile ["push constant 8"] None)
           else None).

(** Blocks one after the other. *)
Definition joined (blocks : list string) : string :=
  fold_right append EmptyString blocks.

(** The blocks of the files [main] translates after [Sys.vm]. *)
Definition otherBlocks (d : Dir) : string :=
  let ctx :=
    if checkForSysVM (entries d)
    then snd (unitBlock (open d "Sys.vm") initialContext)
    else initialContext in
  joined (blocksOf d (map Name (filter eligible (entries d))) ctx).

(** What [main] writes for [Sys.vm], when the directory lists it. *)
Definition sysBlock (d : Dir) : string :=
  if checkForSysVM (entries d)
  then fst (unitBlock (open d "Sys.vm") initialContext) else EmptyString.

(** A directory that lists [Sys.vm] last. *)
Definition sysLastDir : Dir :=
  mkDir [mkDirEntry "Main.vm" false; mkDirEntry "Sys.vm" false]
        (fun name =>
           if name =? "Main.vm" then Some (mkVmFile ["push constant 1"] None)
           else if name =? "Sys.vm" then Some (mkVmFile ["push constant 2"] None)
           else None).

(** The block [text], run from [st], ends by falling off its end, in a
    state that satisfies [P]. *)
Definition blockEffect (base : Z) (sigma : string -> Z) (text : string)
    (st : Machine) (P : Machine -> Prop) : Prop :=
  match runBlock base sigma text st with
  | Some (Done st') => P st'
  | _ => False
  end.

(** The lines and the instructions that initialise one local. *)
Definition initLocalLines : list string :=
  ["@SP"; "A=M"; "M=0"; "@SP"; "M=M+1"].

Definition initLocalCode : list Instr :=
  [IA 0; IC (mkDest true false false) C_M J_none;
   IC (mkDest false false true) C_0 J_none;
   IA 0; IC (mkDest false false true) C_Mp1 J_none].

Definition initLocalParsed : list Line :=
  [AInstr "SP"; CInstr (mkDest true false false) C_M J_none;
   CInstr (mkDest false false true) C_0 J_none;
   AInstr "SP"; CInstr (mkDest false false true) C_Mp1 J_none].

(** The jump of a comparison, and the instructions of its block when it
    is loaded at [base]. *)
Definition jumpOf (cmd : string) : Jump :=
  if cmd =? "eq" then JEQ else if cmd =? "lt" then JLT else JGT.

Definition comparisonCode (base : Z) (j : Jump) : list Instr :=
  [IA 0; IC (mkDest true false true) C_Mm1 J_none;
   IC (mkDest false true false) C_M J_none;
   IC (mkDest true false false) C_Am1 J_none;
   IC (mkDest false true false) C_MmD J_none;
   IA (base + 12); IC (mkDest false false false) C_D j;
   IA 0; IC (mkDest true false false) C_Mm1 J_none;
   IC (mkDest false false true) C_0 J_none;
   IA (base + 15); IC (mkDest false false false) C_0 JMP;
   IA 0; IC (mkDest true false false) C_Mm1 J_none;
   IC (mkDest false false true) C_m1 J_none].

(** A machine with the stack pointer at the stack base and zeros
    elsewhere. *)
Definition freshMachine : Machine :=
  mkMachine 0 0 (fun a => if (a =? 0)%Z then 256 else 0).

(** The instructions of the call block, piece by piece: push the constant
    [v]; push the word at address [r]; [ARG = SP - n - 5]; [LCL = SP]; jump
    to [target]. *)
Definition pushDCode : list Instr :=
  [IA 0; IC (mkDest true false false) C_M J_none;
   IC (mkDest false false true) C_D J_none;
   IA 0; IC (mkDest false false true) C_Mp1 J_none].

Definition pushACode (v : Z) : list Instr :=
  [IA v; IC (mkDest false true false) C_A J_none] ++ pushDCode.

Definition pushMCode (r : Z) : list Instr :=
  [IA r; IC (mkDest false true false) C_M J_none] ++ pushDCode.

Definition setArgCode (n : Z) : list Instr :=
  [IA 0; IC (mkDest false true false) C_M J_none;
   IA n; IC (mkDest false true false) C_DmA J_none;
   IA 5; IC (mkDest false true false) C_DmA J_none;
   IA 2; IC (mkDest false false true) C_D J_none].

Definition setLclCode : list Instr :=
  [IA 0; IC (mkDest false true false) C_M J_none;
   IA 1; IC (mkDest false false true) C_D J_none].

Definition callSetupCode (ret n target : Z) : list Instr :=
  pushACode ret ++ pushMCode 1 ++ pushMCode 2 ++ pushMCode 3 ++ pushMCode 4
  ++ setArgCode n ++ setLclCode ++ [IA target].

Definition callCode (ret n target : Z) : list Instr :=
  callSetupCode ret n target ++ [IC (mkDest false false false) C_0 JMP].

Fixpoint hasChar (c : ascii) (s : string) : bool :=
  match s with
  | EmptyString => false
  | String x r => Ascii.eqb x c || hasChar c r
  end.

(** The instructions of the return block, piece by piece: save the return
    address [RAM[LCL-5]] in [R13]; store the return value at [RAM[ARG]] and
    set [SP = ARG+1]; restore a register from the word below [LCL], moving
    [LCL] down; restore [LCL] itself; load the saved address and jump. *)
Definition saveRetCode : list Instr :=
  [IA 1; IC (mkDest false true false) C_M J_none;
   IA 5; IC (mkDest true false false) C_DmA J_none;
   IC (mkDest false true false) C_M J_none;
   IA 13; IC (mkDest false false true) C_D J_none].

Definition storeResultCode : list Instr :=
  [IA 0; IC (mkDest true false false) C_Mm1 J_none;
   IC (mkDest false true false) C_M J_none;
   IA 2; IC (mkDest true false false) C_M J_none;
   IC (mkDest false false true) C_D J_none;
   IC (mkDest false true false) C_Ap1 J_none;
   IA 0; IC (mkDest false false true) C_D J_none].

Definition restoreCode (r : Z) : list Instr :=
  [IA 1; IC (mkDest true false true) C_Mm1 J_none;
   IC (mkDest false true false) C_M J_none;
   IA r; IC (mkDest false false true) C_D J_none].

Definition restoreLclCode : list Instr :=
  [IA 1; IC (mkDest true false false) C_Mm1 J_none;
   IC (mkDest false true false) C_M J_none;
   IA 1; IC (mkDest false false true) C_D J_none].

Definition returnSetupCode : list Instr :=
  saveRetCode ++ storeResultCode ++ restoreCode 4 ++ restoreCode 3
  ++ restoreCode 2 ++ restoreLclCode
  ++ [IA 13; IC (mkDest true false false) C_M J_none].

Definition returnCode : list Instr :=
  returnSetupCode ++ [IC (mkDest false false false) C_0 JMP].
(** A machine at a [return]: frame at 295..299 below [LCL = 300],
    [ARG = 290], return value 42 on top of the stack at 309. *)
Definition returnMachine : Machine :=
  mkMachine 0 0
    (fun a =>
       if (a =? 0)%Z then 310 else if (a =? 1)%Z then 300
       else if (a =? 2)%Z then 290
       else if (a =? 295)%Z then 777 else if (a =? 296)%Z then 11
       else if (a =? 297)%Z then 12 else if (a =? 298)%Z then 13
       else if (a =? 299)%Z then 14 else if (a =? 309)%Z then 42 else 0).

(** A machine at a [call] with one argument on the stack. *)
Definition callMachine : Machine :=
  mkMachine 0 0
    (fun a =>
       if (a =? 0)%Z then 257 else if (a =? 1)%Z then 11
       else if (a =? 2)%Z then 12 else if (a =? 3)%Z then 13
       else if (a =? 4)%Z then 14 else if (a =? 256)%Z then 5 else 0).

(** [st] with one more word on the stack. *)
Definition bumped (st : Machine) : Machine :=
  mkMachine 0 0 (store (ram st) 0 (SP st + 1)).

(** What the two-operand commands compute from the word below the top,
    [x], and the top, [y]; what the one-operand commands compute from the
    top; and the relation a comparison command names. *)
Definition binaryResult (op : string) (x y : Z) : Z :=
  if op =? "add" then x + y
  else if op =? "sub" then x - y
  else if op =? "and" then Z.land x y
  else Z.lor x y.

Definition unaryResult (op : string) (y : Z) : Z :=
  if op =? "neg" then - y else Z.lnot y.

Definition holds (op : string) (x y : Z) : bool :=
  if op =? "eq" then (x =? y)%Z
  else if op =? "lt" then (x <? y)%Z
  else (y <? x)%Z.

(** A machine whose stack, from the stack base 256 up, holds [ws], with
    zeros elsewhere. *)
Definition stackOf (ws : list Z) : Machine :=
  mkMachine 0 0
    (fun a => if (a =? 0)%Z then 256 + Z.of_nat (List.length ws)
              else if (a <? 256)%Z then 0
              else nth (Z.to_nat (a - 256)) ws 0).

(** The RAM word that holds the base address of a segment. *)
Definition segmentPointer (segment : string) : option Z :=
  if segment =? "local" then Some 1
  else if segment =? "argument" then Some 2
  else if segment =? "this" then Some 3
  else if segment =? "that" then Some 4
  else None.

(** The callee and the argument count of a [call] command that is
    translated. *)
Definition callOf (cmd : string) : option (string * Z) :=
  match parts cmd with
  | [op; name; count] =>
      if op =? "call" then option_map (pair name) (Atoi count) else None
  | _ => None
  end.

(** How many of [cmds] are translated [call] commands. *)
Definition callsIn (cmds : list string) : Z :=
  Z.of_nat (List.length (filter (fun c => isSome (callOf c)) cmds)).

(** The return label of a call of [name] at call counter [c]. *)
Definition returnLabel (name : string) (c : Z) : string :=
  name ++ "$ret." ++ fmt_d c.

(** The number of operands [vmCommandToAsm] requires after the command
    word, for the words it checks. *)
Definition operandCount (op : string) : option nat :=
  if (op =? "push") || (op =? "pop") || (op =? "function") || (op =? "call")
  then Some 2%nat
  else if (op =? "if-goto") || (op =? "goto") || (op =? "label") then Some 1%nat
  else if op =? "return" then Some 0%nat
  else None.

(** An entry [main] may translate: a file, not a directory, whose name
    ends in [.vm]. *)
Definition isVmFile (e : DirEntry) : bool :=
  negb (IsDir e) && HasSuffix (Name e) ".vm".

(** A line the loop of [translateVMFileToASM] hands to [vmCommandToAsm]:
    not blank, not a comment. *)
Definition isCommandLine (line : string) : bool :=
  negb ((TrimSpace line =? "") || HasPrefix (TrimSpace line) "//").

(** A file that generates more text than the writer buffers before its
    last command fails, and a sibling. *)
Definition cutDir : Dir :=
  mkDir [mkDirEntry "A.vm" false; mkDirEntry "B.vm" false]
        (fun name =>
           if name =? "A.vm"
           then Some (mkVmFile ("push constant 77"
                                  :: repeat "push constant 7" 141 ++ ["bogus"])%list
                               None)
           else if name =? "B.vm" then Some (mkVmFile ["push constant 8"] None)
           else None).

(** * Properties *)

(** ** Strings *)

Lemma append_nil_r (s : string) : s ++ "" = s.
Proof. induction s as [|c s IH]; simpl; [reflexivity | now rewrite IH]. Qed.

Lemma append_assoc (a b c : string) : (a ++ b) ++ c = a ++ (b ++ c).
Proof. induction a as [|x a IH]; simpl; [reflexivity | now rewrite IH]. Qed.

Lemma txt_app (a b : list string) : txt (a ++ b) = txt a ++ txt b.
Proof.
  induction a as [|l a IH]; simpl; [reflexivity|].
  rewrite IH, !append_assoc. reflexivity.
Qed.

Lemma length_append (a b : string) :
  String.length (a ++ b) = (String.length a + String.length b)%nat.
Proof. induction a as [|x a IH]; simpl; [reflexivity | now rewrite IH]. Qed.

Lemma hasNL_app (a b : string) : hasNL (a ++ b) = hasNL a || hasNL b.
Proof.
  induction a as [|x a IH]; simpl; [reflexivity|].
  rewrite IH. now rewrite orb_assoc.
Qed.

Lemma splitLines_line (l : string) :
  hasNL l = false ->
  forall cur rest,
    splitLines cur (l ++ String "010" rest) = (cur ++ l) :: splitLines "" rest.
Proof.
  induction l as [|c l IH]; intros H cur rest.
  - simpl. now rewrite append_nil_r.
  - simpl in H. apply orb_false_elim in H as [Hc Hl].
    simpl. rewrite Hc. rewrite (IH Hl). now rewrite append_assoc.
Qed.

Lemma splitLines_txt (ls : list string) :
  forallb (fun l => negb (hasNL l)) ls = true ->
  splitLines "" (txt ls) = ls.
Proof.
  induction ls as [|l ls IH]; intros H; cbn [txt forallb] in *; [reflexivity|].
  apply andb_prop in H as [Hl Hls].
  change (l ++ nl ++ txt ls) with (l ++ String "010" (txt ls)).
  rewrite splitLines_line by now apply negb_true_iff.
  cbn [append]. now rewrite IH.
Qed.

(** ** Dispatch: what fails and what it costs *)

(** C10: a command that fails leaves the context as it was, both counters
    included, so the labels of later commands are numbered as if the
    rejected command had not been there. *)
Theorem failing_command_keeps_context (cmd : string) (ctx : Context) :
  is_ok (fst (vmCommandToAsm cmd ctx)) = false ->
  snd (vmCommandToAsm cmd ctx) = ctx.
Proof.
  unfold vmCommandToAsm.
  destruct (Fields (TrimSpace (beforeComment cmd))) as [|op operands];
    [reflexivity|].
  repeat match goal with
         | |- context [if ?b then _ else _] => destruct b
         | |- context [match ?l with [] => _ | _ :: _ => _ end] => destruct l
         | |- context [match Atoi ?s with _ => _ end] => destruct (Atoi s)
         end;
    cbn; try reflexivity; try discriminate.
Qed.

Lemma failing_command_keeps_context_witness :
  is_ok (fst (vmCommandToAsm "pop constant 1" (mkContext "" 3 4 ""))) = false /\
  snd (vmCommandToAsm "pop constant 1" (mkContext "" 3 4 "")) = mkContext "" 3 4 "".
Proof.
  split; [reflexivity|].
  apply (failing_command_keeps_context "pop constant 1" (mkContext "" 3 4 "")).
  reflexivity.
Defined.

(** The index [2] is an integer, and [push pointer 2] is rejected. *)
Lemma pointer_2_rejected :
  Atoi "2" = Some 2 /\
  vmCommandToAsm "push pointer 2" initialContext
  = (Err "invalid index for push pointer command: 2", initialContext) /\
  vmCommandToAsm "pop pointer 2" initialContext
  = (Err "invalid index for pop pointer command: 2", initialContext).
Proof. repeat split; reflexivity. Qed.

(** C6, amended: on [temp] the index only has to be an integer for [Atoi],
    whatever its value; on [pointer] it has to be the text [0] or [1], and
    any other index is an error. *)
Theorem temp_pointer_index_check (cmd op segment index : string) (ctx : Context) :
  parts cmd = [op; segment; index] ->
  op = "push" \/ op = "pop" ->
  segment = "temp" \/ segment = "pointer" ->
  is_ok (fst (vmCommandToAsm cmd ctx))
  = if segment =? "temp" then isSome (Atoi index)
    else (index =? "0") || (index =? "1").
Proof.
  intros Hparts Hop Hseg. unfold vmCommandToAsm.
  change (Fields (TrimSpace (beforeComment cmd))) with (parts cmd).
  rewrite Hparts.
  destruct Hop as [-> | ->], Hseg as [-> | ->]; cbn;
    unfold translatePushCommand, translatePopCommand; cbn;
    try (destruct (Atoi index); reflexivity);
    destruct (index =? "0"), (index =? "1"); reflexivity.
Qed.

Lemma temp_pointer_index_check_witness :
  parts "pop temp 9" = ["pop"; "temp"; "9"] /\
  is_ok (fst (vmCommandToAsm "pop temp 9" initialContext)) = true.
Proof.
  split; [reflexivity|].
  apply (temp_pointer_index_check "pop temp 9" "pop" "temp" "9" initialContext);
    [reflexivity | right; reflexivity | left; reflexivity].
Defined.

(** A negative count is an integer for [Atoi]: [function Foo -1] is
    translated, to the entry label alone. *)
Lemma function_negative_count_accepted :
  vmCommandToAsm "function Foo -1" initialContext
  = (Ok (txt ["(Foo)"]), initialContext) /\
  is_ok (fst (vmCommandToAsm "call Foo -1" initialContext)) = true.
Proof. split; reflexivity. Qed.

(** C7, amended: [function] and [call] are translated exactly when they
    have two operands and [Atoi] accepts the second, so a count that is
    not an integer is an error and a negative one is not. *)
Theorem function_call_operand_check (cmd op : string) (operands : list string)
    (ctx : Context) :
  parts cmd = op :: operands ->
  op = "function" \/ op = "call" ->
  is_ok (fst (vmCommandToAsm cmd ctx))
  = match operands with
    | [_; count] => isSome (Atoi count)
    | _ => false
    end.
Proof.
  intros Hparts Hop. unfold vmCommandToAsm.
  change (Fields (TrimSpace (beforeComment cmd))) with (parts cmd).
  rewrite Hparts.
  destruct Hop as [-> | ->]; cbn;
    destruct operands as [|name [|count [|x r]]]; try reflexivity;
    destruct (Atoi count); reflexivity.
Qed.

Lemma function_call_operand_check_witness :
  parts "function Foo x" = ["function"; "Foo"; "x"] /\
  is_ok (fst (vmCommandToAsm "function Foo x" initialContext)) = false.
Proof.
  split; [reflexivity|].
  apply (function_call_operand_check "function Foo x" "function" ["Foo"; "x"]
           initialContext);
    [reflexivity | left; reflexivity].
Defined.

(** ** Numbers in decimal *)

Lemma fmt_d_inj (a b : Z) : fmt_d a = fmt_d b -> a = b.
Proof.
  unfold fmt_d. intros H.
  assert (Hnn : forall z, Z.to_int z <> Decimal.Pos Decimal.Nil
                          /\ Z.to_int z <> Decimal.Neg Decimal.Nil).
  { intros [|p|p]; cbn; split; try discriminate;
      intros [= E]; now apply (DecimalPos.Unsigned.to_uint_nonnil p). }
  apply DecimalZ.to_int_inj.
  assert (E : Some (Z.to_int a) = Some (Z.to_int b)).
  { rewrite <- (NilZero.isi (Z.to_int a)), <- (NilZero.isi (Z.to_int b));
      try apply Hnn.
    now rewrite H. }
  now injection E.
Qed.

Lemma hasNL_uint (d : Decimal.uint) : hasNL (NilEmpty.string_of_uint d) = false.
Proof. induction d; cbn; auto. Qed.

Lemma hasNL_fmt_d (n : Z) : hasNL (fmt_d n) = false.
Proof.
  unfold fmt_d, NilZero.string_of_int, NilZero.string_of_uint.
  destruct (Z.to_int n) as [d|d]; destruct d; cbn; auto using hasNL_uint.
Qed.

(** ** 64-bit wrap-around *)

Lemma int_wrap_range (z : Z) : int_min <= int_wrap z <= int_max.
Proof.
  unfold int_wrap, int_min, int_max.
  pose proof (Z.mod_pos_bound (z + 2 ^ 63) (2 ^ 64) ltac:(lia)). lia.
Qed.

Lemma int_wrap_small (z : Z) : int_min <= z <= int_max -> int_wrap z = z.
Proof.
  unfold int_wrap, int_min, int_max. intros H.
  rewrite Z.mod_small; lia.
Qed.

Lemma int_wrap_add (x y : Z) : int_wrap (int_wrap x + y) = int_wrap (x + y).
Proof.
  unfold int_wrap.
  replace ((x + 2 ^ 63) mod 2 ^ 64 - 2 ^ 63 + y + 2 ^ 63)
    with ((x + 2 ^ 63) mod 2 ^ 64 + y) by lia.
  rewrite Zplus_mod_idemp_l. f_equal. f_equal. lia.
Qed.

Lemma int_wrap_eq (x y : Z) :
  int_wrap x = int_wrap y -> (y - x) mod 2 ^ 64 = 0.
Proof.
  unfold int_wrap. intros H.
  assert (E : (x + 2 ^ 63) mod 2 ^ 64 = (y + 2 ^ 63) mod 2 ^ 64) by lia.
  replace (y - x) with ((y + 2 ^ 63) - (x + 2 ^ 63)) by lia.
  rewrite Zminus_mod, E, Z.sub_diag. reflexivity.
Qed.

(** ** The context along a run *)

Ltac case_op op :=
  repeat match goal with
         | |- context [String.eqb op ?s] =>
             destruct (String.eqb_spec op s) as [-> | ?]; cbn
         end.



(** A call of [vmCommandToAsm] never assigns [fileName] or
    [currentFunctionName], and moves the comparison counter only for a
    comparison. *)
Lemma vmCommandToAsm_context (cmd : string) (ctx : Context) :
  let ctx' := snd (vmCommandToAsm cmd ctx) in
  fileName ctx' = fileName ctx /\
  currentFunctionName ctx' = currentFunctionName ctx /\
  compLabelCounter ctx'
  = if isSome (comparisonOp cmd) then int_wrap (compLabelCounter ctx + 1)
    else compLabelCounter ctx.
Proof.
  unfold vmCommandToAsm, comparisonOp.
  change (Fields (TrimSpace (beforeComment cmd))) with (parts cmd).
  destruct (parts cmd) as [|op operands]; cbn; [auto|].
  case_op op; auto;
    repeat match goal with
           | |- context [match ?l with [] => _ | _ :: _ => _ end] => destruct l; cbn
           | |- context [match Atoi ?s with _ => _ end] => destruct (Atoi s); cbn
           end; auto.
Qed.

Lemma contextAfter_app (a b : list string) (ctx : Context) :
  contextAfter (a ++ b) ctx = contextAfter b (contextAfter a ctx).
Proof. revert ctx. induction a as [|c a IH]; intros ctx; cbn; auto. Qed.

Lemma contextAfter_names (cmds : list string) (ctx : Context) :
  fileName (contextAfter cmds ctx) = fileName ctx /\
  currentFunctionName (contextAfter cmds ctx) = currentFunctionName ctx.
Proof.
  revert ctx. induction cmds as [|c cmds IH]; intros ctx; cbn; [auto|].
  destruct (IH (snd (vmCommandToAsm c ctx))) as [-> ->].
  destruct (vmCommandToAsm_context c ctx) as (-> & -> & _). auto.
Qed.




(** ** Reading emitted text back *)

Lemma dropLast_app (c : ascii) (s : string) :
  dropLast c (s ++ String c "") = Some s.
Proof.
  induction s as [|x s IH]; cbn.
  - now rewrite Ascii.eqb_refl.
  - rewrite IH. now destruct s.
Qed.

Lemma parseLine_at (x : string) : parseLine ("@" ++ x) = Some (AInstr x).
Proof. reflexivity. Qed.

Lemma parseLine_label (x : string) :
  parseLine ("(" ++ x ++ ")") = Some (LabelDecl x).
Proof. cbn. now rewrite dropLast_app. Qed.

Lemma hasNL_trueLabel (op : string) (n : Z) :
  op = "eq" \/ op = "lt" \/ op = "gt" -> hasNL (trueLabel op n) = false.
Proof.
  intros [-> | [-> | ->]]; unfold trueLabel; cbn; apply hasNL_fmt_d.
Qed.

Lemma hasNL_endLabel (op : string) (n : Z) :
  op = "eq" \/ op = "lt" \/ op = "gt" -> hasNL (endLabel op n) = false.
Proof.
  intros [-> | [-> | ->]]; unfold endLabel; cbn; apply hasNL_fmt_d.
Qed.

Lemma translateComparisonCommand_lines (op : string) (n : Z) :
  translateComparisonCommand op n
  = txt (comparisonLines (trueLabel op n) (endLabel op n) (jumpInstruction op)).
Proof.
  unfold translateComparisonCommand, comparisonLines.
  rewrite <- txt_app. reflexivity.
Qed.

Lemma splitLines_comparison (T E J : string) :
  hasNL T = false -> hasNL E = false -> hasNL J = false ->
  splitLines "" (txt (comparisonLines T E J)) = comparisonLines T E J.
Proof.
  intros HT HE HJ. apply splitLines_txt. cbn.
  rewrite !hasNL_app, HT, HE, HJ. reflexivity.
Qed.


(** ** Comparison labels *)


Lemma firstn_past (cmds : list string) (i j : nat) (ci : string) :
  (i < j)%nat -> nth_error cmds i = Some ci ->
  exists rest, firstn j cmds = (firstn i cmds ++ ci :: rest)%list.
Proof.
  intros Hij Hi. apply nth_error_split in Hi as (l1 & l2 & -> & <-).
  rewrite !firstn_app, firstn_all, Nat.sub_diag. cbn [firstn].
  rewrite app_nil_r, (firstn_all2 (n := j)) by lia.
  destruct (j - List.length l1)%nat as [|k] eqn:E; [lia|].
  cbn [firstn]. eauto.
Qed.





(** ** Label and static scoping *)

(** No sequence of commands changes [currentFunctionName] or [fileName]:
    a [label] is emitted with the prefix the context started with, and a
    [static] slot with the unit name it started with. *)
Lemma label_prefix_fixed (cmds : list string) (cmd label : string) (ctx : Context) :
  parts cmd = ["label"; label] ->
  fst (vmCommandToAsm cmd (contextAfter cmds ctx))
  = Ok (txt ["(" ++ currentFunctionName ctx ++ "$" ++ label ++ ")"]).
Proof.
  intros Hp. unfold vmCommandToAsm.
  change (Fields (TrimSpace (beforeComment cmd))) with (parts cmd).
  rewrite Hp. cbn. unfold translateLabelCommand.
  now destruct (contextAfter_names cmds ctx) as [_ ->].
Qed.

(** C1, on the code: after [function Foo 0], [label LOOP] is emitted as
    [($LOOP)], not [(Foo$LOOP)], and the same label in [Bar] is emitted as
    the same symbol. *)
Theorem label_not_function_qualified :
  generated ["function Foo 0"; "label LOOP"; "function Bar 0"; "label LOOP"]
            initialContext
  = (txt ["(Foo)"; "($LOOP)"; "(Bar)"; "($LOOP)"], None, initialContext).
Proof. reflexivity. Qed.

(** C2, on the code: the static slot of index 3 is [.3] in the output of
    unit [A] and in that of unit [B]. *)
Theorem static_not_unit_qualified :
  snd (main staticDir)
  = bootstrap
    ++ txt ["@.3"; "D=M"; "@SP"; "A=M"; "M=D"; "@SP"; "M=M+1"]
    ++ txt ["@SP"; "AM=M-1"; "D=M"; "@.3"; "M=D"].
Proof. reflexivity. Qed.

(** ** The call sequence *)

Lemma pushSegments_lines (asm : string) (segments : list string) :
  pushSegments asm segments
  = asm ++ txt (List.concat (map pushRegisterLines segments)).
Proof.
  revert asm. induction segments as [|s r IH]; intros asm; cbn [pushSegments].
  - cbn. now rewrite append_nil_r.
  - rewrite IH. cbn [map List.concat]. rewrite txt_app, append_assoc. reflexivity.
Qed.

Lemma translateCallCommand_lines (name : string) (n : Z) (ctx : Context) :
  translateCallCommand name n ctx
  = (Ok (txt (callLines name n (callCounter ctx))), bumpCall ctx).
Proof.
  unfold translateCallCommand, callLines. rewrite pushSegments_lines.
  cbn [map List.concat]. rewrite !txt_app, !append_assoc.
  reflexivity.
Qed.

(** ** The buffered writer *)

Lemma substring_split (n : nat) (s : string) :
  (n <= String.length s)%nat ->
  String.substring 0 n s ++ String.substring n (String.length s - n) s = s.
Proof.
  revert s. induction n as [|n IH]; intros s H.
  - cbn. rewrite Nat.sub_0_r. destruct s as [|c s]; cbn; [reflexivity|].
    f_equal. clear. induction s as [|x s IH]; cbn; [reflexivity | now rewrite IH].
  - destruct s as [|c s]; cbn in *; [lia|].
    f_equal. apply IH. lia.
Qed.

Lemma length_substring_tail (n : nat) (s : string) :
  (n <= String.length s)%nat ->
  String.length (String.substring n (String.length s - n) s)
  = (String.length s - n)%nat.
Proof.
  intros H. pose proof (substring_split n s H) as E.
  apply (f_equal String.length) in E. rewrite length_append in E.
  assert (String.length (String.substring 0 n s) = n).
  { clear E. revert s H. induction n as [|n IH]; intros [|c s] H; cbn in *;
      try reflexivity; try lia. f_equal. apply IH. lia. }
  lia.
Qed.

(** What [WriteString] keeps: nothing is lost or reordered, the file only
    grows, the buffer stays within its size, and a text that fits in the
    buffer does not reach the file. *)
Lemma WriteString_spec (s : string) (o : Output) :
  let o' := WriteString s o in
  written o' ++ buffered o' = written o ++ buffered o ++ s /\
  (exists x, written o' = written o ++ x) /\
  ((String.length (buffered o) <= bufSize)%nat ->
   (String.length (buffered o') <= bufSize)%nat) /\
  ((String.length (buffered o) + String.length s <= bufSize)%nat ->
   written o' = written o).
Proof.
  destruct o as [w b]. unfold WriteString. cbn [written buffered].
  destruct (Nat.leb_spec (String.length s) (bufSize - String.length b)) as [Hfit | Hbig].
  - cbn [written buffered]. split; [|split; [|split]].
    + reflexivity.
    + exists "". now rewrite append_nil_r.
    + intros Hb. rewrite length_append. lia.
    + reflexivity.
  - destruct (Nat.eqb_spec (String.length b) 0) as [Hb0 | Hb0].
    + cbn [written buffered]. destruct b; [|discriminate]. cbn [append].
      split; [|split; [|split]].
      * now rewrite append_nil_r.
      * eauto.
      * intros _. apply Nat.le_0_l.
      * intros; cbn [String.length] in *; lia.
    + set (avail := (bufSize - String.length b)%nat) in *.
      assert (Hsplit : String.substring 0 avail s
                       ++ String.substring avail (String.length s - avail) s = s)
        by (apply substring_split; lia).
      destruct (Nat.leb_spec
                  (String.length (String.substring avail (String.length s - avail) s))
                  bufSize) as [Ht | Ht];
        cbn [written buffered]; (split; [|split; [|split]]).
      * rewrite !append_assoc. now rewrite Hsplit.
      * eauto.
      * intros _. exact Ht.
      * intros; lia.
      * rewrite append_nil_r, !append_assoc. now rewrite Hsplit.
      * rewrite !append_assoc. eauto.
      * intros _. apply Nat.le_0_l.
      * intros; lia.
Qed.

Lemma WriteString_prefix (p s w b : string) :
  WriteString s (mkOutput (p ++ w) b)
  = mkOutput (p ++ written (WriteString s (mkOutput w b)))
             (buffered (WriteString s (mkOutput w b))).
Proof.
  unfold WriteString. cbn [written buffered].
  repeat match goal with
         | |- context [if ?c then _ else _] => destruct c
         end; cbn [written buffered]; rewrite ?append_assoc; reflexivity.
Qed.

(** ** Files and [main] *)

Lemma append_inv_head (a b c : string) : a ++ b = a ++ c -> b = c.
Proof. induction a as [|x a IH]; cbn; intros H; [assumption|]. injection H. auto. Qed.

Lemma translateLines_spec (lines : list string) :
  forall ctx o e ctx' o',
    translateLines lines ctx o = (e, ctx', o') ->
    exists text,
      generated lines ctx = (text, e, ctx') /\
      written o' ++ buffered o' = written o ++ buffered o ++ text /\
      (exists x, written o' = written o ++ x) /\
      ((String.length (buffered o) <= bufSize)%nat ->
       (String.length (buffered o') <= bufSize)%nat) /\
      ((String.length (buffered o) + String.length text <= bufSize)%nat ->
       written o' = written o).
Proof.
  induction lines as [|line rest IH]; intros ctx o e ctx' o' H; cbn in H |- *.
  - injection H as <- <- <-. exists "". rewrite !append_nil_r.
    repeat (split; auto). exists "". now rewrite append_nil_r.
  - destruct ((TrimSpace line =? "") || HasPrefix (TrimSpace line) "//");
      [now apply IH|].
    destruct (vmCommandToAsm (TrimSpace line) ctx) as [[asm | msg] ctx1].
    + destruct (IH _ _ _ _ _ H) as (text & Hg & H1 & [x Hx] & H3 & H4).
      destruct (WriteString_spec asm o) as (W1 & [y Hy] & W3 & W4).
      cbn zeta in *. rewrite Hg. exists (asm ++ text).
      split; [reflexivity|]. split; [|split; [|split]].
      * rewrite H1, <- append_assoc, W1. now rewrite !append_assoc.
      * exists (y ++ x). now rewrite Hx, Hy, append_assoc.
      * auto.
      * rewrite length_append. intros Hlen.
        assert (Hw : written (WriteString asm o) = written o) by (apply W4; lia).
        rewrite Hw in W1. apply append_inv_head in W1.
        rewrite H4; [assumption|]. rewrite W1, length_append. lia.
    + injection H as <- <- <-. exists "". rewrite !append_nil_r.
      repeat (split; auto). exists "". now rewrite append_nil_r.
Qed.

Lemma translateLines_prefix (p : string) (lines : list string) :
  forall ctx w b,
    translateLines lines ctx (mkOutput (p ++ w) b)
    = let '(e, ctx', o) := translateLines lines ctx (mkOutput w b) in
      (e, ctx', mkOutput (p ++ written o) (buffered o)).
Proof.
  induction lines as [|line rest IH]; intros ctx w b; cbn.
  - reflexivity.
  - destruct ((TrimSpace line =? "") || HasPrefix (TrimSpace line) "//");
      [apply IH|].
    destruct (vmCommandToAsm (TrimSpace line) ctx) as [[asm | msg] ctx1];
      [|reflexivity].
    rewrite WriteString_prefix.
    destruct (WriteString asm (mkOutput w b)) as [w1 b1]. apply IH.
Qed.

(** A call of [translateVMFileToASM] appends the block of the file to the
    output file, whatever the file held. *)
Lemma translateVMFileToASM_block (f : option vmFile) (ctx : Context) (file : string) :
  snd (translateVMFileToASM f ctx file) = file ++ fst (unitBlock f ctx) /\
  snd (fst (translateVMFileToASM f ctx file)) = snd (unitBlock f ctx).
Proof.
  unfold unitBlock, translateVMFileToASM. destruct f as [vm|]; cbn.
  2:{ now rewrite append_nil_r. }
  pose proof (translateLines_prefix file (fileLines vm) ctx "" "") as E.
  rewrite append_nil_r in E. rewrite E.
  destruct (translateLines (fileLines vm) ctx (mkOutput "" "")) as [[e ctx'] o].
  destruct e; cbn; [auto|]. destruct (scanErr vm); cbn; auto.
  now rewrite append_assoc.
Qed.

Lemma translateEntries_blocks (d : Dir) (files : list DirEntry) :
  forall ctx file,
    snd (translateEntries d files ctx file)
    = file ++ joined (blocksOf d (map Name (filter eligible files)) ctx).
Proof.
  induction files as [|entry rest IH]; intros ctx file; cbn [translateEntries].
  - cbn. now rewrite append_nil_r.
  - cbn [filter]. unfold eligible at 1.
    destruct (negb (IsDir entry) && HasSuffix (Name entry) ".vm"
              && negb (Name entry =? "Sys.vm")); [|apply IH].
    cbn [map blocksOf].
    destruct (translateVMFileToASM_block (open d (Name entry)) ctx file) as [Hf Hc].
    destruct (translateVMFileToASM (open d (Name entry)) ctx file) as [[e ctx'] file'].
    cbn in Hf, Hc. subst.
    destruct (unitBlock (open d (Name entry)) ctx) as [b c]. cbn.
    rewrite IH. now rewrite append_assoc.
Qed.

(** The output of [main]: the bootstrap, the block of [Sys.vm] when the
    directory lists it, then the blocks of the other files. *)
Lemma main_output (d : Dir) :
  snd (main d)
  = bootstrap
    ++ (if checkForSysVM (entries d)
        then fst (unitBlock (open d "Sys.vm") initialContext) else "")
    ++ otherBlocks d.
Proof.
  unfold main, otherBlocks.
  destruct (checkForSysVM (entries d)).
  - destruct (translateVMFileToASM_block (open d "Sys.vm") initialContext bootstrap)
      as [Hf Hc].
    destruct (translateVMFileToASM (open d "Sys.vm") initialContext bootstrap)
      as [[e ctx'] file'].
    cbn [fst snd] in Hf, Hc. subst.
    rewrite translateEntries_blocks. now rewrite append_assoc.
  - rewrite translateEntries_blocks. reflexivity.
Qed.

Lemma main_blocks (d : Dir) :
  snd (main d) = bootstrap ++ joined (blocksOf d (unitOrder d) initialContext).
Proof.
  rewrite main_output. unfold otherBlocks, unitOrder.
  destruct (checkForSysVM (entries d)); [|reflexivity].
  cbn [app blocksOf].
  destruct (unitBlock (open d "Sys.vm") initialContext) as [b c]. reflexivity.
Qed.

(** The block of a file against the text its commands generate. *)
Lemma unitBlock_generated (vm : vmFile) (ctx : Context) :
  exists text e ctx' lost,
    generated (fileLines vm) ctx = (text, e, ctx') /\
    snd (unitBlock (Some vm) ctx) = ctx' /\
    text = fst (unitBlock (Some vm) ctx) ++ lost /\
    (String.length lost <= bufSize)%nat /\
    (isSome e || isSome (scanErr vm) = false -> lost = "") /\
    (isSome e || isSome (scanErr vm) = true ->
     (String.length text <= bufSize)%nat ->
     fst (unitBlock (Some vm) ctx) = "").
Proof.
  unfold unitBlock, translateVMFileToASM.
  destruct (translateLines (fileLines vm) ctx (mkOutput "" "")) as [[e ctx'] o] eqn:E.
  destruct (translateLines_spec _ _ _ _ _ _ E) as (text & Hg & H1 & _ & H3 & H4).
  cbn [written buffered append] in *.
  exists text, e, ctx'.
  destruct e as [msg|]; [|destruct (scanErr vm) as [msg|]]; cbn [isSome orb fst snd].
  - exists (buffered o). repeat split; auto using Nat.le_0_l; try discriminate.
  - exists (buffered o). repeat split; auto using Nat.le_0_l; try discriminate.
  - exists "". cbn [Flush written]. rewrite append_nil_r.
    repeat split; auto using Nat.le_0_l; try discriminate.
Qed.

Lemma checkForSysVM_permutation (a b : list DirEntry) :
  Permutation a b -> checkForSysVM a = checkForSysVM b.
Proof.
  induction 1 as [|x a b _ IH|x y a|a b c _ IH1 _ IH2]; cbn [checkForSysVM].
  - reflexivity.
  - now rewrite IH.
  - destruct (negb (IsDir x) && (Name x =? "Sys.vm")),
      (negb (IsDir y) && (Name y =? "Sys.vm")); reflexivity.
  - congruence.
Qed.

(** The bootstrap block, run on the machine, leaves 256 in [SP]. *)
Lemma bootstrap_sets_SP (base : Z) (sigma : string -> Z) (st : Machine) :
  exists st', runBlock base sigma bootstrap st = Some (Done st') /\ SP st' = 256.
Proof. eexists. split; reflexivity. Qed.

(** C9: the output is the bootstrap block, which sets [SP] to 256, then
    the block of [Sys.vm] when the directory lists such a file, then the
    blocks of the other files; listing the entries in another order gives
    the same beginning. *)
Theorem bootstrap_then_sys (d : Dir) (files' : list DirEntry) :
  Permutation (entries d) files' ->
  snd (main d) = bootstrap ++ sysBlock d ++ otherBlocks d /\
  snd (main (mkDir files' (open d)))
  = bootstrap ++ sysBlock d ++ otherBlocks (mkDir files' (open d)) /\
  forall base sigma st,
    exists st', runBlock base sigma bootstrap st = Some (Done st') /\ SP st' = 256.
Proof.
  intros Hperm. split; [apply main_output|]. split; [|apply bootstrap_sets_SP].
  rewrite main_output. unfold sysBlock. cbn [entries open].
  now rewrite (checkForSysVM_permutation _ _ Hperm).
Qed.

Lemma bootstrap_then_sys_witness :
  snd (main sysLastDir)
  = bootstrap ++ txt ["@2"; "D=A"; "@SP"; "A=M"; "M=D"; "@SP"; "M=M+1"]
    ++ txt ["@1"; "D=A"; "@SP"; "A=M"; "M=D"; "@SP"; "M=M+1"].
Proof.
  refine (eq_trans (proj1 (bootstrap_then_sys sysLastDir
    [mkDirEntry "Sys.vm" false; mkDirEntry "Main.vm" false] _)) _).
  - apply perm_swap.
  - reflexivity.
Defined.

(** C8, on the code: the lines emitted for a unit before its failing
    command do not remain in the output.  [translateVMFileToASM] flushes its
    writer on the path that ends the file, and on none of the three that
    return an error: the text [push constant 7] generated before the failing
    command of [A.vm] is not in the output; the block of [B.vm] is. *)
Theorem emitted_lines_lost_on_failure :
  generated ["push constant 7"; "bogus"] initialContext
  = (txt ["@7"; "D=A"; "@SP"; "A=M"; "M=D"; "@SP"; "M=M+1"],
     Some "unsupported command: bogus", initialContext) /\
  snd (main failingDir)
  = bootstrap ++ txt ["@8"; "D=A"; "@SP"; "A=M"; "M=D"; "@SP"; "M=M+1"] /\
  occursIn "@7" (snd (main failingDir)) = false.
Proof. repeat split; reflexivity. Qed.

(** When the text generated before the failing command is longer than the
    buffer, the output is cut where the buffer was last emptied, here in
    the middle of a block and of a line: the block of [B.vm] starts on the
    line [D=A] of an unfinished push of [A.vm]. *)
Lemma block_cut_at_buffer_boundary :
  snd (main cutDir)
  = bootstrap
    ++ txt ["@77"; "D=A"; "@SP"; "A=M"; "M=D"; "@SP"; "M=M+1"]
    ++ joined (repeat (txt ["@7"; "D=A"; "@SP"; "A=M"; "M=D"; "@SP"; "M=M+1"]) 140)
    ++ "@7" ++ nl ++ "D=A"
    ++ txt ["@8"; "D=A"; "@SP"; "A=M"; "M=D"; "@SP"; "M=M+1"] /\
  occursIn "D=A@8" (snd (main cutDir)) = true.
Proof. split; vm_compute; reflexivity. Qed.

(** The general form of the two examples: every file of the directory gets
    its block in the output, whatever became of the files before it.  The
    block of a file is the text its commands generate when no command
    fails; when one fails, the rest of the file is not translated, and the
    block lacks the end of the text generated before the failure, what the
    unflushed writer still held: at most 4096 bytes, and the whole text
    when it is no longer than that. *)
Theorem parse_failure_is_local (d : Dir) (vm : vmFile) (ctx : Context) :
  snd (main d) = bootstrap ++ joined (blocksOf d (unitOrder d) initialContext) /\
  exists text e ctx' lost,
    generated (fileLines vm) ctx = (text, e, ctx') /\
    snd (unitBlock (Some vm) ctx) = ctx' /\
    text = fst (unitBlock (Some vm) ctx) ++ lost /\
    (String.length lost <= bufSize)%nat /\
    (isSome e || isSome (scanErr vm) = false -> lost = "") /\
    (isSome e || isSome (scanErr vm) = true ->
     (String.length text <= bufSize)%nat ->
     fst (unitBlock (Some vm) ctx) = "").
Proof. split; [apply main_blocks | apply unitBlock_generated]. Qed.

(** ** Running emitted blocks *)

Lemma assemble_txt (base : Z) (sigma : string -> Z) (ls : list string)
    (L : list Line) :
  forallb (fun l => negb (hasNL l)) ls = true ->
  parseLines ls = Some L ->
  assemble base sigma (txt ls)
  = Some (instructions (resolve base (labelTable L 0) sigma) L).
Proof.
  intros Hnl Hp. unfold assemble. now rewrite splitLines_txt, Hp.
Qed.

Lemma exec_straight_from (base : Z) (rest : list Instr) :
  forallb jumpFree rest = true ->
  forall pre st fuel,
    (List.length rest < fuel)%nat ->
    exec fuel base (pre ++ rest) (List.length pre) st = Done (runStraight rest st).
Proof.
  induction rest as [|i rest IH]; intros Hjf pre st fuel Hfuel.
  - destruct fuel as [|fuel]; [cbn in Hfuel; lia|]. cbn [exec].
    rewrite app_nil_r.
    now rewrite (proj2 (nth_error_None pre (List.length pre)) (Nat.le_refl _)).
  - destruct fuel as [|fuel]; [cbn in Hfuel; lia|]. cbn [exec].
    rewrite nth_error_app2, Nat.sub_diag by lia. cbn [nth_error].
    cbn [forallb] in Hjf. apply andb_prop in Hjf as [Hi Hrest].
    assert (Hj : jumpTarget i st = None).
    { destruct i as [v | d c j]; [reflexivity|]. now destruct j. }
    rewrite Hj.
    replace (pre ++ i :: rest)%list with ((pre ++ [i]) ++ rest)%list
      by now rewrite <- app_assoc.
    replace (S (List.length pre)) with (List.length (pre ++ [i])%list)
      by (rewrite length_app; cbn; lia).
    apply IH; [assumption | cbn in Hfuel; lia].
Qed.

Lemma runBlock_straight (base : Z) (sigma : string -> Z) (text : string)
    (rom : list Instr) (st : Machine) :
  assemble base sigma text = Some rom ->
  forallb jumpFree rom = true ->
  runBlock base sigma text st = Some (Done (runStraight rom st)).
Proof.
  intros Ha Hjf. unfold runBlock. rewrite Ha. f_equal.
  apply (exec_straight_from base rom Hjf [] st). lia.
Qed.

Lemma wrap16_small (z : Z) : -32768 <= z <= 32767 -> wrap16 z = z.
Proof. intros H. unfold wrap16. rewrite Z.mod_small; lia. Qed.

Lemma addr_small (z : Z) : 0 <= z < 32768 -> addr z = z.
Proof. intros H. unfold addr. now rewrite Z.mod_small. Qed.

Lemma store_same (m : Z -> Z) (a v : Z) : store m a v a = v.
Proof. unfold store. now rewrite Z.eqb_refl. Qed.

Lemma store_other (m : Z -> Z) (a v x : Z) : x <> a -> store m a v x = m x.
Proof. unfold store. intros H. now destruct (Z.eqb_spec x a). Qed.




Lemma blockEffect_straight (base : Z) (sigma : string -> Z) (text : string)
    (rom : list Instr) (st : Machine) (P : Machine -> Prop) :
  assemble base sigma text = Some rom ->
  forallb jumpFree rom = true ->
  P (runStraight rom st) ->
  blockEffect base sigma text st P.
Proof.
  intros Ha Hjf HP. unfold blockEffect.
  now rewrite (runBlock_straight base sigma text rom st Ha Hjf).
Qed.

Lemma blockEffect_ex (base : Z) (sigma : string -> Z) (text : string)
    (st : Machine) (P : Machine -> Prop) :
  blockEffect base sigma text st P ->
  exists st', runBlock base sigma text st = Some (Done st') /\ P st'.
Proof.
  unfold blockEffect. destruct (runBlock base sigma text st) as [[st' | t st' |]|];
    try contradiction. eauto.
Qed.

Ltac case_str x :=
  repeat match goal with
         | |- context [String.eqb x ?s] =>
             destruct (String.eqb_spec x s) as [-> | ?];
             cbn [String.eqb Ascii.eqb Bool.eqb orb andb negb]
         end.

Ltac closed_string x :=
  lazymatch x with
  | EmptyString => idtac
  | String _ ?r => closed_string r
  end.

(** Replace the value of each symbol that is a literal by its number. *)
Ltac fix_resolve :=
  repeat match goal with
         | |- context [resolve ?b ?l ?s ?x] =>
             closed_string x;
             let v := eval vm_compute in (resolve b l s x) in
             change (resolve b l s x) with v
         end.

Ltac norm_machine :=
  repeat first
    [ rewrite store_same
    | match goal with
      | |- context [wrap16 ?z] => rewrite (wrap16_small z) by lia
      | |- context [addr ?z] => rewrite (addr_small z) by lia
      | |- context [store ?m ?a ?v ?x] => rewrite (store_other m a v x) by lia
      end ].

Ltac run_straight :=
  unfold SP, runStraight in *;
  cbn [fold_left step regA regD ram dA dD dM];
  unfold evalComp; cbv beta iota.

Ltac no_newlines :=
  cbn; rewrite ?hasNL_app; cbn;
  repeat match goal with
         | H : hasNL _ = false |- _ => rewrite H
         end;
  rewrite ?hasNL_fmt_d; reflexivity.

(** Reduce the effect of the label-free block [txt ls] to a property of
    its instructions run in sequence. *)
Ltac straight_block :=
  lazymatch goal with
  | |- blockEffect ?base ?sigma (txt ?ls) ?st ?P =>
      let parsed := eval cbv in (parseLines ls) in
      lazymatch parsed with
      | Some ?L =>
          eapply (blockEffect_straight base sigma (txt ls));
          [ rewrite (assemble_txt base sigma ls L);
            [reflexivity | no_newlines | reflexivity]
          | reflexivity
          | cbn [instructions labelTable]; fix_resolve; run_straight ]
      end
  end.

Lemma binary_effect (op : string) (base : Z) (sigma : string -> Z) (st : Machine) :
  isBinary op = true ->
  stackFits st (-1) ->
  blockEffect base sigma (translateArithmeticCommand op) st
              (fun st' => SP st' = SP st + -1).
Proof.
  intros Hop [H1 H2]. unfold isBinary in Hop. revert Hop.
  unfold translateArithmeticCommand.
  case_str op; try discriminate; intros _;
    straight_block; norm_machine; lia.
Qed.

Lemma unary_effect (op : string) (base : Z) (sigma : string -> Z) (st : Machine) :
  isUnary op = true ->
  stackFits st 0 ->
  blockEffect base sigma (translateArithmeticCommand op) st
              (fun st' => SP st' = SP st + 0).
Proof.
  intros Hop [H1 H2]. unfold isUnary in Hop. revert Hop.
  unfold translateArithmeticCommand.
  case_str op; try discriminate; intros _;
    straight_block; norm_machine; lia.
Qed.

Lemma Ok_inj {A : Type} (a b : A) : Ok a = Ok b -> a = b.
Proof. now intros [= ->]. Qed.

Ltac ok_subst :=
  let E := fresh "E" in
  intros E; apply Ok_inj in E; subst.

Lemma push_effect (segment index unit asm : string) (base : Z)
    (sigma : string -> Z) (st : Machine) :
  translatePushCommand segment index unit = Ok asm ->
  hasNL index = false -> hasNL unit = false ->
  stackFits st 1 ->
  blockEffect base sigma asm st (fun st' => SP st' = SP st + 1).
Proof.
  intros Hasm Hi Hu [H1 H2]. revert Hasm. unfold translatePushCommand.
  case_str segment; try discriminate;
    try (ok_subst; unfold pushSegmentTemplate;
         straight_block; norm_machine; lia).
  - destruct (Atoi index) as [offset|]; [|discriminate]. ok_subst.
    change ("@R" ++ fmt_d (int_wrap (5 + offset)))
      with ("@" ++ ("R" ++ fmt_d (int_wrap (5 + offset)))).
    assert (Hx : hasNL ("R" ++ fmt_d (int_wrap (5 + offset))) = false)
      by (rewrite hasNL_app, hasNL_fmt_d; reflexivity).
    revert Hx. generalize ("R" ++ fmt_d (int_wrap (5 + offset))). intros x Hx.
    straight_block; norm_machine; lia.
  - case_str index; try discriminate; ok_subst; rewrite <- txt_app;
      cbn [app]; straight_block; norm_machine; lia.
Qed.

Lemma pop_effect (segment index unit asm : string) (base : Z)
    (sigma : string -> Z) (st : Machine) :
  translatePopCommand segment index unit = Ok asm ->
  hasNL index = false -> hasNL unit = false ->
  stackFits st (-1) ->
  blockEffect base sigma asm st
              (fun st' => addr (regA st') <> 0 -> SP st' = SP st + -1).
Proof.
  intros Hasm Hi Hu [H1 H2]. revert Hasm. unfold translatePopCommand.
  case_str segment; try discriminate;
    try (ok_subst; unfold popTemplate;
         straight_block; norm_machine; intros Hne; norm_machine; lia).
  - destruct (Atoi index) as [tempIndex|]; [|discriminate]. ok_subst.
    change (fmt_d 5) with "5".
    pose proof (hasNL_fmt_d tempIndex) as Hx.
    revert Hx. generalize (fmt_d tempIndex). intros x Hx.
    straight_block; norm_machine; intros Hne; norm_machine; lia.
  - case_str index; try discriminate; ok_subst;
      straight_block; norm_machine; intros Hne; norm_machine; lia.
  - destruct (Atoi index) as [staticIndex|]; [|discriminate]. ok_subst.
    assert (Hx : hasNL (unit ++ "." ++ fmt_d staticIndex) = false)
      by (rewrite !hasNL_app, Hu, hasNL_fmt_d; reflexivity).
    revert Hx. generalize (unit ++ "." ++ fmt_d staticIndex). intros x Hx.
    straight_block; norm_machine; intros Hne; norm_machine; lia.
Qed.

Lemma runStraight_app (a b : list Instr) (st : Machine) :
  runStraight (a ++ b) st = runStraight b (runStraight a st).
Proof. unfold runStraight. apply fold_left_app. Qed.

Lemma initLocals_lines (k : nat) (asm : string) :
  initLocals k asm = asm ++ txt (List.concat (repeat initLocalLines k)).
Proof.
  revert asm. induction k as [|k IH]; intros asm; cbn [initLocals repeat List.concat].
  - cbn. now rewrite append_nil_r.
  - rewrite IH, txt_app, !append_assoc. reflexivity.
Qed.

Lemma initLocal_parse (n : nat) :
  forallb (fun l => negb (hasNL l)) (List.concat (repeat initLocalLines n)) = true /\
  parseLines (List.concat (repeat initLocalLines n))
  = Some (List.concat (repeat initLocalParsed n)).
Proof.
  induction n as [|n [IH1 IH2]]; [split; reflexivity|].
  cbn [repeat List.concat]. split.
  - rewrite forallb_app, IH1. reflexivity.
  - unfold initLocalLines at 1. cbn [app parseLines]. rewrite IH2. reflexivity.
Qed.

Lemma initLocal_instructions (r : string -> Z) (n : nat) :
  r "SP" = 0 ->
  instructions r (List.concat (repeat initLocalParsed n))
  = List.concat (repeat initLocalCode n)
  /\ forallb jumpFree (List.concat (repeat initLocalCode n)) = true.
Proof.
  intros Hr. induction n as [|n [IH1 IH2]]; [split; reflexivity|].
  cbn [repeat List.concat]. split.
  - unfold initLocalParsed at 1. cbn [app instructions]. rewrite IH1, Hr. reflexivity.
  - rewrite forallb_app, IH2. reflexivity.
Qed.

Lemma initLocal_SP (n : nat) :
  forall st,
    256 <= SP st <= 32767 -> SP st + Z.of_nat n <= 32767 ->
    SP (runStraight (List.concat (repeat initLocalCode n)) st) = SP st + Z.of_nat n.
Proof.
  induction n as [|n IH]; intros st H1 H2.
  - cbn. lia.
  - cbn [repeat List.concat]. rewrite runStraight_app.
    assert (Hc : SP (runStraight initLocalCode st) = SP st + 1).
    { unfold initLocalCode. run_straight. norm_machine. lia. }
    rewrite IH; rewrite Hc; lia.
Qed.

Lemma function_effect (name : string) (k : Z) (asm : string) (base : Z)
    (sigma : string -> Z) (st : Machine) :
  translateFunctionCommand name k = Ok asm ->
  hasNL name = false ->
  stackFits st (Z.max 0 k) ->
  blockEffect base sigma asm st (fun st' => SP st' = SP st + Z.max 0 k).
Proof.
  unfold translateFunctionCommand. intros Hasm Hn [H1 H2].
  apply Ok_inj in Hasm. subst asm. rewrite initLocals_lines, <- txt_app.
  set (n := Z.to_nat k).
  destruct (initLocal_parse n) as [Hnl Hparse].
  eapply (blockEffect_straight base sigma).
  - apply assemble_txt.
    + cbn [app forallb]. rewrite Hnl. cbn. rewrite hasNL_app, Hn. reflexivity.
    + cbn [app parseLines]. rewrite parseLine_label, Hparse. reflexivity.
  - cbn [instructions].
    rewrite (proj1 (initLocal_instructions _ n eq_refl)).
    apply (initLocal_instructions (fun _ => 0) n eq_refl).
  - cbn [instructions].
    rewrite (proj1 (initLocal_instructions _ n eq_refl)).
    rewrite initLocal_SP; subst n; lia.
Qed.

Lemma comparison_assemble (op : string) (n base : Z) (sigma : string -> Z) :
  op = "eq" \/ op = "lt" \/ op = "gt" ->
  assemble base sigma (translateComparisonCommand op n)
  = Some (comparisonCode base (jumpOf op)).
Proof.
  intros Hop. rewrite translateComparisonCommand_lines.
  unfold assemble.
  rewrite splitLines_comparison
    by (auto using hasNL_trueLabel, hasNL_endLabel;
        destruct Hop as [-> | [-> | ->]]; reflexivity).
  unfold comparisonLines. cbn [parseLines].
  rewrite !parseLine_at, !parseLine_label.
  assert (HJ : parseLine ("D;" ++ jumpInstruction op)
               = Some (CInstr (mkDest false false false) C_D (jumpOf op)))
    by (destruct Hop as [-> | [-> | ->]]; reflexivity).
  rewrite HJ.
  change (parseLine "@SP") with (Some (AInstr "SP")).
  change (parseLine "AM=M-1") with (Some (CInstr (mkDest true false true) C_Mm1 J_none)).
  change (parseLine "D=M") with (Some (CInstr (mkDest false true false) C_M J_none)).
  change (parseLine "A=A-1") with (Some (CInstr (mkDest true false false) C_Am1 J_none)).
  change (parseLine "D=M-D") with (Some (CInstr (mkDest false true false) C_MmD J_none)).
  change (parseLine "A=M-1") with (Some (CInstr (mkDest true false false) C_Mm1 J_none)).
  change (parseLine "M=0") with (Some (CInstr (mkDest false false true) C_0 J_none)).
  change (parseLine "0;JMP") with (Some (CInstr (mkDest false false false) C_0 JMP)).
  change (parseLine "M=-1") with (Some (CInstr (mkDest false false true) C_m1 J_none)).
  cbv beta iota. cbn [instructions labelTable].
  assert (HT : resolve base [(trueLabel op n, 12%nat); (endLabel op n, 15%nat)] sigma
                       (trueLabel op n) = base + 12).
  { destruct Hop as [-> | [-> | ->]]; unfold resolve, trueLabel, endLabel; cbn;
      rewrite String.eqb_refl; reflexivity. }
  assert (HE : resolve base [(trueLabel op n, 12%nat); (endLabel op n, 15%nat)] sigma
                       (endLabel op n) = base + 15).
  { destruct Hop as [-> | [-> | ->]]; unfold resolve, trueLabel, endLabel; cbn;
      rewrite String.eqb_refl; reflexivity. }
  rewrite HT, HE. fix_resolve. reflexivity.
Qed.

Lemma jump_in_block (base k len : Z) :
  0 <= k <= len ->
  ((base <=? base + k) && (base + k <=? base + len))%Z = true.
Proof. intros H. apply andb_true_intro. split; apply Z.leb_le; lia. Qed.

Lemma comparison_exec (base : Z) (j : Jump) (st : Machine) :
  stackFits st (-1) ->
  match exec 16 base (comparisonCode base j) 0 st with
  | Done st' => SP st' = SP st + -1
  | _ => False
  end.
Proof.
  intros [H1 H2]. unfold comparisonCode, SP in *.
  cbn [exec nth_error jumpTarget jumps List.length step regA regD ram dA dD dM].
  match goal with
  | |- context [jumps j ?v] => destruct (jumps j v)
  end.
  - rewrite (jump_in_block base 12 (Z.of_nat 15)) by (cbn; lia).
    rewrite Z.add_simpl_l. change (Z.to_nat 12) with 12%nat.
    cbn [exec nth_error jumpTarget jumps List.length step regA regD ram dA dD dM].
    unfold evalComp; cbv beta iota. norm_machine. lia.
  - cbn [exec nth_error jumpTarget jumps List.length step regA regD ram dA dD dM].
    rewrite (jump_in_block base 15 (Z.of_nat 15)) by (cbn; lia).
    rewrite Z.add_simpl_l. change (Z.to_nat 15) with 15%nat.
    cbn [exec nth_error jumpTarget jumps List.length step regA regD ram dA dD dM].
    unfold evalComp; cbv beta iota. norm_machine. lia.
Qed.

Lemma comparison_effect (op : string) (n base : Z) (sigma : string -> Z)
    (st : Machine) :
  isCompare op = true ->
  stackFits st (-1) ->
  blockEffect base sigma (translateComparisonCommand op n) st
              (fun st' => SP st' = SP st + -1).
Proof.
  intros Hop Hfit. unfold blockEffect, runBlock.
  rewrite comparison_assemble.
  - apply (comparison_exec base (jumpOf op) st Hfit).
  - unfold isCompare in Hop. revert Hop. case_str op; auto; discriminate.
Qed.

(** ** The tokens of a command hold no line feed *)

Lemma asciiSpace_newline (c : ascii) :
  asciiSpace c = false -> Ascii.eqb c "010" = false.
Proof.
  intros H. destruct (Ascii.eqb_spec c "010") as [-> | ?]; [discriminate H | reflexivity].
Qed.

Lemma spaceWidth_newline (c : ascii) (r : string) :
  spaceWidth (String c r) = 0%nat -> Ascii.eqb c "010" = false.
Proof.
  intros H. apply asciiSpace_newline. cbn [spaceWidth] in H.
  destruct (asciiSpace c); [discriminate | reflexivity].
Qed.

Lemma fieldsFrom_noNL (s : string) :
  forall skip cur t,
    hasNL cur = false -> In t (fieldsFrom skip cur s) -> hasNL t = false.
Proof.
  induction s as [|c r IH]; intros skip cur t Hcur Hin.
  - cbn in Hin. destruct cur; cbn in Hin; [contradiction|].
    destruct Hin as [<- | []]. exact Hcur.
  - cbn [fieldsFrom] in Hin. destruct skip as [|k]; [|now apply (IH k cur)].
    destruct (spaceWidth (String c r)) as [|w] eqn:Hw.
    + apply (IH 0%nat (cur ++ String c "")); [|assumption].
      rewrite hasNL_app, Hcur. cbn. now rewrite (spaceWidth_newline c r Hw).
    + apply in_app_or in Hin as [Hin | Hin].
      * destruct cur; cbn in Hin; [contradiction|].
        destruct Hin as [<- | []]. exact Hcur.
      * now apply (IH w "").
Qed.

Lemma parts_noNL (cmd t : string) : In t (parts cmd) -> hasNL t = false.
Proof. unfold parts, Fields. now apply fieldsFrom_noNL. Qed.

Lemma blockEffect_mono (base : Z) (sigma : string -> Z) (text : string)
    (st : Machine) (P Q : Machine -> Prop) :
  (forall st', P st' -> Q st') ->
  blockEffect base sigma text st P -> blockEffect base sigma text st Q.
Proof.
  unfold blockEffect. intros HPQ.
  destruct (runBlock base sigma text st) as [[st' | t st' |]|]; auto.
Qed.

(** C5, amended: the block of a command whose effect the specification
    documents, run on the Hack machine with the stack pointer in the stack
    area, ends at its end with the stack pointer moved by -1 for a binary
    operation or a comparison, 0 for [neg] and [not], +1 for [push], -1 for
    [pop] unless the address it stores to is that of the stack pointer
    itself, and [max k 0] for [function f k]. *)
Theorem stack_effect (cmd asm : string) (ctx ctx' : Context) (delta base : Z)
    (sigma : string -> Z) (st : Machine) :
  vmCommandToAsm cmd ctx = (Ok asm, ctx') ->
  stackDelta (parts cmd) = Some delta ->
  hasNL (fileName ctx) = false ->
  stackFits st delta ->
  exists st',
    runBlock base sigma asm st = Some (Done st') /\
    ((isPop (parts cmd) = true -> addr (regA st') <> 0) ->
     SP st' = SP st + delta).
Proof.
  intros Hasm Hd Hu Hfit. apply blockEffect_ex.
  unfold vmCommandToAsm in Hasm.
  change (Fields (TrimSpace (beforeComment cmd))) with (parts cmd) in Hasm.
  assert (Hnl : forall t, In t (parts cmd) -> hasNL t = false)
    by (intros t; apply parts_noNL).
  destruct (parts cmd) as [|op operands]; [discriminate|].
  apply (f_equal fst) in Hasm.
  unfold stackDelta, documentedDelta, isBinary, isUnary, isCompare in Hd.
  unfold isPop. revert Hasm Hd Hfit.
  case_str op; cbn [fst option_map]; intros Hasm Hd Hfit;
    try discriminate Hd;
    try (apply Ok_inj in Hasm; apply (f_equal (fun o => match o with Some z => z | None => 0 end)) in Hd;
         cbv beta iota in Hd; subst asm delta).
  all: try (eapply blockEffect_mono;
            [| first [ apply binary_effect; [reflexivity | exact Hfit]
                     | apply unary_effect; [reflexivity | exact Hfit]
                     | apply comparison_effect; [reflexivity | exact Hfit] ] ];
            cbv beta; intros st' HP _; exact HP).
  - (* push *)
    destruct operands as [|segment [|index [|x r]]]; try discriminate Hasm.
    cbn [fst] in Hasm. injection Hd as <-.
    eapply blockEffect_mono;
      [| apply (push_effect segment index (fileName ctx) asm); auto;
         apply Hnl; cbn; auto ].
    cbv beta. intros st' HP _. exact HP.
  - (* pop *)
    destruct operands as [|segment [|index [|x r]]]; try discriminate Hasm.
    cbn [fst] in Hasm. injection Hd as <-.
    eapply blockEffect_mono;
      [| apply (pop_effect segment index (fileName ctx) asm); auto;
         apply Hnl; cbn; auto ].
    cbv beta. intros st' HP Hne. apply HP, Hne. reflexivity.
  - (* function *)
    destruct operands as [|name [|count [|x r]]]; try discriminate Hasm.
    destruct (Atoi count) as [k|]; [|discriminate Hasm].
    cbn [fst option_map] in Hasm, Hd. injection Hd as <-.
    eapply blockEffect_mono;
      [| apply (function_effect name k asm); auto; apply Hnl; cbn; auto ].
    cbv beta. intros st' HP _. exact HP.
Qed.

Lemma stack_effect_witness :
  exists st',
    runBlock 0 (fun _ => 16)
             (txt ["@SP"; "AM=M-1"; "D=M"; "@THAT"; "M=D"]) freshMachine
    = Some (Done st') /\
    ((isPop (parts "pop pointer 1") = true -> addr (regA st') <> 0) ->
     SP st' = SP freshMachine + -1).
Proof.
  apply (stack_effect "pop pointer 1" _ initialContext initialContext (-1) 0
                      (fun _ => 16) freshMachine).
  - reflexivity.
  - reflexivity.
  - reflexivity.
  - unfold stackFits, SP. cbn. lia.
Defined.

(** [function Foo -1] is translated, the documented effect of
    [function f k] is [k = -1], and the block leaves the stack pointer
    where it was. *)
Lemma function_negative_count_effect :
  vmCommandToAsm "function Foo -1" initialContext
  = (Ok (txt ["(Foo)"]), initialContext) /\
  documentedDelta (parts "function Foo -1") = Some (-1) /\
  exists st',
    runBlock 0 (fun _ => 16) (txt ["(Foo)"]) freshMachine = Some (Done st') /\
    SP st' = SP freshMachine /\ SP st' <> SP freshMachine + -1.
Proof.
  split; [reflexivity|]. split; [reflexivity|].
  eexists. split; [reflexivity|]. split; [reflexivity|]. discriminate.
Qed.

(** ** Decimal numerals read back *)

Lemma digits_val_acc (d : Decimal.uint) :
  forall acc : positive,
    digits_val (Zpos acc) (NilEmpty.string_of_uint d)
    = Some (Zpos (Pos.of_uint_acc d acc)).
Proof.
  induction d; intros acc; cbn [NilEmpty.string_of_uint Pos.of_uint_acc];
    [reflexivity | ..];
    cbn [digits_val]; change (is_digit _) with true; cbv iota;
    rewrite <- IHd; f_equal;
    rewrite ?Pos2Z.inj_add, ?Pos2Z.inj_mul;
    match goal with
    | |- context [Z.of_N (byte ?c) - 48] =>
        let v := eval vm_compute in (Z.of_N (byte c) - 48) in
        change (Z.of_N (byte c) - 48) with v
    end; lia.
Qed.

Lemma digits_val_uint (d : Decimal.uint) :
  digits_val 0 (NilEmpty.string_of_uint d) = Some (Z.of_N (Pos.of_uint d)).
Proof.
  induction d; cbn [NilEmpty.string_of_uint Pos.of_uint];
    [reflexivity | ..];
    cbn [digits_val]; change (is_digit _) with true; cbv iota;
    [exact IHd | ..]; cbn [Z.of_N]; rewrite <- digits_val_acc; reflexivity.
Qed.

Lemma numeral_fmt_d (n : Z) : 0 <= n -> numeral (fmt_d n) = Some n.
Proof.
  intros Hn. unfold fmt_d. destruct n as [|p|p]; [reflexivity | | lia].
  cbn [Z.to_int NilZero.string_of_int]. unfold NilZero.string_of_uint.
  pose proof (DecimalPos.Unsigned.of_to p) as Hp.
  pose proof (digits_val_uint (Pos.to_uint p)) as Hd.
  rewrite Hp in Hd. cbn [Z.of_N] in Hd.
  unfold numeral.
  destruct (Pos.to_uint p); exact Hd.
Qed.

(** ** Symbols of the call block *)

Lemma resolve_numeral (base : Z) (labels : list (string * nat))
    (sigma : string -> Z) (x : string) (v : Z) :
  numeral x = Some v -> resolve base labels sigma x = v.
Proof. unfold resolve. now intros ->. Qed.

Lemma digits_val_dollar (name r : string) :
  forall acc, digits_val acc (name ++ String "$" r) = None.
Proof.
  induction name as [|c name IH]; intros acc; cbn [append digits_val].
  - reflexivity.
  - destruct (is_digit c); [apply IH | reflexivity].
Qed.

Lemma hasChar_app (c : ascii) (a b : string) :
  hasChar c (a ++ b) = hasChar c a || hasChar c b.
Proof.
  induction a as [|x a IH]; cbn; [reflexivity|]. now rewrite IH, orb_assoc.
Qed.

Lemma lookup_hasChar {V : Type} (c : ascii) (x : string) (table : list (string * V)) :
  forallb (fun kv => negb (hasChar c (fst kv))) table = true ->
  hasChar c x = true ->
  lookup table x = None.
Proof.
  intros Ht Hx. induction table as [|[k v] table IH]; cbn in *; [reflexivity|].
  apply andb_prop in Ht as [Hk Ht].
  destruct (String.eqb_spec k x) as [-> | _].
  - rewrite Hx in Hk. discriminate.
  - now apply IH.
Qed.

(** The return label is a symbol of its own: not a number, not a
    predefined symbol. *)
Lemma resolve_return_label (base : Z) (sigma : string -> Z) (name r : string)
    (i : nat) :
  resolve base [(name ++ String "$" r, i)] sigma (name ++ String "$" r)
  = base + Z.of_nat i.
Proof.
  unfold resolve.
  assert (Hn : numeral (name ++ String "$" r) = None).
  { unfold numeral. destruct (name ++ String "$" r) eqn:E; [reflexivity|].
    rewrite <- E. apply digits_val_dollar. }
  rewrite Hn.
  rewrite (lookup_hasChar "$" _ predefined).
  - cbn [lookup]. now rewrite String.eqb_refl.
  - reflexivity.
  - rewrite hasChar_app. cbn. apply orb_true_r.
Qed.

Lemma parseLines_app (a b : list string) :
  parseLines (a ++ b)
  = match parseLines a, parseLines b with
    | Some x, Some y => Some (x ++ y)%list
    | _, _ => None
    end.
Proof.
  induction a as [|l a IH]; cbn [app parseLines].
  - now destruct (parseLines b).
  - rewrite IH. destruct (parseLine l), (parseLines a), (parseLines b); reflexivity.
Qed.

Lemma call_assemble (name : string) (n c base : Z) (sigma : string -> Z) :
  hasNL name = false -> 0 <= n ->
  assemble base sigma (txt (callLines name n c))
  = Some (callCode (base + 49) n
            (resolve base [(name ++ "$ret." ++ fmt_d c, 49%nat)] sigma name)).
Proof.
  intros Hname Hn.
  pose proof (resolve_return_label base sigma name ("ret." ++ fmt_d c) 49) as HR.
  change (name ++ String "$" ("ret." ++ fmt_d c))
    with (name ++ "$ret." ++ fmt_d c) in HR.
  assert (HRnl : hasNL (name ++ "$ret." ++ fmt_d c) = false)
    by (rewrite !hasNL_app, Hname, hasNL_fmt_d; reflexivity).
  pose proof (numeral_fmt_d n Hn) as HN.
  pose proof (hasNL_fmt_d n) as HNnl.
  unfold callLines, pushAddressLines, pushRegisterLines, setArgLines,
    setLclLines, jumpLines. cbv zeta.
  revert HR HRnl HN HNnl.
  generalize (name ++ "$ret." ++ fmt_d c) (fmt_d n). intros R N HR HRnl HN HNnl.
  unfold assemble.
  rewrite splitLines_txt by no_newlines.
  rewrite !app_assoc, parseLines_app. cbn [parseLines].
  rewrite parseLine_label.
  match goal with
  | |- context [parseLines ?b] =>
      let P := eval cbv in (parseLines b) in change (parseLines b) with P
  end.
  cbv beta iota.
  match goal with
  | |- context [labelTable ?L 0] =>
      let T := eval cbv in (labelTable L 0) in change (labelTable L 0) with T
  end.
  cbn [app instructions]. fix_resolve.
  rewrite HR, (resolve_numeral _ _ _ N n HN). reflexivity.
Qed.

(** ** Running the call block *)

Lemma exec_straight_prefix (base : Z) (seg : list Instr) :
  forallb jumpFree seg = true ->
  forall pre post st fuel,
    exec (List.length seg + fuel) base (pre ++ seg ++ post) (List.length pre) st
    = exec fuel base (pre ++ seg ++ post) (List.length pre + List.length seg)
           (runStraight seg st).
Proof.
  induction seg as [|i seg IH]; intros Hjf pre post st fuel.
  - cbn. now rewrite Nat.add_0_r.
  - cbn [forallb] in Hjf. apply andb_prop in Hjf as [Hi Hseg].
    cbn [List.length Nat.add exec].
    rewrite nth_error_app2, Nat.sub_diag by lia. cbn [app nth_error].
    assert (Hj : jumpTarget i st = None).
    { destruct i as [v | d c j]; [reflexivity|]. now destruct j. }
    rewrite Hj.
    specialize (IH Hseg (pre ++ [i])%list post (step i st) fuel).
    rewrite <- !app_assoc in IH. cbn [app] in IH.
    rewrite length_app in IH. cbn [List.length] in IH.
    replace (List.length pre + 1)%nat with (S (List.length pre)) in IH by lia.
    rewrite IH. f_equal. lia.
Qed.

Lemma wrap16_idem (z : Z) : wrap16 (wrap16 z) = wrap16 z.
Proof.
  apply wrap16_small. unfold wrap16.
  pose proof (Z.mod_pos_bound (z + 32768) 65536 ltac:(lia)). lia.
Qed.

Lemma pushA_spec (v : Z) (st : Machine) :
  256 <= SP st <= 32766 ->
  let st' := runStraight (pushACode v) st in
  SP st' = SP st + 1 /\ ram st' (SP st) = wrap16 v /\
  forall x, x <> 0 -> x <> SP st -> ram st' x = ram st x.
Proof.
  intros H. unfold pushACode, pushDCode. cbn [app]. run_straight.
  rewrite wrap16_idem. repeat split; intros; norm_machine; lia.
Qed.

Lemma pushM_spec (r : Z) (st : Machine) :
  256 <= SP st <= 32766 -> 0 <= r < 32768 ->
  let st' := runStraight (pushMCode r) st in
  SP st' = SP st + 1 /\ ram st' (SP st) = wrap16 (ram st r) /\
  forall x, x <> 0 -> x <> SP st -> ram st' x = ram st x.
Proof.
  intros H Hr. unfold pushMCode, pushDCode. cbn [app]. run_straight.
  rewrite wrap16_idem. repeat split; intros; norm_machine; lia.
Qed.

Lemma setArg_spec (n : Z) (st : Machine) :
  256 <= SP st <= 32767 -> 0 <= n <= 32767 ->
  let st' := runStraight (setArgCode n) st in
  ram st' 2 = SP st - n - 5 /\ forall x, x <> 2 -> ram st' x = ram st x.
Proof.
  intros H Hn. unfold setArgCode. run_straight.
  split; intros; norm_machine; lia.
Qed.

Lemma setLcl_spec (st : Machine) :
  256 <= SP st <= 32767 ->
  let st' := runStraight setLclCode st in
  ram st' 1 = SP st /\ forall x, x <> 1 -> ram st' x = ram st x.
Proof.
  intros H. unfold setLclCode. run_straight.
  split; intros; norm_machine; lia.
Qed.

Lemma exec_jump_out (fuel : nat) (base : Z) (rom : list Instr) (pc : nat)
    (d : Dest) (c : Comp) (st : Machine) :
  nth_error rom pc = Some (IC d c JMP) ->
  ~ (base <= regA st <= base + Z.of_nat (List.length rom)) ->
  exec (S fuel) base rom pc st = Exit (regA st) (step (IC d c JMP) st).
Proof.
  intros Hi Hout. cbn [exec]. rewrite Hi. cbn [jumpTarget jumps].
  destruct ((base <=? regA st) && (regA st <=? base + Z.of_nat (List.length rom)))%Z
    eqn:Hin; [|reflexivity].
  apply andb_prop in Hin as [Ha Hb]. apply Z.leb_le in Ha, Hb.
  exfalso. apply Hout. lia.
Qed.

Lemma call_exec_prefix (base ret n target : Z) (st : Machine) :
    exec 50 base (callCode ret n target) 0 st
    = exec 2 base (callCode ret n target) 48
           (runStraight (callSetupCode ret n target) st).
Proof.
  unfold callCode.
  pose proof (exec_straight_prefix base (callSetupCode ret n target)
                  eq_refl [] [IC (mkDest false false false) C_0 JMP] st 2) as E.
  cbn [app List.length Nat.add] in E.
  change (List.length (callSetupCode ret n target)) with 48%nat in E.
  cbn [Nat.add] in E. exact E.
Qed.
Lemma call_exec_jump (base ret n target dreg : Z) (mem : Z -> Z) :
  ~ (base <= target <= base + 49) ->
  exec 2 base (callCode ret n target) 48 (mkMachine target dreg mem)
  = Exit target (mkMachine target dreg mem).
Proof.
  intros Hout. unfold callCode.
    rewrite (exec_jump_out 1 base
               (callSetupCode ret n target
                ++ [IC (mkDest false false false) C_0 JMP])%list
               48 (mkDest false false false) C_0
               (mkMachine target dreg mem) eq_refl).
    + reflexivity.
    + cbn [regA]. change (Z.of_nat _) with 49. exact Hout.
Qed.
Lemma call_frame_facts (ret n : Z) (st st1 st2 st3 st4 st5 st6 st7 st8 : Machine) :
  256 <= SP st -> SP st + 5 <= 32767 ->
  (SP st1 = SP st + 1 /\ ram st1 (SP st) = wrap16 ret /\
   forall x, x <> 0 -> x <> SP st -> ram st1 x = ram st x) ->
  (SP st2 = SP st1 + 1 /\ ram st2 (SP st1) = wrap16 (ram st1 1) /\
   forall x, x <> 0 -> x <> SP st1 -> ram st2 x = ram st1 x) ->
  (SP st3 = SP st2 + 1 /\ ram st3 (SP st2) = wrap16 (ram st2 2) /\
   forall x, x <> 0 -> x <> SP st2 -> ram st3 x = ram st2 x) ->
  (SP st4 = SP st3 + 1 /\ ram st4 (SP st3) = wrap16 (ram st3 3) /\
   forall x, x <> 0 -> x <> SP st3 -> ram st4 x = ram st3 x) ->
  (SP st5 = SP st4 + 1 /\ ram st5 (SP st4) = wrap16 (ram st4 4) /\
   forall x, x <> 0 -> x <> SP st4 -> ram st5 x = ram st4 x) ->
  (ram st6 2 = SP st5 - n - 5 /\ forall x, x <> 2 -> ram st6 x = ram st5 x) ->
  (ram st7 1 = SP st6 /\ forall x, x <> 1 -> ram st7 x = ram st6 x) ->
  ram st8 = ram st7 ->
  ram st8 (SP st) = wrap16 ret /\
  ram st8 (SP st + 1) = wrap16 (ram st 1) /\
  ram st8 (SP st + 2) = wrap16 (ram st 2) /\
  ram st8 (SP st + 3) = wrap16 (ram st 3) /\
  ram st8 (SP st + 4) = wrap16 (ram st 4) /\
  SP st8 = SP st + 5 /\
  ram st8 2 = SP st8 - n - 5 /\
  ram st8 1 = SP st8.
Proof.
  unfold SP.
  intros Hlo Hhi (S1 & V1 & F1) (S2 & V2 & F2) (S3 & V3 & F3) (S4 & V4 & F4)
         (S5 & V5 & F5) (V6 & F6) (V7 & F7) ->.
  assert (S6 : ram st6 0 = ram st5 0) by (apply F6; lia).
  assert (S7 : ram st7 0 = ram st6 0) by (apply F7; lia).
  assert (H1 : ram st1 1 = ram st 1) by (apply F1; lia).
  assert (H2 : ram st2 2 = ram st 2) by (rewrite F2, F1 by lia; reflexivity).
  assert (H3 : ram st3 3 = ram st 3) by (rewrite F3, F2, F1 by lia; reflexivity).
  assert (H4 : ram st4 4 = ram st 4)
    by (rewrite F4, F3, F2, F1 by lia; reflexivity).
  split; [|split; [|split; [|split; [|split; [|split; [|split]]]]]].
  - rewrite F7, F6, F5, F4, F3, F2 by lia. exact V1.
  - rewrite F7, F6, F5, F4, F3 by lia.
    replace (ram st 0 + 1) with (ram st1 0) by lia. now rewrite V2, H1.
  - rewrite F7, F6, F5, F4 by lia.
    replace (ram st 0 + 2) with (ram st2 0) by lia. now rewrite V3, H2.
  - rewrite F7, F6, F5 by lia.
    replace (ram st 0 + 3) with (ram st3 0) by lia. now rewrite V4, H3.
  - rewrite F7, F6 by lia.
    replace (ram st 0 + 4) with (ram st4 0) by lia. now rewrite V5, H4.
  - lia.
  - rewrite (F7 2), S7, S6 by lia. exact V6.
  - rewrite V7. symmetry. exact S7.
Qed.

Lemma call_exec_states (base ret n target : Z)
    (st st1 st2 st3 st4 st5 st6 st7 : Machine) :
  st1 = runStraight (pushACode ret) st ->
  st2 = runStraight (pushMCode 1) st1 ->
  st3 = runStraight (pushMCode 2) st2 ->
  st4 = runStraight (pushMCode 3) st3 ->
  st5 = runStraight (pushMCode 4) st4 ->
  st6 = runStraight (setArgCode n) st5 ->
  st7 = runStraight setLclCode st6 ->
  0 <= n <= 32767 ->
  256 <= SP st -> SP st + 5 <= 32767 ->
  ~ (base <= target <= base + 49) ->
  exists st',
    exec 50 base (callCode ret n target) 0 st = Exit target st' /\
    ram st' (SP st) = wrap16 ret /\
    ram st' (SP st + 1) = wrap16 (ram st 1) /\
    ram st' (SP st + 2) = wrap16 (ram st 2) /\
    ram st' (SP st + 3) = wrap16 (ram st 3) /\
    ram st' (SP st + 4) = wrap16 (ram st 4) /\
    SP st' = SP st + 5 /\
    ram st' 2 = SP st' - n - 5 /\
    ram st' 1 = SP st'.
Proof.
  intros E1 E2 E3 E4 E5 E6 E7 Hn Hlo Hhi Hout.
  assert (Hrun : runStraight (callSetupCode ret n target) st
                 = mkMachine target (regD st7) (ram st7)).
  { unfold callSetupCode. rewrite !runStraight_app.
    rewrite <- E1, <- E2, <- E3, <- E4, <- E5, <- E6, <- E7. reflexivity. }
  pose proof (pushA_spec ret st ltac:(lia)) as P1.
  cbv zeta in P1. rewrite <- E1 in P1.
  pose proof (pushM_spec 1 st1 ltac:(lia) ltac:(lia)) as P2.
  cbv zeta in P2. rewrite <- E2 in P2.
  pose proof (pushM_spec 2 st2 ltac:(lia) ltac:(lia)) as P3.
  cbv zeta in P3. rewrite <- E3 in P3.
  pose proof (pushM_spec 3 st3 ltac:(lia) ltac:(lia)) as P4.
  cbv zeta in P4. rewrite <- E4 in P4.
  pose proof (pushM_spec 4 st4 ltac:(lia) ltac:(lia)) as P5.
  cbv zeta in P5. rewrite <- E5 in P5.
  pose proof (setArg_spec n st5 ltac:(lia) Hn) as P6.
  cbv zeta in P6. rewrite <- E6 in P6.
  assert (S6 : SP st6 = SP st5) by (apply P6; lia).
  pose proof (setLcl_spec st6 ltac:(lia)) as P7.
  cbv zeta in P7. rewrite <- E7 in P7.
  clear E1 E2 E3 E4 E5 E6 E7.
  exists (mkMachine target (regD st7) (ram st7)).
  split.
  - rewrite call_exec_prefix, Hrun. apply call_exec_jump. exact Hout.
  - exact (call_frame_facts ret n st st1 st2 st3 st4 st5 st6 st7
             (mkMachine target (regD st7) (ram st7))
             Hlo Hhi P1 P2 P3 P4 P5 P6 P7 eq_refl).
Qed.

(** The call block on the machine: it leaves by its jump, to [target], with
    the return address and the caller's [LCL], [ARG], [THIS], [THAT] saved
    on the stack in this order, [ARG] set to [SP - n - 5] and [LCL] to [SP]
    for the [SP] after the five pushes. *)
Lemma call_exec (base ret n target : Z) (st : Machine) :
  0 <= n <= 32767 ->
  256 <= SP st -> SP st + 5 <= 32767 ->
  ~ (base <= target <= base + 49) ->
  exists st',
    exec 50 base (callCode ret n target) 0 st = Exit target st' /\
    ram st' (SP st) = wrap16 ret /\
    ram st' (SP st + 1) = wrap16 (ram st 1) /\
    ram st' (SP st + 2) = wrap16 (ram st 2) /\
    ram st' (SP st + 3) = wrap16 (ram st 3) /\
    ram st' (SP st + 4) = wrap16 (ram st 4) /\
    SP st' = SP st + 5 /\
    ram st' 2 = SP st' - n - 5 /\
    ram st' 1 = SP st'.
Proof.
  exact (call_exec_states base ret n target st _ _ _ _ _ _ _
           eq_refl eq_refl eq_refl eq_refl eq_refl eq_refl eq_refl).
Qed.

(** C3: [call name n] emits, in this order, the push of the return label
    [name$ret.c], the pushes of [LCL], [ARG], [THIS] and [THAT], the
    assignment [ARG = SP - n - 5], the assignment [LCL = SP], the jump to
    [name] and the declaration of the return label; [c] is the call
    counter, which the command moves by one.  Run on the machine, for a
    count the assembler takes as a number and a callee outside the block,
    the text does what its parts are named for: it leaves by the jump to
    the callee with the return address (the address after the block, which
    the return label names) and the four registers saved on the stack in
    this order, [ARG] at [SP - n - 5] and [LCL] at [SP]. *)
Theorem call_sequence (cmd name count : string) (n : Z) (ctx : Context) :
  parts cmd = ["call"; name; count] ->
  Atoi count = Some n ->
  let ret := name ++ "$ret." ++ fmt_d (callCounter ctx) in
  let asm :=
    txt ["@" ++ ret; "D=A"; "@SP"; "A=M"; "M=D"; "@SP"; "M=M+1";
         "@LCL"; "D=M"; "@SP"; "A=M"; "M=D"; "@SP"; "M=M+1";
         "@ARG"; "D=M"; "@SP"; "A=M"; "M=D"; "@SP"; "M=M+1";
         "@THIS"; "D=M"; "@SP"; "A=M"; "M=D"; "@SP"; "M=M+1";
         "@THAT"; "D=M"; "@SP"; "A=M"; "M=D"; "@SP"; "M=M+1";
         "@SP"; "D=M"; "@" ++ fmt_d n; "D=D-A"; "@5"; "D=D-A"; "@ARG"; "M=D";
         "@SP"; "D=M"; "@LCL"; "M=D";
         "@" ++ name; "0;JMP";
         "(" ++ ret ++ ")"] in
  vmCommandToAsm cmd ctx
  = (Ok asm,
     mkContext (fileName ctx) (compLabelCounter ctx)
               (int_wrap (callCounter ctx + 1)) (currentFunctionName ctx)) /\
  forall (base : Z) (sigma : string -> Z) (st : Machine),
    let callee := resolve base [(ret, 49%nat)] sigma name in
    0 <= n <= 32767 ->
    256 <= SP st -> SP st + 5 <= 32767 ->
    ~ (base <= callee <= base + 49) ->
    exists st',
      runBlock base sigma asm st = Some (Exit callee st') /\
      ram st' (SP st) = wrap16 (base + 49) /\
      ram st' (SP st + 1) = wrap16 (ram st 1) /\
      ram st' (SP st + 2) = wrap16 (ram st 2) /\
      ram st' (SP st + 3) = wrap16 (ram st 3) /\
      ram st' (SP st + 4) = wrap16 (ram st 4) /\
      SP st' = SP st + 5 /\
      ram st' 2 = SP st' - n - 5 /\
      ram st' 1 = SP st'.
Proof.
  intros Hp Hn ret asm. split.
  - unfold vmCommandToAsm.
    change (Fields (TrimSpace (beforeComment cmd))) with (parts cmd).
    rewrite Hp. cbn -[translateCallCommand]. rewrite Hn.
    apply translateCallCommand_lines.
  - intros base sigma st callee Hrange Hlo Hhi Hout.
    assert (Hname : hasNL name = false)
      by (apply (parts_noNL cmd); rewrite Hp; cbn; auto).
    destruct (call_exec base (base + 49) n callee st Hrange Hlo Hhi Hout)
      as (st' & Hexec & Hfacts).
    exists st'. split; [|exact Hfacts].
    unfold runBlock.
    change asm with (txt (callLines name n (callCounter ctx))).
    rewrite call_assemble by (assumption || lia).
    fold ret. fold callee. f_equal. exact Hexec.
Qed.

Lemma call_sequence_witness :
  exists st',
    runBlock 0 (fun _ => 1000)
             (fst (let r := vmCommandToAsm "call Foo 3" initialContext in
                   (match fst r with Ok a => a | Err _ => "" end, snd r)))
             freshMachine
    = Some (Exit 1000 st') /\
    SP st' = 261 /\ ram st' 2 = 253 /\ ram st' 1 = 261.
Proof.
  destruct (proj2 (call_sequence "call Foo 3" "Foo" "3" 3 initialContext
                     eq_refl eq_refl)
                  0 (fun _ => 1000) freshMachine)
    as (st' & Hrun & _ & _ & _ & _ & _ & Hsp & Harg & Hlcl).
  - lia.
  - unfold SP. cbn. lia.
  - unfold SP. cbn. lia.
  - cbv. intros [_ H]. apply H. reflexivity.
  - exists st'. split; [exact Hrun|].
    change (SP freshMachine) with 256 in Hsp.
    rewrite Hsp in Harg, Hlcl. cbn in Hsp, Harg, Hlcl. auto.
Defined.

(** ** Running the return block *)

Lemma return_assemble (base : Z) (sigma : string -> Z) :
  assemble base sigma translateReturnCommand = Some returnCode.
Proof. reflexivity. Qed.

Lemma saveRet_spec (st : Machine) :
  261 <= ram st 1 <= 32767 ->
  let st' := runStraight saveRetCode st in
  ram st' 13 = wrap16 (ram st (ram st 1 - 5)) /\
  forall x, x <> 13 -> ram st' x = ram st x.
Proof.
  intros H. unfold saveRetCode. run_straight. rewrite wrap16_idem.
  split; intros; norm_machine; reflexivity.
Qed.

Lemma storeResult_spec (st : Machine) :
  257 <= ram st 0 <= 32767 -> 16 <= ram st 2 <= 32766 ->
  let st' := runStraight storeResultCode st in
  ram st' 0 = ram st 2 + 1 /\
  ram st' (ram st 2) = wrap16 (ram st (ram st 0 - 1)) /\
  forall x, x <> 0 -> x <> ram st 2 -> ram st' x = ram st x.
Proof.
  intros H0 H2. unfold storeResultCode. run_straight. rewrite wrap16_idem.
  split; [|split]; intros; norm_machine; reflexivity.
Qed.

Lemma restore_spec (r : Z) (st : Machine) :
  17 <= ram st 1 <= 32767 -> 2 <= r <= 4 ->
  let st' := runStraight (restoreCode r) st in
  ram st' 1 = ram st 1 - 1 /\
  ram st' r = wrap16 (ram st (ram st 1 - 1)) /\
  forall x, x <> 1 -> x <> r -> ram st' x = ram st x.
Proof.
  intros H1 Hr. unfold restoreCode. run_straight. rewrite wrap16_idem.
  split; [|split]; intros; norm_machine; reflexivity.
Qed.

Lemma restoreLcl_spec (st : Machine) :
  17 <= ram st 1 <= 32767 ->
  let st' := runStraight restoreLclCode st in
  ram st' 1 = wrap16 (ram st (ram st 1 - 1)) /\
  forall x, x <> 1 -> ram st' x = ram st x.
Proof.
  intros H1. unfold restoreLclCode. run_straight. rewrite wrap16_idem.
  split; intros; norm_machine; reflexivity.
Qed.

Lemma return_exec_prefix (base : Z) (st : Machine) :
  exec 40 base returnCode 0 st
  = exec 2 base returnCode 38 (runStraight returnSetupCode st).
Proof.
  exact (exec_straight_prefix base returnSetupCode eq_refl []
           [IC (mkDest false false false) C_0 JMP] st 2).
Qed.

Lemma return_exec_jump (base target dreg : Z) (mem : Z -> Z) :
  ~ (base <= target <= base + 39) ->
  exec 2 base returnCode 38 (mkMachine target dreg mem)
  = Exit target (mkMachine target dreg mem).
Proof.
  intros Hout.
  rewrite (exec_jump_out 1 base returnCode 38 (mkDest false false false) C_0
             (mkMachine target dreg mem) eq_refl).
  - reflexivity.
  - cbn [regA]. change (Z.of_nat _) with 39. exact Hout.
Qed.

Lemma return_frame_facts (st st1 st2 st3 st4 st5 st6 st7 : Machine) :
  261 <= ram st 1 <= 32767 ->
  16 <= ram st 2 <= ram st 1 - 5 ->
  257 <= ram st 0 <= 32767 ->
  (ram st1 13 = wrap16 (ram st (ram st 1 - 5)) /\
   forall x, x <> 13 -> ram st1 x = ram st x) ->
  (ram st2 0 = ram st1 2 + 1 /\
   ram st2 (ram st1 2) = wrap16 (ram st1 (ram st1 0 - 1)) /\
   forall x, x <> 0 -> x <> ram st1 2 -> ram st2 x = ram st1 x) ->
  (ram st3 1 = ram st2 1 - 1 /\
   ram st3 4 = wrap16 (ram st2 (ram st2 1 - 1)) /\
   forall x, x <> 1 -> x <> 4 -> ram st3 x = ram st2 x) ->
  (ram st4 1 = ram st3 1 - 1 /\
   ram st4 3 = wrap16 (ram st3 (ram st3 1 - 1)) /\
   forall x, x <> 1 -> x <> 3 -> ram st4 x = ram st3 x) ->
  (ram st5 1 = ram st4 1 - 1 /\
   ram st5 2 = wrap16 (ram st4 (ram st4 1 - 1)) /\
   forall x, x <> 1 -> x <> 2 -> ram st5 x = ram st4 x) ->
  (ram st6 1 = wrap16 (ram st5 (ram st5 1 - 1)) /\
   forall x, x <> 1 -> ram st6 x = ram st5 x) ->
  ram st7 = ram st6 ->
  ram st7 13 = wrap16 (ram st (ram st 1 - 5)) /\
  ram st7 (ram st 2) = wrap16 (ram st (ram st 0 - 1)) /\
  SP st7 = ram st 2 + 1 /\
  ram st7 4 = wrap16 (ram st (ram st 1 - 1)) /\
  ram st7 3 = wrap16 (ram st (ram st 1 - 2)) /\
  ram st7 2 = wrap16 (ram st (ram st 1 - 3)) /\
  ram st7 1 = wrap16 (ram st (ram st 1 - 4)).
Proof.
  unfold SP.
  intros HL HA HS (V1 & F1) (S2 & V2 & F2) (L3 & V3 & F3) (L4 & V4 & F4)
         (L5 & V5 & F5) (V6 & F6) ->.
  assert (A1 : ram st1 2 = ram st 2) by (apply F1; lia).
  assert (S1 : ram st1 0 = ram st 0) by (apply F1; lia).
  assert (L1 : ram st1 1 = ram st 1) by (apply F1; lia).
  rewrite A1, S1 in *.
  assert (L2 : ram st2 1 = ram st 1) by (rewrite F2, L1 by lia; reflexivity).
  rewrite L2 in *.
  rewrite L3 in *. rewrite L4 in *. rewrite L5 in *.
  split; [|split; [|split; [|split; [|split; [|split]]]]].
  - rewrite F6, F5, F4, F3, F2 by lia. exact V1.
  - rewrite F6, F5, F4, F3 by lia. rewrite V2, F1 by lia. reflexivity.
  - rewrite F6, F5, F4, F3 by lia. exact S2.
  - rewrite F6, F5, F4 by lia. rewrite V3, F2, F1 by lia. reflexivity.
  - rewrite F6, F5 by lia. rewrite V4, F3, F2, F1 by lia.
    f_equal. f_equal. lia.
  - rewrite F6 by lia. rewrite V5, F4, F3, F2, F1 by lia.
    f_equal. f_equal. lia.
  - rewrite V6, F5, F4, F3, F2, F1 by lia. f_equal. f_equal. lia.
Qed.

Lemma return_exec_states (base : Z) (st st1 st2 st3 st4 st5 st6 : Machine) :
  st1 = runStraight saveRetCode st ->
  st2 = runStraight storeResultCode st1 ->
  st3 = runStraight (restoreCode 4) st2 ->
  st4 = runStraight (restoreCode 3) st3 ->
  st5 = runStraight (restoreCode 2) st4 ->
  st6 = runStraight restoreLclCode st5 ->
  261 <= ram st 1 <= 32767 ->
  16 <= ram st 2 <= ram st 1 - 5 ->
  257 <= ram st 0 <= 32767 ->
  ~ (base <= wrap16 (ram st (ram st 1 - 5)) <= base + 39) ->
  exists st',
    exec 40 base returnCode 0 st
    = Exit (wrap16 (ram st (ram st 1 - 5))) st' /\
    ram st' (ram st 2) = wrap16 (ram st (ram st 0 - 1)) /\
    SP st' = ram st 2 + 1 /\
    ram st' 4 = wrap16 (ram st (ram st 1 - 1)) /\
    ram st' 3 = wrap16 (ram st (ram st 1 - 2)) /\
    ram st' 2 = wrap16 (ram st (ram st 1 - 3)) /\
    ram st' 1 = wrap16 (ram st (ram st 1 - 4)).
Proof.
  intros E1 E2 E3 E4 E5 E6 HL HA HS Hout.
  pose proof (saveRet_spec st HL) as P1. cbv zeta in P1. rewrite <- E1 in P1.
  assert (A1 : ram st1 2 = ram st 2) by (apply P1; lia).
  assert (S1 : ram st1 0 = ram st 0) by (apply P1; lia).
  assert (L1 : ram st1 1 = ram st 1) by (apply P1; lia).
  pose proof (storeResult_spec st1 ltac:(lia) ltac:(lia)) as P2.
  cbv zeta in P2. rewrite <- E2 in P2.
  assert (L2 : ram st2 1 = ram st 1)
    by (rewrite (proj2 (proj2 P2)), L1 by lia; reflexivity).
  pose proof (restore_spec 4 st2 ltac:(lia) ltac:(lia)) as P3.
  cbv zeta in P3. rewrite <- E3 in P3.
  pose proof (restore_spec 3 st3 ltac:(lia) ltac:(lia)) as P4.
  cbv zeta in P4. rewrite <- E4 in P4.
  pose proof (restore_spec 2 st4 ltac:(lia) ltac:(lia)) as P5.
  cbv zeta in P5. rewrite <- E5 in P5.
  pose proof (restoreLcl_spec st5 ltac:(lia)) as P6.
  cbv zeta in P6. rewrite <- E6 in P6.
  pose proof (return_frame_facts st st1 st2 st3 st4 st5 st6
                (mkMachine (wrap16 (ram st6 13)) (regD st6) (ram st6))
                HL HA HS P1 P2 P3 P4 P5 P6 eq_refl) as (R13 & Hfacts).
  assert (Hrun : runStraight returnSetupCode st
                 = mkMachine (wrap16 (ram st (ram st 1 - 5))) (regD st6) (ram st6)).
  { unfold returnSetupCode. rewrite !runStraight_app.
    rewrite <- E1, <- E2, <- E3, <- E4, <- E5, <- E6.
    cbn [ram] in R13. rewrite <- wrap16_idem, <- R13. reflexivity. }
  clear E1 E2 E3 E4 E5 E6.
  exists (mkMachine (wrap16 (ram st (ram st 1 - 5))) (regD st6) (ram st6)).
  split.
  - rewrite return_exec_prefix, Hrun. apply return_exec_jump. exact Hout.
  - exact Hfacts.
Qed.

(** The return block on the machine: it leaves by a jump to the address
    saved five words below [LCL], with the word on top of the stack stored
    where [ARG] points, [SP] one above that, and [THAT], [THIS], [ARG] and
    [LCL] read back from the four words below [LCL]. *)
Lemma return_exec (base : Z) (st : Machine) :
  261 <= ram st 1 <= 32767 ->
  16 <= ram st 2 <= ram st 1 - 5 ->
  257 <= ram st 0 <= 32767 ->
  ~ (base <= wrap16 (ram st (ram st 1 - 5)) <= base + 39) ->
  exists st',
    exec 40 base returnCode 0 st
    = Exit (wrap16 (ram st (ram st 1 - 5))) st' /\
    ram st' (ram st 2) = wrap16 (ram st (ram st 0 - 1)) /\
    SP st' = ram st 2 + 1 /\
    ram st' 4 = wrap16 (ram st (ram st 1 - 1)) /\
    ram st' 3 = wrap16 (ram st (ram st 1 - 2)) /\
    ram st' 2 = wrap16 (ram st (ram st 1 - 3)) /\
    ram st' 1 = wrap16 (ram st (ram st 1 - 4)).
Proof.
  exact (return_exec_states base st _ _ _ _ _ _
           eq_refl eq_refl eq_refl eq_refl eq_refl eq_refl).
Qed.

Lemma return_run (base : Z) (sigma : string -> Z) (st : Machine) :
  261 <= ram st 1 <= 32767 ->
  16 <= ram st 2 <= ram st 1 - 5 ->
  257 <= SP st <= 32767 ->
  ~ (base <= wrap16 (ram st (ram st 1 - 5)) <= base + 39) ->
  exists st',
    runBlock base sigma translateReturnCommand st
    = Some (Exit (wrap16 (ram st (ram st 1 - 5))) st') /\
    ram st' (ram st 2) = wrap16 (ram st (SP st - 1)) /\
    SP st' = ram st 2 + 1 /\
    ram st' 4 = wrap16 (ram st (ram st 1 - 1)) /\
    ram st' 3 = wrap16 (ram st (ram st 1 - 2)) /\
    ram st' 2 = wrap16 (ram st (ram st 1 - 3)) /\
    ram st' 1 = wrap16 (ram st (ram st 1 - 4)).
Proof.
  intros HL HA HS Hout. unfold runBlock. rewrite return_assemble.
  destruct (return_exec base st HL HA HS Hout) as (st' & Hexec & Hfacts).
  exists st'. split; [|exact Hfacts].
  f_equal. exact Hexec.
Qed.

(** The block of [return], run with [LCL] and [ARG] pointing at a frame,
    jumps to the address saved at [LCL-5], puts the word on top of the stack
    where [ARG] pointed, sets [SP] just above it, and reloads [THAT], [THIS],
    [ARG], [LCL] from the four words below [LCL]. *)
Theorem return_restores_frame (base : Z) (sigma : string -> Z) (st : Machine) :
  261 <= ram st 1 <= 32767 ->
  16 <= ram st 2 <= ram st 1 - 5 ->
  257 <= SP st <= 32767 ->
  ~ (base <= wrap16 (ram st (ram st 1 - 5)) <= base + 39) ->
  exists st',
    runBlock base sigma translateReturnCommand st
    = Some (Exit (wrap16 (ram st (ram st 1 - 5))) st') /\
    ram st' (ram st 2) = wrap16 (ram st (SP st - 1)) /\
    SP st' = ram st 2 + 1 /\
    ram st' 4 = wrap16 (ram st (ram st 1 - 1)) /\
    ram st' 3 = wrap16 (ram st (ram st 1 - 2)) /\
    ram st' 2 = wrap16 (ram st (ram st 1 - 3)) /\
    ram st' 1 = wrap16 (ram st (ram st 1 - 4)).
Proof. exact (return_run base sigma st). Qed.

(** A call followed by a return: if the code between them leaves the saved
    frame, [LCL] and [ARG] as the call block set them and has a value on top
    of the stack, the return block comes back to the address after the call
    block with the [n] arguments replaced by that value and the caller's four
    registers as they were. *)
Theorem call_return_pairing (name asm : string) (n : Z) (ctx : Context)
    (base : Z) (sigma : string -> Z) (st : Machine) :
  fst (translateCallCommand name n ctx) = Ok asm ->
  hasNL name = false ->
  0 <= n <= 32767 ->
  256 <= SP st - n -> SP st + 5 <= 32767 ->
  let callee :=
    resolve base [(name ++ "$ret." ++ fmt_d (callCounter ctx), 49%nat)] sigma name in
  ~ (base <= callee <= base + 49) ->
  exists st1,
    runBlock base sigma asm st = Some (Exit callee st1) /\
    SP st1 = SP st + 5 /\
    forall (base' : Z) (st2 : Machine),
      ram st2 1 = ram st1 1 -> ram st2 2 = ram st1 2 ->
      (forall j, 0 <= j < 5 -> ram st2 (SP st + j) = ram st1 (SP st + j)) ->
      SP st1 < SP st2 <= 32767 ->
      ~ (base' <= wrap16 (base + 49) <= base' + 39) ->
      exists st3,
        runBlock base' sigma translateReturnCommand st2
        = Some (Exit (wrap16 (base + 49)) st3) /\
        SP st3 = SP st - n + 1 /\
        ram st3 (SP st - n) = wrap16 (ram st2 (SP st2 - 1)) /\
        ram st3 1 = wrap16 (ram st 1) /\
        ram st3 2 = wrap16 (ram st 2) /\
        ram st3 3 = wrap16 (ram st 3) /\
        ram st3 4 = wrap16 (ram st 4).
Proof.
  intros Hasm Hname Hn Hargs Hroom callee Hout.
  rewrite translateCallCommand_lines in Hasm. cbn [fst] in Hasm.
  apply Ok_inj in Hasm. subst asm.
  destruct (call_exec base (base + 49) n callee st Hn ltac:(lia) Hroom Hout)
    as (st1 & Hexec & R0 & R1 & R2 & R3 & R4 & HS1 & HA1 & HL1).
  exists st1. split; [|split; [exact HS1|]].
  - unfold runBlock. rewrite call_assemble by (assumption || lia).
    fold callee. f_equal. exact Hexec.
  - intros base' st2 EL EA Hframe Htop Hout'.
    assert (HL2 : ram st2 1 = SP st + 5) by (rewrite EL, HL1; exact HS1).
    assert (HA2 : ram st2 2 = SP st - n) by (rewrite EA, HA1, HS1; lia).
    assert (Hret : wrap16 (ram st2 (ram st2 1 - 5)) = wrap16 (base + 49)).
    { rewrite HL2. replace (SP st + 5 - 5) with (SP st + 0) by lia.
      rewrite Hframe by lia. rewrite Z.add_0_r, R0. apply wrap16_idem. }
    destruct (return_run base' sigma st2) as (st3 & Hrun & V & S3 & T4 & T3 & T2 & T1).
    + lia.
    + lia.
    + lia.
    + rewrite Hret. exact Hout'.
    + exists st3. rewrite Hret in Hrun. split; [exact Hrun|].
      rewrite HA2 in V, S3. rewrite HL2 in T4, T3, T2, T1.
      replace (SP st + 5 - 1) with (SP st + 4) in T4 by lia.
      replace (SP st + 5 - 2) with (SP st + 3) in T3 by lia.
      replace (SP st + 5 - 3) with (SP st + 2) in T2 by lia.
      replace (SP st + 5 - 4) with (SP st + 1) in T1 by lia.
      rewrite Hframe in T4, T3, T2, T1 by lia.
      rewrite R4 in T4. rewrite R3 in T3. rewrite R2 in T2. rewrite R1 in T1.
      rewrite wrap16_idem in T4, T3, T2, T1.
      repeat split; assumption || lia.
Qed.

Ltac le_compute := cbv; split; discriminate.

Lemma return_restores_frame_witness :
  exists st',
    runBlock 0 (fun _ => 16) translateReturnCommand returnMachine
    = Some (Exit 777 st') /\
    ram st' 290 = 42 /\ SP st' = 291 /\
    ram st' 4 = 14 /\ ram st' 3 = 13 /\ ram st' 2 = 12 /\ ram st' 1 = 11.
Proof.
  refine (return_restores_frame 0 (fun _ => 16) returnMachine _ _ _ _).
  - le_compute.
  - le_compute.
  - le_compute.
  - cbv. intros [_ H]. apply H. reflexivity.
Defined.

Lemma call_return_pairing_witness :
  exists st1 st3,
    runBlock 0 (fun _ => 1000)
             (txt (callLines "Foo" 1 0)) callMachine = Some (Exit 1000 st1) /\
    runBlock 2000 (fun _ => 1000) translateReturnCommand (bumped st1)
    = Some (Exit 49 st3) /\
    SP st3 = 257 /\
    ram st3 1 = 11 /\ ram st3 2 = 12 /\ ram st3 3 = 13 /\ ram st3 4 = 14.
Proof.
  destruct (call_return_pairing "Foo" (txt (callLines "Foo" 1 0)) 1
              initialContext 0 (fun _ => 1000) callMachine)
    as (st1 & Hcall & HS1 & Hret).
  - reflexivity.
  - reflexivity.
  - lia.
  - cbv. discriminate.
  - cbv. discriminate.
  - cbv. intros [_ H]. apply H. reflexivity.
  - change (SP callMachine) with 257 in *.
    destruct (Hret 2000 (bumped st1)) as (st3 & Hrun & S3 & _ & T1 & T2 & T3 & T4).
    + reflexivity.
    + reflexivity.
    + intros j Hj. unfold bumped. cbn [ram]. apply store_other.
      change (SP callMachine) with 257. lia.
    + change (SP callMachine) with 257 in HS1.
      unfold bumped, SP in *. cbn [ram]. rewrite !store_same. lia.
    + cbv. intros [H _]. apply H. reflexivity.
    + exists st1, st3. repeat split; assumption.
Defined.

(** ** The function block: entry label and locals *)

Lemma initLocal_chunk (st : Machine) :
  256 <= SP st <= 32766 ->
  SP (runStraight initLocalCode st) = SP st + 1 /\
  ram (runStraight initLocalCode st) (SP st) = 0 /\
  forall x, x <> 0 -> x <> SP st ->
            ram (runStraight initLocalCode st) x = ram st x.
Proof.
  intros H. unfold initLocalCode. run_straight.
  repeat split; intros; norm_machine; reflexivity.
Qed.

Lemma initLocal_run (n : nat) :
  forall st,
    256 <= SP st <= 32767 -> SP st + Z.of_nat n <= 32767 ->
    (forall j, 0 <= j < Z.of_nat n ->
       ram (runStraight (List.concat (repeat initLocalCode n)) st) (SP st + j) = 0) /\
    (forall x, x <> 0 -> ~ (SP st <= x < SP st + Z.of_nat n) ->
       ram (runStraight (List.concat (repeat initLocalCode n)) st) x = ram st x).
Proof.
  induction n as [|n IH]; intros st H1 H2.
  - split; [intros j Hj; lia | reflexivity].
  - cbn [repeat List.concat]. rewrite runStraight_app.
    destruct (initLocal_chunk st ltac:(lia)) as (Hs & Hz & Hf).
    remember (runStraight initLocalCode st) as st1 eqn:E1. clear E1.
    destruct (IH st1 ltac:(lia) ltac:(lia)) as (IHz & IHf).
    split.
    + intros j Hj. destruct (Z.eq_dec j 0) as [-> | Hj0].
      * rewrite Z.add_0_r. rewrite IHf by lia. exact Hz.
      * replace (SP st + j) with (SP st1 + (j - 1)) by lia. apply IHz. lia.
    + intros x Hx Hout. rewrite IHf by lia. apply Hf; lia.
Qed.

Lemma labelNames_initLocal (n : nat) :
  labelNames (List.concat (repeat initLocalParsed n)) = [].
Proof. induction n as [|n IH]; [reflexivity | exact IH]. Qed.

(** [function f k]: the block declares the entry label [f] and nothing
    else, and, run on the machine, pushes [max k 0] zeros: the stack pointer
    moves up by that much, the new words are 0 and no other word but [SP]
    changes. *)
Theorem function_initialises_locals (name asm : string) (k base : Z)
    (sigma : string -> Z) (st : Machine) :
  translateFunctionCommand name k = Ok asm ->
  hasNL name = false ->
  stackFits st (Z.max 0 k) ->
  declaredLabels asm = Some [name] /\
  exists st',
    runBlock base sigma asm st = Some (Done st') /\
    SP st' = SP st + Z.max 0 k /\
    (forall j, 0 <= j < k -> ram st' (SP st + j) = 0) /\
    (forall x, x <> 0 -> ~ (SP st <= x < SP st + k) -> ram st' x = ram st x).
Proof.
  unfold translateFunctionCommand. intros Hasm Hn [H1 H2].
  apply Ok_inj in Hasm. subst asm. rewrite initLocals_lines, <- txt_app.
  cbn [app]. set (n := Z.to_nat k).
  destruct (initLocal_parse n) as [Hnl Hparse].
  assert (Hsplit : splitLines "" (txt (("(" ++ name ++ ")")
                                        :: List.concat (repeat initLocalLines n)))
                   = ("(" ++ name ++ ")") :: List.concat (repeat initLocalLines n)).
  { apply splitLines_txt. cbn [app forallb]. rewrite Hnl. cbn.
    rewrite hasNL_app, Hn. reflexivity. }
  assert (Hp : parseLines (("(" ++ name ++ ")")
                            :: List.concat (repeat initLocalLines n))
               = Some (LabelDecl name :: List.concat (repeat initLocalParsed n))).
  { cbn [app parseLines]. rewrite parseLine_label, Hparse. reflexivity. }
  split.
  - unfold declaredLabels. rewrite Hsplit, Hp. cbn [option_map labelNames].
    now rewrite labelNames_initLocal.
  - assert (Ha : assemble base sigma
                   (txt (("(" ++ name ++ ")") :: List.concat (repeat initLocalLines n)))
                 = Some (List.concat (repeat initLocalCode n))).
    { unfold assemble. rewrite Hsplit, Hp. cbn [instructions].
      now rewrite (proj1 (initLocal_instructions _ n eq_refl)). }
    rewrite (runBlock_straight base sigma _ _ st Ha
               (proj2 (initLocal_instructions (fun _ => 0) n eq_refl))).
    eexists. split; [reflexivity|].
    destruct (initLocal_run n st H1 ltac:(subst n; lia)) as (Hz & Hf).
    split; [|split].
    + rewrite initLocal_SP by (subst n; lia). subst n. lia.
    + intros j Hj. apply Hz. subst n. lia.
    + intros x Hx Hout. apply Hf; [exact Hx|]. subst n. lia.
Qed.

Lemma function_initialises_locals_witness :
  declaredLabels (txt ["(Foo)"; "@SP"; "A=M"; "M=0"; "@SP"; "M=M+1";
                       "@SP"; "A=M"; "M=0"; "@SP"; "M=M+1"]) = Some ["Foo"].
Proof.
  refine (proj1 (function_initialises_locals "Foo" _ 2 0 (fun _ => 16)
                   freshMachine eq_refl eq_refl _)).
  unfold stackFits. change (SP freshMachine) with 256. lia.
Defined.
(** ** The values the arithmetic and comparison blocks leave *)

Lemma wrap16_mod (a b : Z) : a mod 65536 = b mod 65536 -> wrap16 a = wrap16 b.
Proof.
  intros H. unfold wrap16.
  rewrite <- (Zplus_mod_idemp_l a), <- (Zplus_mod_idemp_l b), H. reflexivity.
Qed.

Lemma wrap16_mod_same (a : Z) : wrap16 a mod 65536 = a mod 65536.
Proof. unfold wrap16. Z.div_mod_to_equations. lia. Qed.

Lemma wrap16_add_l (x y : Z) : wrap16 (wrap16 y + x) = wrap16 (x + y).
Proof.
  apply wrap16_mod. rewrite <- Zplus_mod_idemp_l, wrap16_mod_same, Zplus_mod_idemp_l.
  f_equal. lia.
Qed.

Lemma wrap16_sub_r (x y : Z) : wrap16 (x - wrap16 y) = wrap16 (x - y).
Proof.
  apply wrap16_mod. rewrite <- Zminus_mod_idemp_r, wrap16_mod_same, Zminus_mod_idemp_r.
  reflexivity.
Qed.

Lemma mod_ones (a : Z) : a mod 65536 = Z.land a (Z.ones 16).
Proof. now rewrite Z.land_ones by lia. Qed.

Lemma land_mod (a x : Z) :
  Z.land a x mod 65536 = Z.land (a mod 65536) (x mod 65536).
Proof.
  rewrite !mod_ones. apply Z.bits_inj'. intros n _. rewrite !Z.land_spec.
  destruct (Z.testbit a n), (Z.testbit x n), (Z.testbit (Z.ones 16) n); reflexivity.
Qed.

Lemma lor_mod (a x : Z) :
  Z.lor a x mod 65536 = Z.lor (a mod 65536) (x mod 65536).
Proof.
  rewrite !mod_ones. apply Z.bits_inj'. intros n _.
  rewrite !Z.land_spec, !Z.lor_spec, !Z.land_spec.
  destruct (Z.testbit a n), (Z.testbit x n), (Z.testbit (Z.ones 16) n); reflexivity.
Qed.

Lemma wrap16_land_l (x y : Z) : wrap16 (Z.land (wrap16 y) x) = wrap16 (Z.land x y).
Proof.
  apply wrap16_mod. rewrite land_mod, wrap16_mod_same, <- land_mod.
  now rewrite Z.land_comm.
Qed.

Lemma wrap16_lor_l (x y : Z) : wrap16 (Z.lor (wrap16 y) x) = wrap16 (Z.lor x y).
Proof.
  apply wrap16_mod. rewrite lor_mod, wrap16_mod_same, <- lor_mod.
  now rewrite Z.lor_comm.
Qed.

(** [add], [sub], [and], [or]: the two top words [x] (below) and [y] (top)
    are replaced by the 16-bit value of [x op y]; the stack pointer goes
    down by one and no other word changes. *)
Theorem binary_result (op : string) (base : Z) (sigma : string -> Z)
    (st : Machine) :
  isBinary op = true ->
  258 <= SP st <= 32767 ->
  exists st',
    runBlock base sigma (translateArithmeticCommand op) st = Some (Done st') /\
    SP st' = SP st - 1 /\
    ram st' (SP st - 2)
    = wrap16 (binaryResult op (ram st (SP st - 2)) (ram st (SP st - 1))) /\
    forall a, a <> 0 -> a <> SP st - 2 -> ram st' a = ram st a.
Proof.
  intros Hop H. apply blockEffect_ex. unfold isBinary in Hop. revert Hop.
  unfold translateArithmeticCommand, binaryResult.
  case_str op; try discriminate; intros _;
    straight_block; norm_machine;
    (split; [lia|]); (split; [|intros a Ha1 Ha2; norm_machine; reflexivity]);
    replace (ram st 0 - 1 - 1) with (ram st 0 - 2) by lia;
    norm_machine.
  - apply wrap16_add_l.
  - apply wrap16_sub_r.
  - apply wrap16_land_l.
  - apply wrap16_lor_l.
Qed.

(** [neg], [not]: the top word [y] is replaced by the 16-bit value of [-y],
    or of its bitwise complement; nothing else changes, the stack pointer
    included. *)
Theorem unary_result (op : string) (base : Z) (sigma : string -> Z)
    (st : Machine) :
  isUnary op = true ->
  257 <= SP st <= 32767 ->
  exists st',
    runBlock base sigma (translateArithmeticCommand op) st = Some (Done st') /\
    ram st' (SP st - 1) = wrap16 (unaryResult op (ram st (SP st - 1))) /\
    forall a, a <> SP st - 1 -> ram st' a = ram st a.
Proof.
  intros Hop H. apply blockEffect_ex. unfold isUnary in Hop. revert Hop.
  unfold translateArithmeticCommand, unaryResult.
  case_str op; try discriminate; intros _;
    straight_block; norm_machine;
    (split; [reflexivity | intros a Ha; norm_machine; reflexivity]).
Qed.

Lemma comparison_exec_value (base : Z) (j : Jump) (st : Machine) :
  258 <= SP st <= 32767 ->
  match exec 16 base (comparisonCode base j) 0 st with
  | Done st' =>
      SP st' = SP st - 1 /\
      ram st' (SP st - 2)
      = (if jumps j (wrap16 (ram st (SP st - 2) - ram st (SP st - 1)))
         then -1 else 0) /\
      forall a, a <> 0 -> a <> SP st - 2 -> ram st' a = ram st a
  | _ => False
  end.
Proof.
  intros H. rewrite <- wrap16_sub_r. unfold comparisonCode, SP in *.
  cbn [exec nth_error jumpTarget jumps List.length step regA regD ram dA dD dM].
  match goal with
  | |- context [jumps j ?v] =>
      assert (Ev : v = wrap16 (ram st (ram st 0 - 2) - wrap16 (ram st (ram st 0 - 1))))
  end.
  { unfold evalComp; cbv beta iota. norm_machine.
    replace (ram st 0 - 1 - 1) with (ram st 0 - 2) by lia.
    now rewrite wrap16_idem. }
  rewrite Ev. clear Ev.
  destruct (jumps j _).
  - rewrite (jump_in_block base 12 (Z.of_nat 15)) by (cbn; lia).
    rewrite Z.add_simpl_l. change (Z.to_nat 12) with 12%nat.
    cbn [exec nth_error jumpTarget jumps List.length step regA regD ram dA dD dM].
    unfold evalComp; cbv beta iota. norm_machine.
    replace (ram st 0 - 1 - 1) with (ram st 0 - 2) by lia.
    split; [lia|]. split; [norm_machine; reflexivity|].
    intros a Ha1 Ha2. norm_machine. reflexivity.
  - cbn [exec nth_error jumpTarget jumps List.length step regA regD ram dA dD dM].
    rewrite (jump_in_block base 15 (Z.of_nat 15)) by (cbn; lia).
    rewrite Z.add_simpl_l. change (Z.to_nat 15) with 15%nat.
    cbn [exec nth_error jumpTarget jumps List.length step regA regD ram dA dD dM].
    unfold evalComp; cbv beta iota. norm_machine.
    replace (ram st 0 - 1 - 1) with (ram st 0 - 2) by lia.
    split; [lia|]. split; [norm_machine; reflexivity|].
    intros a Ha1 Ha2. norm_machine. reflexivity.
Qed.

(** [eq], [lt], [gt], when the difference of the two top words [x] (below)
    and [y] (top) fits in 16 bits: they are replaced by -1 if [x = y],
    [x < y], [x > y] holds and by 0 if not; the stack pointer goes down by
    one and no other word changes. *)
Theorem comparison_result (op : string) (n base : Z) (sigma : string -> Z)
    (st : Machine) :
  isCompare op = true ->
  258 <= SP st <= 32767 ->
  -32768 <= ram st (SP st - 2) - ram st (SP st - 1) <= 32767 ->
  exists st',
    runBlock base sigma (translateComparisonCommand op n) st = Some (Done st') /\
    SP st' = SP st - 1 /\
    ram st' (SP st - 2)
    = (if holds op (ram st (SP st - 2)) (ram st (SP st - 1)) then -1 else 0) /\
    forall a, a <> 0 -> a <> SP st - 2 -> ram st' a = ram st a.
Proof.
  intros Hop H Hd.
  assert (Hop' : op = "eq" \/ op = "lt" \/ op = "gt")
    by (unfold isCompare in Hop; revert Hop; case_str op; auto; discriminate).
  pose proof (comparison_exec_value base (jumpOf op) st H) as He.
  unfold runBlock. rewrite comparison_assemble by exact Hop'.
  change (S (List.length (comparisonCode base (jumpOf op)))) with 16%nat.
  destruct (exec 16 base (comparisonCode base (jumpOf op)) 0 st)
    as [st' | |]; try contradiction.
  exists st'. destruct He as (Hs & Hv & Hf).
  split; [reflexivity|]. split; [exact Hs|]. split; [|exact Hf].
  rewrite Hv, wrap16_small by lia.
  destruct Hop' as [-> | [-> | ->]]; cbn [jumpOf holds jumps String.eqb Ascii.eqb Bool.eqb].
  - destruct (Z.eqb_spec (ram st (SP st - 2) - ram st (SP st - 1)) 0),
             (Z.eqb_spec (ram st (SP st - 2)) (ram st (SP st - 1))); lia.
  - destruct (Z.ltb_spec (ram st (SP st - 2) - ram st (SP st - 1)) 0),
             (Z.ltb_spec (ram st (SP st - 2)) (ram st (SP st - 1))); lia.
  - destruct (Z.ltb_spec 0 (ram st (SP st - 2) - ram st (SP st - 1))),
             (Z.ltb_spec (ram st (SP st - 1)) (ram st (SP st - 2))); lia.
Qed.

(** [lt], [gt], when the two top words are 16-bit values whose difference
    does not fit in 16 bits: the block leaves the opposite of the truth
    value of the relation, 0 where it holds and -1 where it does not. *)
Theorem comparison_overflow (op : string) (n base : Z) (sigma : string -> Z)
    (st : Machine) :
  op = "lt" \/ op = "gt" ->
  258 <= SP st <= 32767 ->
  -32768 <= ram st (SP st - 2) <= 32767 ->
  -32768 <= ram st (SP st - 1) <= 32767 ->
  ~ (-32768 <= ram st (SP st - 2) - ram st (SP st - 1) <= 32767) ->
  exists st',
    runBlock base sigma (translateComparisonCommand op n) st = Some (Done st') /\
    ram st' (SP st - 2)
    = (if holds op (ram st (SP st - 2)) (ram st (SP st - 1)) then 0 else -1).
Proof.
  intros Hop H Hx Hy Hd.
  pose proof (comparison_exec_value base (jumpOf op) st H) as He.
  unfold runBlock. rewrite comparison_assemble by tauto.
  change (S (List.length (comparisonCode base (jumpOf op)))) with 16%nat.
  destruct (exec 16 base (comparisonCode base (jumpOf op)) 0 st)
    as [st' | |]; try contradiction.
  exists st'. destruct He as (Hs & Hv & Hf).
  split; [reflexivity|]. rewrite Hv.
  set (x := ram st (SP st - 2)) in *. set (y := ram st (SP st - 1)) in *.
  assert (Hw : wrap16 (x - y) = x - y - 65536 /\ y < x \/
               wrap16 (x - y) = x - y + 65536 /\ x < y).
  { unfold wrap16. destruct (Z_lt_le_dec 32767 (x - y)) as [Hgt | Hle].
    - left. split; [|lia].
      replace (x - y + 32768) with (x - y - 32768 + 1 * 65536) by lia.
      rewrite Z_mod_plus_full, Z.mod_small; lia.
    - right. split; [|lia].
      replace (x - y + 32768) with (x - y + 32768 + 65536 + (-1) * 65536) by lia.
      rewrite Z_mod_plus_full, Z.mod_small; lia. }
  destruct Hop as [-> | ->]; cbn [jumpOf holds jumps String.eqb Ascii.eqb Bool.eqb].
  - destruct (Z.ltb_spec (wrap16 (x - y)) 0), (Z.ltb_spec x y); lia.
  - destruct (Z.ltb_spec 0 (wrap16 (x - y))), (Z.ltb_spec y x); lia.
Qed.

Lemma binary_result_witness :
  exists st',
    runBlock 0 (fun _ => 16) (translateArithmeticCommand "sub") (stackOf [7; 3])
    = Some (Done st') /\
    SP st' = 257 /\ ram st' 256 = 4.
Proof.
  destruct (binary_result "sub" 0 (fun _ => 16) (stackOf [7; 3]) eq_refl)
    as (st' & Hr & Hs & Hv & _).
  - change (SP (stackOf [7; 3])) with 258. lia.
  - exists st'. split; [exact Hr|]. split; [exact Hs | exact Hv].
Defined.

Lemma unary_result_witness :
  exists st',
    runBlock 0 (fun _ => 16) (translateArithmeticCommand "not") (stackOf [5])
    = Some (Done st') /\
    ram st' 256 = -6 /\ SP st' = 257.
Proof.
  destruct (unary_result "not" 0 (fun _ => 16) (stackOf [5]) eq_refl)
    as (st' & Hr & Hv & Hf).
  - change (SP (stackOf [5])) with 257. lia.
  - exists st'. split; [exact Hr|]. split; [exact Hv|].
    unfold SP. now rewrite Hf.
Defined.

Lemma comparison_result_witness :
  exists st',
    runBlock 0 (fun _ => 16) (translateComparisonCommand "lt" 0) (stackOf [3; 7])
    = Some (Done st') /\
    SP st' = 257 /\ ram st' 256 = -1.
Proof.
  destruct (comparison_result "lt" 0 0 (fun _ => 16) (stackOf [3; 7]) eq_refl)
    as (st' & Hr & Hs & Hv & _).
  - le_compute.
  - le_compute.
  - exists st'. split; [exact Hr|]. split; [exact Hs | exact Hv].
Defined.

Lemma comparison_overflow_witness :
  exists st',
    runBlock 0 (fun _ => 16) (translateComparisonCommand "lt" 0)
             (stackOf [32767; -1])
    = Some (Done st') /\
    ram st' 256 = -1.
Proof.
  destruct (comparison_overflow "lt" 0 0 (fun _ => 16) (stackOf [32767; -1]))
    as (st' & Hr & Hv).
  - now left.
  - le_compute.
  - le_compute.
  - le_compute.
  - vm_compute. intros [_ Hc]. apply Hc. reflexivity.
  - exists st'. split; [exact Hr | exact Hv].
Defined.

(** ** The values [push] and [pop] move *)

Lemma digits_val_nonneg (s : string) :
  forall acc v, 0 <= acc -> digits_val acc s = Some v -> 0 <= v.
Proof.
  induction s as [|c r IH]; intros acc v Hacc; cbn [digits_val].
  - now intros [= <-].
  - destruct (is_digit c) eqn:Hc; [|discriminate].
    apply IH. unfold is_digit in Hc. apply andb_prop in Hc as [Hc _].
    apply N.leb_le in Hc. lia.
Qed.

Lemma numeral_nonneg (x : string) (v : Z) : numeral x = Some v -> 0 <= v.
Proof.
  unfold numeral. destruct x; [discriminate|].
  apply digits_val_nonneg. lia.
Qed.

(** [push constant i], for a decimal constant [i] of 15 bits: the word [i]
    is pushed; no other word but [SP] changes. *)
Theorem push_constant_value (index unit asm : string) (i base : Z)
    (sigma : string -> Z) (st : Machine) :
  translatePushCommand "constant" index unit = Ok asm ->
  hasNL index = false ->
  numeral index = Some i -> i <= 32767 ->
  stackFits st 1 ->
  exists st',
    runBlock base sigma asm st = Some (Done st') /\
    SP st' = SP st + 1 /\
    ram st' (SP st) = i /\
    forall a, a <> 0 -> a <> SP st -> ram st' a = ram st a.
Proof.
  intros Hasm Hi Hnum Hle [H1 H2]. apply blockEffect_ex.
  pose proof (numeral_nonneg _ _ Hnum) as H0.
  revert Hasm. unfold translatePushCommand.
  cbn [String.eqb Ascii.eqb Bool.eqb]. ok_subst.
  straight_block. rewrite (resolve_numeral _ _ _ _ _ Hnum). norm_machine.
  split; [reflexivity|]. split; [reflexivity|].
  intros a Ha1 Ha2. norm_machine. reflexivity.
Qed.

(** [push local i], [push argument i], [push this i], [push that i], for a
    decimal constant [i]: when the segment's base address [b] and [b + i]
    are RAM addresses, the word at [b + i] is pushed; no other word but
    [SP] changes. *)
Theorem push_segment_value (segment index unit asm : string) (p i base : Z)
    (sigma : string -> Z) (st : Machine) :
  translatePushCommand segment index unit = Ok asm ->
  segmentPointer segment = Some p ->
  hasNL index = false ->
  numeral index = Some i ->
  0 <= ram st p -> ram st p + i <= 32767 ->
  stackFits st 1 ->
  exists st',
    runBlock base sigma asm st = Some (Done st') /\
    SP st' = SP st + 1 /\
    ram st' (SP st) = wrap16 (ram st (ram st p + i)) /\
    forall a, a <> 0 -> a <> SP st -> ram st' a = ram st a.
Proof.
  intros Hasm Hp Hi Hnum Hb Hbi [H1 H2]. apply blockEffect_ex.
  pose proof (numeral_nonneg _ _ Hnum) as H0.
  revert Hasm Hp. unfold translatePushCommand, segmentPointer.
  case_str segment; try discriminate; intros Hasm [= <-]; revert Hasm;
    ok_subst; unfold pushSegmentTemplate;
    straight_block; rewrite !(resolve_numeral _ _ _ _ _ Hnum); norm_machine;
    (split; [reflexivity|]); (split; [now rewrite wrap16_idem|]);
    intros a Ha1 Ha2; norm_machine; reflexivity.
Qed.

(** [pop local i], [pop argument i], [pop this i], [pop that i], for a
    decimal constant [i]: when the segment's base address [b] is a RAM
    address and [b + i] one other than 0, the top word is taken off the
    stack and stored at [b + i]; besides, only [SP] and the scratch
    register R13 change. *)
Theorem pop_segment_store (segment index unit asm : string) (p i base : Z)
    (sigma : string -> Z) (st : Machine) :
  translatePopCommand segment index unit = Ok asm ->
  segmentPointer segment = Some p ->
  hasNL index = false ->
  numeral index = Some i ->
  0 <= ram st p -> 1 <= ram st p + i <= 32767 ->
  257 <= SP st <= 32767 ->
  exists st',
    runBlock base sigma asm st = Some (Done st') /\
    SP st' = SP st - 1 /\
    ram st' (ram st p + i) = wrap16 (ram st (SP st - 1)) /\
    forall a, a <> 0 -> a <> 13 -> a <> ram st p + i -> ram st' a = ram st a.
Proof.
  intros Hasm Hp Hi Hnum Hb Hbi H. apply blockEffect_ex.
  pose proof (numeral_nonneg _ _ Hnum) as H0.
  revert Hasm Hp. unfold translatePopCommand, segmentPointer.
  case_str segment; try discriminate; intros Hasm [= <-]; revert Hasm;
    ok_subst; unfold popTemplate;
    straight_block; rewrite !(resolve_numeral _ _ _ _ _ Hnum); norm_machine;
    (split; [reflexivity|]); (split; [now rewrite wrap16_idem|]);
    intros a Ha1 Ha2 Ha3; norm_machine; reflexivity.
Qed.

Lemma pop_temp_exec (index unit asm : string) (i base : Z)
    (sigma : string -> Z) (st : Machine) :
  translatePopCommand "temp" index unit = Ok asm ->
  Atoi index = Some i ->
  0 <= i <= 32762 ->
  257 <= SP st <= 32767 ->
  exists st',
    runBlock base sigma asm st = Some (Done st') /\
    SP st' = SP st - 1 /\
    ram st' (5 + i) = wrap16 (ram st (SP st - 1)) /\
    forall a, a <> 0 -> a <> 13 -> a <> 5 + i -> ram st' a = ram st a.
Proof.
  intros Hasm Hat Hi H. apply blockEffect_ex.
  revert Hasm. unfold translatePopCommand.
  cbn [String.eqb Ascii.eqb Bool.eqb]. rewrite Hat. ok_subst.
  change (fmt_d 5) with "5".
  pose proof (numeral_fmt_d i ltac:(lia)) as Hnum.
  pose proof (hasNL_fmt_d i) as Hx.
  revert Hx Hnum. generalize (fmt_d i). intros x Hx Hnum.
  straight_block. rewrite !(resolve_numeral _ _ _ _ _ Hnum). norm_machine.
  split; [reflexivity|]. split; [now rewrite wrap16_idem|].
  intros a Ha1 Ha2 Ha3. norm_machine. reflexivity.
Qed.

Lemma push_temp_exec (index unit asm : string) (i base : Z)
    (sigma : string -> Z) (st : Machine) :
  translatePushCommand "temp" index unit = Ok asm ->
  Atoi index = Some i ->
  0 <= i <= 10 ->
  stackFits st 1 ->
  exists st',
    runBlock base sigma asm st = Some (Done st') /\
    SP st' = SP st + 1 /\
    ram st' (SP st) = wrap16 (ram st (5 + i)) /\
    forall a, a <> 0 -> a <> SP st -> ram st' a = ram st a.
Proof.
  intros Hasm Hat Hi [H1 H2]. apply blockEffect_ex.
  revert Hasm. unfold translatePushCommand.
  cbn [String.eqb Ascii.eqb Bool.eqb]. rewrite Hat. ok_subst.
  assert (Hc : i = 0 \/ i = 1 \/ i = 2 \/ i = 3 \/ i = 4 \/ i = 5 \/ i = 6 \/
               i = 7 \/ i = 8 \/ i = 9 \/ i = 10) by lia.
  repeat (destruct Hc as [-> | Hc]); [.. | subst i];
    match goal with
    | |- context [fmt_d ?n] =>
        let s := eval vm_compute in (fmt_d n) in
        change (fmt_d n) with s
    end;
    cbn [append];
    straight_block; norm_machine;
    (split; [reflexivity|]); (split; [now rewrite wrap16_idem|]);
    intros a Ha1 Ha2; norm_machine; reflexivity.
Qed.

(** [pop temp i] stores the top word at RAM address [5 + i] for every
    index [i >= 0], with no upper bound on [i]: beyond [i = 7] it writes
    past the temp segment, into the general registers, the statics or the
    stack itself.  Besides, only [SP] and the scratch register R13
    change. *)
Theorem pop_temp_store (index unit asm : string) (i base : Z)
    (sigma : string -> Z) (st : Machine) :
  translatePopCommand "temp" index unit = Ok asm ->
  Atoi index = Some i ->
  0 <= i <= 32762 ->
  257 <= SP st <= 32767 ->
  exists st',
    runBlock base sigma asm st = Some (Done st') /\
    SP st' = SP st - 1 /\
    ram st' (5 + i) = wrap16 (ram st (SP st - 1)) /\
    forall a, a <> 0 -> a <> 13 -> a <> 5 + i -> ram st' a = ram st a.
Proof. exact (pop_temp_exec index unit asm i base sigma st). Qed.

(** [pop temp i] followed by [push temp i], for [0 <= i <= 10]: the stack
    is as before (the top a 16-bit word), and RAM address [5 + i] holds a
    copy of the top word. *)
Theorem temp_round_trip (index unit popAsm pushAsm : string) (i base base' : Z)
    (sigma : string -> Z) (st : Machine) :
  translatePopCommand "temp" index unit = Ok popAsm ->
  translatePushCommand "temp" index unit = Ok pushAsm ->
  Atoi index = Some i ->
  0 <= i <= 10 ->
  257 <= SP st <= 32767 ->
  exists st1 st2,
    runBlock base sigma popAsm st = Some (Done st1) /\
    runBlock base' sigma pushAsm st1 = Some (Done st2) /\
    SP st2 = SP st /\
    ram st2 (SP st - 1) = wrap16 (ram st (SP st - 1)) /\
    ram st2 (5 + i) = wrap16 (ram st (SP st - 1)) /\
    forall a, a <> 0 -> a <> 13 -> a <> 5 + i -> a <> SP st - 1 ->
              ram st2 a = ram st a.
Proof.
  intros Hpop Hpush Hat Hi H.
  destruct (pop_temp_exec index unit popAsm i base sigma st Hpop Hat ltac:(lia) H)
    as (st1 & Hr1 & Hs1 & Hv1 & Hf1).
  destruct (push_temp_exec index unit pushAsm i base' sigma st1 Hpush Hat Hi)
    as (st2 & Hr2 & Hs2 & Hv2 & Hf2).
  { unfold stackFits. lia. }
  exists st1, st2. split; [exact Hr1|]. split; [exact Hr2|].
  rewrite Hs1 in *.
  split; [lia|]. split; [|split].
  - rewrite Hv2, Hv1. apply wrap16_idem.
  - rewrite Hf2 by lia. exact Hv1.
  - intros a Ha1 Ha2 Ha3 Ha4. rewrite Hf2 by lia. apply Hf1; assumption.
Qed.

(** ** Static variables: the spelling of the index *)

Lemma Atoi_fmt_d (n : Z) : int_min <= n <= int_max -> Atoi (fmt_d n) = Some n.
Proof.
  intros Hn.
  assert (Hpos : forall m, 0 <= m -> int_min <= m <= int_max ->
                           Atoi (fmt_d m) = Some m).
  { intros m Hm Hr. pose proof (numeral_fmt_d m Hm) as Hnum.
    unfold numeral in Hnum. unfold Atoi.
    destruct (fmt_d m) as [|c r]; [discriminate|].
    assert (Hc : is_digit c = true).
    { cbn [digits_val] in Hnum. destruct (is_digit c); [reflexivity | discriminate]. }
    unfold is_digit in Hc. apply andb_prop in Hc as [Hc1 Hc2].
    apply N.leb_le in Hc1. apply N.leb_le in Hc2.
    destruct (N.eqb_spec (byte c) 43); [lia|].
    destruct (N.eqb_spec (byte c) 45); [lia|].
    rewrite Hnum.
    destruct (Z.leb_spec int_min m), (Z.leb_spec m int_max); try lia.
    reflexivity. }
  destruct n as [|p|p]; [apply Hpos; lia | apply Hpos; lia |].
  pose proof (numeral_fmt_d (Zpos p) ltac:(lia)) as Hnum.
  unfold fmt_d in *. cbn [Z.to_int NilZero.string_of_int] in *.
  unfold numeral in Hnum. unfold Atoi.
  change (byte "-") with 45%N. cbn [N.eqb Pos.eqb].
  destruct (NilZero.string_of_uint (Pos.to_uint p)) as [|c r]; [discriminate|].
  rewrite Hnum.
  change (- Z.pos p) with (Z.neg p).
  destruct (Z.leb_spec int_min (Z.neg p)), (Z.leb_spec (Z.neg p) int_max); try lia.
  reflexivity.
Qed.

Lemma Atoi_range (s : string) (n : Z) : Atoi s = Some n -> int_min <= n <= int_max.
Proof.
  unfold Atoi.
  destruct (match s with
            | String c r =>
                if (byte c =? 43)%N then (false, r)
                else if (byte c =? 45)%N then (true, r) else (false, s)
            | EmptyString => (false, s)
            end) as [neg body].
  destruct body; [discriminate|].
  destruct (digits_val 0 _) as [v|]; [|discriminate].
  destruct (Z.leb_spec int_min (if neg then - v else v)); [|discriminate].
  destruct (Z.leb_spec (if neg then - v else v) int_max); [|discriminate].
  cbn [andb]. intros [= <-]. lia.
Qed.

Lemma append_inv_tail (r : string) :
  forall a b : string, a ++ r = b ++ r -> a = b.
Proof.
  induction a as [|c a IH]; intros [|c' b] E; cbn [append] in E.
  - reflexivity.
  - apply (f_equal String.length) in E. cbn [String.length] in E.
    rewrite length_append in E. lia.
  - apply (f_equal String.length) in E. cbn [String.length] in E.
    rewrite length_append in E. lia.
  - injection E as -> E. f_equal. now apply IH.
Qed.

(** The static symbol of [pop static] is built from the value of the
    index, that of [push static] from its text: [pop static i] is
    translated like [pop static] of the index in canonical decimal form,
    while [push static i] is translated like it only when [i] is written
    in that form.  So an index with a sign or leading zeros is popped to
    one symbol and pushed from another. *)
Theorem static_index_spelling (index unit : string) (n : Z) :
  Atoi index = Some n ->
  translatePopCommand "static" index unit
  = translatePopCommand "static" (fmt_d n) unit /\
  (translatePushCommand "static" index unit
   = translatePushCommand "static" (fmt_d n) unit <-> index = fmt_d n).
Proof.
  intros Hat. pose proof (Atoi_range _ _ Hat) as Hr. split.
  - unfold translatePopCommand. cbn [String.eqb Ascii.eqb Bool.eqb].
    now rewrite Hat, (Atoi_fmt_d n Hr).
  - split; [|now intros ->].
    unfold translatePushCommand. cbn [String.eqb Ascii.eqb Bool.eqb].
    intros E. apply Ok_inj in E. cbn [txt] in E.
    rewrite !append_assoc in E.
    apply (append_inv_head "@") in E. apply append_inv_head in E.
    apply (append_inv_head ".") in E. now apply append_inv_tail in E.
Qed.

Lemma static_index_spelling_witness :
  translatePopCommand "static" "007" "Main"
  = translatePopCommand "static" "7" "Main" /\
  (translatePushCommand "static" "007" "Main"
   = translatePushCommand "static" "7" "Main" <-> "007" = "7").
Proof. exact (static_index_spelling "007" "Main" 7 eq_refl). Defined.

Lemma digits_val_dot (name r : string) :
  forall acc, digits_val acc (name ++ String "." r) = None.
Proof.
  induction name as [|c name IH]; intros acc; cbn [append digits_val].
  - reflexivity.
  - destruct (is_digit c); [apply IH | reflexivity].
Qed.

Lemma resolve_static (base : Z) (sigma : string -> Z) (unit r : string) :
  resolve base [] sigma (unit ++ "." ++ r) = sigma (unit ++ "." ++ r).
Proof.
  unfold resolve.
  assert (Hn : numeral (unit ++ "." ++ r) = None).
  { unfold numeral. change ("." ++ r) with (String "." r).
    destruct (unit ++ String "." r) eqn:E; [reflexivity|].
    rewrite <- E. apply digits_val_dot. }
  rewrite Hn.
  rewrite (lookup_hasChar "." (unit ++ "." ++ r) predefined); [reflexivity | reflexivity |].
  rewrite hasChar_app. cbn. apply orb_true_r.
Qed.

(** [pop static n] followed by [push static n], the index written in
    canonical decimal form: both blocks address the variable
    [<unit>.<n>]; when the assembler places it at a RAM address other than
    0, the variable receives the top word and the stack ends as it began
    (the top a 16-bit word). *)
Theorem static_round_trip (unit popAsm pushAsm : string) (n base base' : Z)
    (sigma : string -> Z) (st : Machine) :
  translatePopCommand "static" (fmt_d n) unit = Ok popAsm ->
  translatePushCommand "static" (fmt_d n) unit = Ok pushAsm ->
  hasNL unit = false ->
  int_min <= n <= int_max ->
  addr (sigma (unit ++ "." ++ fmt_d n)) <> 0 ->
  257 <= SP st <= 32767 ->
  exists st1 st2,
    runBlock base sigma popAsm st = Some (Done st1) /\
    runBlock base' sigma pushAsm st1 = Some (Done st2) /\
    SP st2 = SP st /\
    ram st2 (addr (sigma (unit ++ "." ++ fmt_d n))) = wrap16 (ram st (SP st - 1)) /\
    ram st2 (SP st - 1) = wrap16 (ram st (SP st - 1)).
Proof.
  intros Hpop Hpush Hu Hn Hs H.
  revert Hpop Hpush. unfold translatePopCommand, translatePushCommand.
  cbn [String.eqb Ascii.eqb Bool.eqb]. rewrite (Atoi_fmt_d n Hn).
  intros Hpop Hpush. apply Ok_inj in Hpop. apply Ok_inj in Hpush. subst.
  pose proof (resolve_static base sigma unit (fmt_d n)) as R1.
  pose proof (resolve_static base' sigma unit (fmt_d n)) as R2.
  assert (Hx : hasNL (unit ++ "." ++ fmt_d n) = false)
    by (rewrite !hasNL_app, Hu, hasNL_fmt_d; reflexivity).
  revert Hs R1 R2 Hx. generalize (unit ++ "." ++ fmt_d n). intros x Hs R1 R2 Hx.
  pose proof (Z.mod_pos_bound (sigma x) 32768 ltac:(lia)) as Hb.
  fold (addr (sigma x)) in Hb.
  assert (E1 : blockEffect base sigma (txt ["@SP"; "AM=M-1"; "D=M"; "@" ++ x; "M=D"]) st
                 (fun st1 => SP st1 = SP st - 1 /\
                             ram st1 (addr (sigma x)) = wrap16 (ram st (SP st - 1)) /\
                             (SP st - 1 <> addr (sigma x) ->
                              ram st1 (SP st - 1) = ram st (SP st - 1)))).
  { straight_block. rewrite R1. norm_machine.
    split; [reflexivity|]. split; [now rewrite wrap16_idem|].
    intros Hne. norm_machine. reflexivity. }
  apply blockEffect_ex in E1. destruct E1 as (st1 & Hr1 & Hs1 & Hv1 & Hf1).
  assert (E2 : blockEffect base' sigma
                 (txt ["@" ++ x; "D=M"; "@SP"; "A=M"; "M=D"; "@SP"; "M=M+1"]) st1
                 (fun st2 => SP st2 = SP st1 + 1 /\
                             ram st2 (SP st1) = wrap16 (ram st1 (addr (sigma x))) /\
                             (SP st1 <> addr (sigma x) ->
                              ram st2 (addr (sigma x)) = ram st1 (addr (sigma x))))).
  { straight_block. rewrite R2. norm_machine.
    split; [reflexivity|]. split; [now rewrite wrap16_idem|].
    intros Hne. norm_machine. reflexivity. }
  apply blockEffect_ex in E2. destruct E2 as (st2 & Hr2 & Hs2 & Hv2 & Hf2).
  exists st1, st2. split; [exact Hr1|]. split; [exact Hr2|].
  rewrite Hs1 in *. split; [lia|].
  assert (Htop : ram st2 (SP st - 1) = wrap16 (ram st (SP st - 1)))
    by (rewrite Hv2, Hv1; apply wrap16_idem).
  split; [|exact Htop].
  destruct (Z.eq_dec (SP st - 1) (addr (sigma x))) as [E | Hne].
  - rewrite <- E. exact Htop.
  - rewrite Hf2 by exact Hne. exact Hv1.
Qed.

(** [pop pointer k] followed by [push pointer k], for [k] the text [0] or
    [1]: THIS (RAM 3) for 0, THAT (RAM 4) for 1, receives the top word, the
    stack ends as it began (the top a 16-bit word) and no other word
    changes. *)
Theorem pointer_round_trip (index unit popAsm pushAsm : string) (base base' : Z)
    (sigma : string -> Z) (st : Machine) :
  translatePopCommand "pointer" index unit = Ok popAsm ->
  translatePushCommand "pointer" index unit = Ok pushAsm ->
  257 <= SP st <= 32767 ->
  let p := if index =? "0" then 3 else 4 in
  exists st1 st2,
    runBlock base sigma popAsm st = Some (Done st1) /\
    runBlock base' sigma pushAsm st1 = Some (Done st2) /\
    SP st1 = SP st - 1 /\
    SP st2 = SP st /\
    ram st2 p = wrap16 (ram st (SP st - 1)) /\
    ram st2 (SP st - 1) = wrap16 (ram st (SP st - 1)) /\
    forall a, a <> 0 -> a <> p -> a <> SP st - 1 -> ram st2 a = ram st a.
Proof.
  intros Hpop Hpush H p.
  assert (E1 : blockEffect base sigma popAsm st
                 (fun st1 => SP st1 = SP st - 1 /\
                             ram st1 p = wrap16 (ram st (SP st - 1)) /\
                             forall a, a <> 0 -> a <> p -> ram st1 a = ram st a)).
  { revert Hpop. subst p. unfold translatePopCommand.
    cbn [String.eqb Ascii.eqb Bool.eqb].
    case_str index; try discriminate; ok_subst; cbn [append];
      straight_block; norm_machine;
      (split; [reflexivity|]); (split; [now rewrite wrap16_idem|]);
      intros a Ha1 Ha2; norm_machine; reflexivity. }
  apply blockEffect_ex in E1. destruct E1 as (st1 & Hr1 & Hs1 & Hv1 & Hf1).
  assert (E2 : blockEffect base' sigma pushAsm st1
                 (fun st2 => SP st2 = SP st1 + 1 /\
                             ram st2 (SP st1) = wrap16 (ram st1 p) /\
                             forall a, a <> 0 -> a <> SP st1 -> ram st2 a = ram st1 a)).
  { assert (H1 : 256 <= SP st1 <= 32766) by lia. clear Hr1 Hs1 Hv1 Hf1 Hpop.
    revert Hpush. subst p. unfold translatePushCommand.
    cbn [String.eqb Ascii.eqb Bool.eqb].
    case_str index; try discriminate; ok_subst; rewrite <- txt_app; cbn [app];
      straight_block; norm_machine;
      (split; [reflexivity|]); (split; [now rewrite wrap16_idem|]);
      intros a Ha1 Ha2; norm_machine; reflexivity. }
  apply blockEffect_ex in E2. destruct E2 as (st2 & Hr2 & Hs2 & Hv2 & Hf2).
  assert (Hp : p = 3 \/ p = 4) by (subst p; destruct (index =? "0"); auto).
  exists st1, st2. split; [exact Hr1|]. split; [exact Hr2|].
  split; [exact Hs1|]. rewrite Hs1 in *. split; [lia|].
  split; [|split].
  - rewrite Hf2 by lia. exact Hv1.
  - rewrite Hv2, Hv1. apply wrap16_idem.
  - intros a Ha1 Ha2 Ha3. rewrite Hf2 by lia. now apply Hf1.
Qed.

Lemma push_constant_value_witness :
  exists st',
    runBlock 0 (fun _ => 16)
             (txt ["@7"; "D=A"; "@SP"; "A=M"; "M=D"; "@SP"; "M=M+1"]) (stackOf [])
    = Some (Done st') /\
    SP st' = 257 /\ ram st' 256 = 7.
Proof.
  destruct (push_constant_value "7" "Main" _ 7 0 (fun _ => 16) (stackOf [])
              eq_refl eq_refl eq_refl)
    as (st' & Hr & Hs & Hv & _).
  - lia.
  - unfold stackFits. split; [le_compute | vm_compute; discriminate].
  - exists st'. split; [exact Hr|]. split; [exact Hs | exact Hv].
Defined.

Lemma push_segment_value_witness :
  exists st',
    runBlock 0 (fun _ => 16) (pushSegmentTemplate "ARG" "6") returnMachine
    = Some (Done st') /\
    SP st' = 311 /\ ram st' 310 = 11.
Proof.
  destruct (push_segment_value "argument" "6" "Main" _ 2 6 0 (fun _ => 16)
              returnMachine eq_refl eq_refl eq_refl eq_refl)
    as (st' & Hr & Hs & Hv & _).
  - vm_compute; discriminate.
  - vm_compute; discriminate.
  - unfold stackFits. split; [le_compute | vm_compute; discriminate].
  - exists st'. split; [exact Hr|]. split; [exact Hs | exact Hv].
Defined.

Lemma pop_segment_store_witness :
  exists st',
    runBlock 0 (fun _ => 16) (popTemplate "LCL" "2") returnMachine
    = Some (Done st') /\
    SP st' = 309 /\ ram st' 302 = 42.
Proof.
  destruct (pop_segment_store "local" "2" "Main" _ 1 2 0 (fun _ => 16)
              returnMachine eq_refl eq_refl eq_refl eq_refl)
    as (st' & Hr & Hs & Hv & _).
  - vm_compute; discriminate.
  - le_compute.
  - le_compute.
  - exists st'. split; [exact Hr|]. split; [exact Hs | exact Hv].
Defined.

Lemma pop_temp_store_witness :
  exists st',
    runBlock 0 (fun _ => 16)
             (txt ["@5"; "D=A"; "@251"; "D=D+A"; "@R13"; "M=D"; "@SP"; "AM=M-1";
                   "D=M"; "@R13"; "A=M"; "M=D"]) (stackOf [9; 8])
    = Some (Done st') /\
    SP st' = 257 /\ ram st' 256 = 8.
Proof.
  destruct (pop_temp_store "251" "Main" _ 251 0 (fun _ => 16) (stackOf [9; 8])
              eq_refl eq_refl)
    as (st' & Hr & Hs & Hv & _).
  - lia.
  - le_compute.
  - exists st'. split; [exact Hr|]. split; [exact Hs | exact Hv].
Defined.

Lemma temp_round_trip_witness :
  exists st1 st2,
    runBlock 0 (fun _ => 16)
             (txt ["@5"; "D=A"; "@3"; "D=D+A"; "@R13"; "M=D"; "@SP"; "AM=M-1";
                   "D=M"; "@R13"; "A=M"; "M=D"]) (stackOf [9])
    = Some (Done st1) /\
    runBlock 12 (fun _ => 16)
             (txt ["@R8"; "D=M"; "@SP"; "A=M"; "M=D"; "@SP"; "M=M+1"]) st1
    = Some (Done st2) /\
    SP st2 = 257 /\ ram st2 256 = 9 /\ ram st2 8 = 9.
Proof.
  destruct (temp_round_trip "3" "Main" _ _ 3 0 12 (fun _ => 16) (stackOf [9])
              eq_refl eq_refl eq_refl)
    as (st1 & st2 & Hr1 & Hr2 & Hs & Hv1 & Hv2 & _).
  - lia.
  - le_compute.
  - exists st1, st2. split; [exact Hr1|]. split; [exact Hr2|].
    split; [exact Hs|]. split; [exact Hv1 | exact Hv2].
Defined.

Lemma static_round_trip_witness :
  exists st1 st2,
    runBlock 0 (fun _ => 16)
             (txt ["@SP"; "AM=M-1"; "D=M"; "@Main.7"; "M=D"]) (stackOf [9])
    = Some (Done st1) /\
    runBlock 5 (fun _ => 16)
             (txt ["@Main.7"; "D=M"; "@SP"; "A=M"; "M=D"; "@SP"; "M=M+1"]) st1
    = Some (Done st2) /\
    SP st2 = 257 /\ ram st2 16 = 9 /\ ram st2 256 = 9.
Proof.
  destruct (static_round_trip "Main" _ _ 7 0 5 (fun _ => 16) (stackOf [9])
              eq_refl eq_refl eq_refl)
    as (st1 & st2 & Hr1 & Hr2 & Hs & Hv1 & Hv2).
  - le_compute.
  - vm_compute; discriminate.
  - le_compute.
  - exists st1, st2. split; [exact Hr1|]. split; [exact Hr2|].
    split; [exact Hs|]. split; [exact Hv1 | exact Hv2].
Defined.

Lemma pointer_round_trip_witness :
  exists st1 st2,
    runBlock 0 (fun _ => 16)
             (txt ["@SP"; "AM=M-1"; "D=M"; "@THAT"; "M=D"]) (stackOf [9])
    = Some (Done st1) /\
    runBlock 5 (fun _ => 16)
             (txt ["@THAT"; "D=M"; "@SP"; "A=M"; "M=D"; "@SP"; "M=M+1"]) st1
    = Some (Done st2) /\
    SP st2 = 257 /\ ram st2 4 = 9 /\ ram st2 256 = 9.
Proof.
  destruct (pointer_round_trip "1" "Main" _ _ 0 5 (fun _ => 16) (stackOf [9])
              eq_refl eq_refl)
    as (st1 & st2 & Hr1 & Hr2 & _ & Hs & Hv1 & Hv2 & _).
  - le_compute.
  - exists st1, st2. split; [exact Hr1|]. split; [exact Hr2|].
    split; [exact Hs|]. split; [exact Hv1 | exact Hv2].
Defined.

(** ** Branching: [goto], [if-goto] and [label] *)

Lemma goto_assemble (label : string) (base : Z) (sigma : string -> Z) :
  hasNL label = false ->
  assemble base sigma (translateGotoCommand label)
  = Some [IA (resolve base [] sigma label);
          IC (mkDest false false false) C_0 JMP].
Proof.
  intros Hl. unfold translateGotoCommand.
  rewrite (assemble_txt base sigma _
             [AInstr label; CInstr (mkDest false false false) C_0 JMP]).
  - reflexivity.
  - no_newlines.
  - reflexivity.
Qed.

Lemma if_goto_assemble (label : string) (base : Z) (sigma : string -> Z) :
  hasNL label = false ->
  assemble base sigma (translateIfGotoCommand label)
  = Some [IA 0; IC (mkDest true false true) C_Mm1 J_none;
          IC (mkDest false true false) C_M J_none;
          IA (resolve base [] sigma label);
          IC (mkDest false false false) C_D JNE].
Proof.
  intros Hl. unfold translateIfGotoCommand.
  rewrite (assemble_txt base sigma _
             [AInstr "SP"; CInstr (mkDest true false true) C_Mm1 J_none;
              CInstr (mkDest false true false) C_M J_none;
              AInstr label; CInstr (mkDest false false false) C_D JNE]).
  - reflexivity.
  - no_newlines.
  - reflexivity.
Qed.

(** [goto l] leaves the block for the address the symbol [l] stands for,
    with the memory and the D register as they were. *)
Theorem goto_jumps (label : string) (base : Z) (sigma : string -> Z)
    (st : Machine) :
  hasNL label = false ->
  ~ (base <= resolve base [] sigma label <= base + 2) ->
  runBlock base sigma (translateGotoCommand label) st
  = Some (Exit (resolve base [] sigma label)
               (mkMachine (resolve base [] sigma label) (regD st) (ram st))).
Proof.
  intros Hl Hout. unfold runBlock. rewrite (goto_assemble label base sigma Hl).
  f_equal. set (t := resolve base [] sigma label) in *.
  cbn [List.length exec nth_error jumpTarget jumps step regA regD ram dA dD dM].
  destruct ((base <=? t) && (t <=? base + Z.of_nat 2))%Z eqn:Hin; [|reflexivity].
  apply andb_prop in Hin as [Ha Hb]. apply Z.leb_le in Ha, Hb.
  exfalso. apply Hout. lia.
Qed.

(** [if-goto l] takes the top word off the stack and leaves the block for
    the address the symbol [l] stands for when that word is not 0; when it
    is 0, control falls through.  Either way only [SP] changes in
    memory. *)
Theorem if_goto_branches (label : string) (base : Z) (sigma : string -> Z)
    (st : Machine) :
  hasNL label = false ->
  257 <= SP st <= 32767 ->
  ~ (base <= resolve base [] sigma label <= base + 5) ->
  exists st',
    runBlock base sigma (translateIfGotoCommand label) st
    = Some (if (wrap16 (ram st (SP st - 1)) =? 0)%Z then Done st'
            else Exit (resolve base [] sigma label) st') /\
    SP st' = SP st - 1 /\
    forall a, a <> 0 -> ram st' a = ram st a.
Proof.
  intros Hl H Hout. unfold runBlock.
  rewrite (if_goto_assemble label base sigma Hl).
  set (t := resolve base [] sigma label) in *. unfold SP in *.
  cbn [List.length exec nth_error jumpTarget jumps step regA regD ram dA dD dM].
  unfold evalComp; cbv beta iota. norm_machine. rewrite !wrap16_idem.
  destruct (Z.eqb_spec (wrap16 (ram st (ram st 0 - 1))) 0) as [E | E];
    cbn [negb].
  - eexists. split; [reflexivity|]. cbn [ram]. split; [norm_machine; reflexivity|].
    intros a Ha. norm_machine. reflexivity.
  - destruct ((base <=? t) && (t <=? base + Z.of_nat 5))%Z eqn:Hin.
    { apply andb_prop in Hin as [Ha Hb]. apply Z.leb_le in Ha, Hb.
      exfalso. apply Hout. lia. }
    eexists. split; [reflexivity|]. cbn [ram]. split; [norm_machine; reflexivity|].
    intros a Ha. norm_machine. reflexivity.
Qed.

Lemma longer_differs (a b : string) : a ++ String "$" b <> b.
Proof.
  intros E. apply (f_equal String.length) in E.
  rewrite length_append in E. cbn [String.length] in E. lia.
Qed.

(** [label l] declares the symbol [<function>$<l>], while [goto l] and
    [if-goto l] refer to the symbol [l], which is another one: in a
    [label l] block followed by a [goto l] or [if-goto l] block, the jump
    address is what [l] stands for in the rest of the program, not the
    address of the label. *)
Theorem goto_misses_label (label : string) (ctx : Context) (base : Z)
    (sigma : string -> Z) :
  hasNL label = false ->
  hasNL (currentFunctionName ctx) = false ->
  declaredLabels (translateLabelCommand label ctx)
  = Some [currentFunctionName ctx ++ "$" ++ label] /\
  currentFunctionName ctx ++ "$" ++ label <> label /\
  assemble base sigma (translateLabelCommand label ctx ++ translateGotoCommand label)
  = assemble base sigma (translateGotoCommand label) /\
  assemble base sigma (translateLabelCommand label ctx ++ translateIfGotoCommand label)
  = assemble base sigma (translateIfGotoCommand label).
Proof.
  intros Hl Hf. set (f := currentFunctionName ctx) in *.
  assert (Hfl : hasNL (f ++ "$" ++ label) = false)
    by (rewrite !hasNL_app, Hf, Hl; reflexivity).
  assert (Hne : f ++ "$" ++ label <> label) by apply longer_differs.
  assert (Hr : resolve base [(f ++ "$" ++ label, 0%nat)] sigma label
               = resolve base [] sigma label).
  { unfold resolve. cbn [lookup].
    destruct (String.eqb_spec (f ++ "$" ++ label) label) as [E | _];
      [contradiction | reflexivity]. }
  assert (Hshape : translateLabelCommand label ctx
                   = txt ["(" ++ (f ++ "$" ++ label) ++ ")"]).
  { unfold translateLabelCommand. fold f. f_equal. f_equal. f_equal.
    now rewrite !append_assoc. }
  rewrite Hshape. clear Hshape.
  revert Hfl Hne Hr. generalize (f ++ "$" ++ label). intros k Hk Hne Hr.
  split; [|split; [exact Hne|split]].
  - unfold declaredLabels. rewrite splitLines_txt by (cbn; now rewrite hasNL_app, Hk).
    cbn [parseLines]. now rewrite parseLine_label.
  - rewrite (goto_assemble label base sigma Hl).
    unfold translateGotoCommand. rewrite <- txt_app. cbn [app].
    rewrite (assemble_txt base sigma _
               [LabelDecl k; AInstr label;
                CInstr (mkDest false false false) C_0 JMP]).
    + cbn [labelTable instructions]. now rewrite Hr.
    + cbn. now rewrite !hasNL_app, Hk, Hl.
    + cbn [parseLines]. now rewrite parseLine_label.
  - rewrite (if_goto_assemble label base sigma Hl).
    unfold translateIfGotoCommand. rewrite <- txt_app. cbn [app].
    rewrite (assemble_txt base sigma _
               [LabelDecl k; AInstr "SP";
                CInstr (mkDest true false true) C_Mm1 J_none;
                CInstr (mkDest false true false) C_M J_none;
                AInstr label; CInstr (mkDest false false false) C_D JNE]).
    + cbn [labelTable instructions]. rewrite Hr. reflexivity.
    + cbn. now rewrite !hasNL_app, Hk, Hl.
    + cbn [parseLines]. now rewrite parseLine_label.
Qed.

Lemma goto_jumps_witness :
  runBlock 0 (fun _ => 100) (txt ["@LOOP"; "0;JMP"]) freshMachine
  = Some (Exit 100 (mkMachine 100 0 (ram freshMachine))).
Proof.
  refine (goto_jumps "LOOP" 0 (fun _ => 100) freshMachine eq_refl _).
  vm_compute. intros [_ Hc]. apply Hc. reflexivity.
Defined.

Lemma if_goto_branches_witness :
  exists st',
    runBlock 0 (fun _ => 100) (txt ["@SP"; "AM=M-1"; "D=M"; "@LOOP"; "D;JNE"])
             (stackOf [1])
    = Some (Exit 100 st') /\
    SP st' = 256.
Proof.
  destruct (if_goto_branches "LOOP" 0 (fun _ => 100) (stackOf [1]) eq_refl)
    as (st' & Hr & Hs & _).
  - le_compute.
  - vm_compute. intros [_ Hc]. apply Hc. reflexivity.
  - exists st'. split; [exact Hr | exact Hs].
Defined.

Lemma goto_misses_label_witness :
  declaredLabels (txt ["($LOOP)"]) = Some ["$LOOP"] /\
  assemble 0 (fun _ => 100) (txt ["($LOOP)"; "@LOOP"; "0;JMP"])
  = Some [IA 100; IC (mkDest false false false) C_0 JMP].
Proof.
  destruct (goto_misses_label "LOOP" initialContext 0 (fun _ => 100)
              eq_refl eq_refl) as (Hd & _ & Ha & _).
  split; [exact Hd | exact Ha].
Defined.

(** ** Return labels *)

Lemma vmCommandToAsm_call (cmd name : string) (n : Z) (ctx : Context) :
  callOf cmd = Some (name, n) ->
  vmCommandToAsm cmd ctx = translateCallCommand name n ctx.
Proof.
  unfold callOf, vmCommandToAsm.
  change (Fields (TrimSpace (beforeComment cmd))) with (parts cmd).
  destruct (parts cmd) as [|op [|f [|count [|x r]]]]; try discriminate.
  destruct (String.eqb_spec op "call") as [-> | _]; [|discriminate].
  cbn. destruct (Atoi count) as [k|]; [|discriminate].
  cbn. now intros [= -> ->].
Qed.

Lemma vmCommandToAsm_callCounter (cmd : string) (ctx : Context) :
  callCounter (snd (vmCommandToAsm cmd ctx))
  = if isSome (callOf cmd) then int_wrap (callCounter ctx + 1)
    else callCounter ctx.
Proof.
  unfold vmCommandToAsm, callOf.
  change (Fields (TrimSpace (beforeComment cmd))) with (parts cmd).
  destruct (parts cmd) as [|op operands]; cbn; [auto|].
  case_op op; auto;
    repeat match goal with
           | |- context [match ?l with [] => _ | _ :: _ => _ end] => destruct l; cbn
           | |- context [match Atoi ?s with _ => _ end] => destruct (Atoi s); cbn
           end; auto.
Qed.

Lemma callsIn_app (a b : list string) : callsIn (a ++ b) = callsIn a + callsIn b.
Proof. unfold callsIn. rewrite filter_app, length_app. lia. Qed.

Lemma callsIn_cons (c : string) (r : list string) :
  callsIn (c :: r) = (if isSome (callOf c) then 1 else 0) + callsIn r.
Proof.
  unfold callsIn. cbn [filter].
  destruct (isSome (callOf c)); cbn [List.length]; lia.
Qed.

Lemma callsIn_bounds (a : list string) : 0 <= callsIn a <= Z.of_nat (List.length a).
Proof.
  unfold callsIn. pose proof (filter_length_le (fun c => isSome (callOf c)) a).
  lia.
Qed.

Lemma contextAfter_callCounter (cmds : list string) (ctx : Context) :
  int_min <= callCounter ctx <= int_max ->
  callCounter (contextAfter cmds ctx) = int_wrap (callCounter ctx + callsIn cmds).
Proof.
  revert ctx. induction cmds as [|c cmds IH]; intros ctx Hr.
  - cbn. rewrite Z.add_0_r. now rewrite int_wrap_small.
  - cbn [contextAfter]. pose proof (vmCommandToAsm_callCounter c ctx) as Hc.
    rewrite callsIn_cons, IH.
    + rewrite Hc. destruct (isSome (callOf c)).
      * rewrite int_wrap_add. f_equal. lia.
      * reflexivity.
    + rewrite Hc. destruct (isSome (callOf c)); [apply int_wrap_range | exact Hr].
Qed.

Lemma call_counters_differ (cmds : list string) (ctx0 : Context) (i j : nat)
    (ci : string) (f : string * Z) :
  (i < j)%nat -> nth_error cmds i = Some ci -> callOf ci = Some f ->
  int_min <= callCounter ctx0 <= int_max ->
  Z.of_nat (List.length cmds) < 2 ^ 64 ->
  callCounter (contextAfter (firstn i cmds) ctx0)
  <> callCounter (contextAfter (firstn j cmds) ctx0).
Proof.
  intros Hij Hi Hop Hr Hlen.
  rewrite !contextAfter_callCounter by assumption.
  destruct (firstn_past cmds i j ci Hij Hi) as [rest Hj].
  intros E. apply int_wrap_eq in E.
  assert (Hb : callsIn (firstn j cmds) = callsIn (firstn i cmds) + 1 + callsIn rest).
  { rewrite Hj, callsIn_app, callsIn_cons, Hop. cbn [isSome]. lia. }
  pose proof (callsIn_bounds (firstn i cmds)).
  pose proof (callsIn_bounds rest).
  pose proof (callsIn_bounds (firstn j cmds)).
  pose proof (length_firstn j cmds).
  rewrite Z.mod_small in E; lia.
Qed.

Lemma hasChar_uint (d : Decimal.uint) :
  hasChar "$" (NilEmpty.string_of_uint d) = false.
Proof. induction d; cbn; auto. Qed.

Lemma hasChar_fmt_d (n : Z) : hasChar "$" (fmt_d n) = false.
Proof.
  unfold fmt_d, NilZero.string_of_int, NilZero.string_of_uint.
  destruct (Z.to_int n) as [d|d]; destruct d; cbn; auto using hasChar_uint.
Qed.

Lemma last_dollar (x y : string) :
  hasChar "$" x = false -> hasChar "$" y = false ->
  forall a b : string, a ++ String "$" x = b ++ String "$" y -> x = y.
Proof.
  intros Hx Hy. induction a as [|c a IH]; intros [|c' b] E; cbn [append] in E.
  - now injection E.
  - injection E as _ E. rewrite E, hasChar_app in Hx. cbn in Hx.
    rewrite orb_true_r in Hx. discriminate.
  - injection E as _ E. rewrite <- E, hasChar_app in Hy. cbn in Hy.
    rewrite orb_true_r in Hy. discriminate.
  - injection E as _ E. now apply (IH b).
Qed.

Lemma returnLabel_inj (f g : string) (m n : Z) :
  returnLabel f m = returnLabel g n -> m = n.
Proof.
  unfold returnLabel. intros E.
  change (f ++ String "$" ("ret." ++ fmt_d m) = g ++ String "$" ("ret." ++ fmt_d n)) in E.
  apply last_dollar in E.
  - injection E as E. now apply fmt_d_inj.
  - cbn. apply hasChar_fmt_d.
  - cbn. apply hasChar_fmt_d.
Qed.

Lemma call_declares (name : string) (n c : Z) :
  hasNL name = false ->
  declaredLabels (txt (callLines name n c)) = Some [returnLabel name c].
Proof.
  intros Hname. unfold returnLabel.
  assert (HRnl : hasNL (name ++ "$ret." ++ fmt_d c) = false)
    by (rewrite !hasNL_app, Hname, hasNL_fmt_d; reflexivity).
  pose proof (hasNL_fmt_d n) as HNnl.
  unfold callLines, pushAddressLines, pushRegisterLines, setArgLines,
    setLclLines, jumpLines. cbv zeta.
  revert HRnl HNnl.
  generalize (name ++ "$ret." ++ fmt_d c) (fmt_d n). intros R N HRnl HNnl.
  unfold declaredLabels.
  rewrite splitLines_txt by no_newlines.
  rewrite !app_assoc, parseLines_app. cbn [parseLines].
  rewrite parseLine_label.
  match goal with
  | |- context [parseLines ?b] =>
      let P := eval cbv in (parseLines b) in change (parseLines b) with P
  end.
  cbv beta iota. reflexivity.
Qed.

(** Each translated [call] command declares one label, the return label
    [<callee>$ret.<c>] for the call counter [c] at that point, and moves
    the counter by one; so along any sequence of commands, of one file or
    of many, two [call] commands never declare the same return label, even
    for the same callee.  The sequence is shorter than the 2^64 values of
    the counter. *)
Theorem return_labels_unique (cmds : list string) (ctx0 : Context)
    (i j : nat) (ci cj f g : string) (m n : Z) :
  int_min <= callCounter ctx0 <= int_max ->
  Z.of_nat (List.length cmds) < 2 ^ 64 ->
  nth_error cmds i = Some ci -> callOf ci = Some (f, m) ->
  nth_error cmds j = Some cj -> callOf cj = Some (g, n) ->
  i <> j ->
  let ctxi := contextAfter (firstn i cmds) ctx0 in
  let ctxj := contextAfter (firstn j cmds) ctx0 in
  exists asm,
    vmCommandToAsm ci ctxi = (Ok asm, bumpCall ctxi) /\
    declaredLabels asm = Some [returnLabel f (callCounter ctxi)] /\
    callCounter (bumpCall ctxi) = int_wrap (callCounter ctxi + 1) /\
    returnLabel f (callCounter ctxi) <> returnLabel g (callCounter ctxj).
Proof.
  intros Hr Hlen Hi Hf Hj Hg Hij ctxi ctxj.
  exists (txt (callLines f m (callCounter ctxi))).
  split; [|split; [|split]].
  - rewrite (vmCommandToAsm_call ci f m ctxi Hf). apply translateCallCommand_lines.
  - apply call_declares. apply (parts_noNL ci).
    unfold callOf in Hf.
    destruct (parts ci) as [|op [|f' [|count [|x r]]]]; try discriminate.
    destruct (op =? "call"); [|discriminate].
    destruct (Atoi count); [|discriminate]. injection Hf as -> _.
    right. now left.
  - reflexivity.
  - intros E. apply returnLabel_inj in E. revert E.
    destruct (Nat.lt_total i j) as [Hlt | [Heq | Hgt]]; [| contradiction |].
    + now apply (call_counters_differ cmds ctx0 i j ci (f, m)).
    + intros E. symmetry in E. revert E.
      now apply (call_counters_differ cmds ctx0 j i cj (g, n)).
Qed.

Lemma return_labels_unique_witness :
  returnLabel "Foo" 0 <> returnLabel "Foo" 1.
Proof.
  assert (Hr : int_min <= callCounter initialContext <= int_max) by le_compute.
  assert (Hd : 0%nat <> 2%nat) by discriminate.
  destruct (return_labels_unique ["call Foo 1"; "add"; "call Foo 1"] initialContext
              0 2 "call Foo 1" "call Foo 1" "Foo" "Foo" 1 1
              Hr eq_refl eq_refl eq_refl eq_refl eq_refl Hd)
    as (asm & _ & _ & _ & H).
  exact H.
Defined.

(** ** Dispatch: comments and operand counts *)

Lemma beforeComment_app (c r : string) :
  hasChar "/" c = false -> beforeComment (c ++ String "/" (String "/" r)) = c.
Proof.
  induction c as [|x c IH]; intros H.
  - destruct r; reflexivity.
  - cbn [hasChar] in H. apply orb_false_elim in H as [Hx Hc].
    cbn [append beforeComment]. unfold HasPrefix. cbn [String.prefix].
    destruct (ascii_dec "/" x) as [E | _].
    + subst x. discriminate Hx.
    + now rewrite IH.
Qed.

Lemma beforeComment_none (c : string) :
  hasChar "/" c = false -> beforeComment c = c.
Proof.
  induction c as [|x c IH]; intros H.
  - reflexivity.
  - cbn [hasChar] in H. apply orb_false_elim in H as [Hx Hc].
    cbn [beforeComment]. unfold HasPrefix. cbn [String.prefix].
    destruct (ascii_dec "/" x) as [E | _].
    + subst x. discriminate Hx.
    + now rewrite IH.
Qed.

(** A comment after a command is ignored: a command that holds no slash,
    followed by [//] and any text, is translated like the command
    alone, to the same text or the same error, with the same effect on the
    counters. *)
Theorem trailing_comment_ignored (c r : string) (ctx : Context) :
  hasChar "/" c = false ->
  vmCommandToAsm (c ++ "//" ++ r) ctx = vmCommandToAsm c ctx.
Proof.
  intros H. unfold vmCommandToAsm.
  change (c ++ "//" ++ r) with (c ++ String "/" (String "/" r)).
  now rewrite (beforeComment_app c r H), (beforeComment_none c H).
Qed.

Lemma trailing_comment_ignored_witness :
  vmCommandToAsm "push constant 7 // seven" initialContext
  = vmCommandToAsm "push constant 7 " initialContext.
Proof. exact (trailing_comment_ignored "push constant 7 " " seven" initialContext eq_refl). Defined.

(** The arithmetic and logical commands are translated whatever follows
    the command word on the line: operands they do not take are not
    rejected. *)
Theorem arithmetic_ignores_operands (cmd op : string) (operands : list string)
    (ctx : Context) :
  parts cmd = op :: operands ->
  isBinary op || isUnary op = true ->
  vmCommandToAsm cmd ctx = (Ok (translateArithmeticCommand op), ctx).
Proof.
  intros Hp Hop. unfold vmCommandToAsm.
  change (Fields (TrimSpace (beforeComment cmd))) with (parts cmd).
  rewrite Hp. unfold isBinary, isUnary in Hop. revert Hop.
  case_op op; intros Hop; try reflexivity; discriminate Hop.
Qed.

Lemma arithmetic_ignores_operands_witness :
  vmCommandToAsm "add 1 2 3" initialContext
  = (Ok (txt ["@SP"; "AM=M-1"; "D=M"; "A=A-1"; "M=D+M"]), initialContext).
Proof.
  exact (arithmetic_ignores_operands "add 1 2 3" "add" ["1"; "2"; "3"]
           initialContext eq_refl eq_refl).
Defined.

(** [push], [pop], [function] and [call] take two operands, [goto],
    [if-goto] and [label] one, [return] none: with another number of
    operands the command fails with the error [invalid <op> command:
    <command>], the command quoted without its comment and surrounding
    space, and the counters are not touched. *)
Theorem wrong_operand_count_rejected (cmd op : string) (operands : list string)
    (k : nat) (ctx : Context) :
  parts cmd = op :: operands ->
  operandCount op = Some k ->
  List.length operands <> k ->
  vmCommandToAsm cmd ctx
  = (Err ("invalid " ++ op ++ " command: " ++ TrimSpace (beforeComment cmd)), ctx).
Proof.
  intros Hp Hk Hlen. unfold vmCommandToAsm.
  change (Fields (TrimSpace (beforeComment cmd))) with (parts cmd).
  rewrite Hp. unfold operandCount in Hk. revert Hk.
  case_op op; intros [= <-];
    repeat match goal with
           | |- context [match ?l with [] => _ | _ :: _ => _ end] => destruct l; cbn
           end;
    solve [reflexivity | exfalso; apply Hlen; reflexivity].
Qed.

Lemma wrong_operand_count_rejected_witness :
  vmCommandToAsm "  goto A B // twice" initialContext
  = (Err "invalid goto command: goto A B", initialContext).
Proof.
  refine (wrong_operand_count_rejected "  goto A B // twice" "goto" ["A"; "B"] 1
            initialContext eq_refl eq_refl _).
  discriminate.
Defined.

(** A line whose first word is none of the seventeen command words fails
    with the error [unsupported command: <command>], and the counters are
    not touched. *)
Theorem unknown_command_rejected (cmd op : string) (operands : list string)
    (ctx : Context) :
  parts cmd = op :: operands ->
  isBinary op || isUnary op || isCompare op = false ->
  operandCount op = None ->
  vmCommandToAsm cmd ctx
  = (Err ("unsupported command: " ++ TrimSpace (beforeComment cmd)), ctx).
Proof.
  intros Hp Hop Hk. unfold vmCommandToAsm.
  change (Fields (TrimSpace (beforeComment cmd))) with (parts cmd).
  rewrite Hp. unfold operandCount in Hk. unfold isBinary, isUnary, isCompare in Hop.
  revert Hk Hop.
  case_op op; intros Hk Hop; try discriminate; reflexivity.
Qed.

Lemma unknown_command_rejected_witness :
  vmCommandToAsm "mul" initialContext
  = (Err "unsupported command: mul", initialContext).
Proof.
  exact (unknown_command_rejected "mul" "mul" [] initialContext
           eq_refl eq_refl eq_refl).
Defined.

(** ** The driver *)

(** A file whose commands are all translated, read without a scanner
    error, adds to the output file exactly the text its commands generate,
    in order: the final flush leaves nothing in the buffer. *)
Theorem successful_file_fully_written (vm : vmFile) (ctx ctx' : Context)
    (file text : string) :
  generated (fileLines vm) ctx = (text, None, ctx') ->
  scanErr vm = None ->
  translateVMFileToASM (Some vm) ctx file = (None, ctx', file ++ text).
Proof.
  intros Hg Hs. unfold translateVMFileToASM.
  pose proof (translateLines_prefix file (fileLines vm) ctx "" "") as E.
  rewrite append_nil_r in E. rewrite E. clear E.
  destruct (translateLines (fileLines vm) ctx (mkOutput "" "")) as [[e c] o] eqn:El.
  destruct (translateLines_spec _ _ _ _ _ _ El) as (t & Hg' & H1 & _).
  rewrite Hg in Hg'. injection Hg' as <- <- <-.
  rewrite Hs. cbn [Flush written buffered append] in *.
  now rewrite append_assoc, H1.
Qed.

Lemma successful_file_fully_written_witness :
  translateVMFileToASM (Some (mkVmFile ["// sum"; "push constant 7"; ""; "neg"] None))
                       initialContext bootstrap
  = (None, initialContext,
     bootstrap ++ txt ["@7"; "D=A"; "@SP"; "A=M"; "M=D"; "@SP"; "M=M+1"]
               ++ txt ["@SP"; "A=M-1"; "M=-M"]).
Proof.
  exact (successful_file_fully_written
           (mkVmFile ["// sum"; "push constant 7"; ""; "neg"] None)
           initialContext initialContext bootstrap _ eq_refl eq_refl).
Defined.

(** [checkForSysVM] holds exactly when the directory lists an entry named
    [Sys.vm] that is not a directory. *)
Theorem checkForSysVM_spec (files : list DirEntry) :
  checkForSysVM files = true
  <-> exists e, In e files /\ IsDir e = false /\ Name e = "Sys.vm".
Proof.
  induction files as [|entry rest IH]; cbn [checkForSysVM In].
  - split; [discriminate | intros (e & [] & _)].
  - destruct (IsDir entry) eqn:Hd; cbn [negb andb].
    + rewrite IH. split.
      * intros (e & Hin & H). exists e. auto.
      * intros (e & [<- | Hin] & He & Hn); [congruence|]. exists e. auto.
    + destruct (String.eqb_spec (Name entry) "Sys.vm") as [Hn | Hn].
      * split; [|reflexivity]. intros _. exists entry. auto.
      * rewrite IH. split.
        -- intros (e & Hin & H). exists e. auto.
        -- intros (e & [<- | Hin] & He & Hn'); [contradiction|]. exists e. auto.
Qed.

Lemma checkForSysVM_filter (files : list DirEntry) :
  checkForSysVM (filter isVmFile files) = checkForSysVM files.
Proof.
  induction files as [|entry rest IH]; [reflexivity|].
  cbn [filter checkForSysVM]. unfold isVmFile at 1.
  destruct (IsDir entry) eqn:Hd; cbn [negb andb]; [exact IH|].
  destruct (String.eqb_spec (Name entry) "Sys.vm") as [Hn | Hn].
  - rewrite Hn. change (HasSuffix "Sys.vm" ".vm") with true. cbv iota.
    cbn [checkForSysVM]. rewrite Hd, Hn. reflexivity.
  - destruct (HasSuffix (Name entry) ".vm"); [|exact IH].
    cbn [checkForSysVM]. rewrite Hd. cbn [negb andb].
    destruct (String.eqb_spec (Name entry) "Sys.vm"); [contradiction | exact IH].
Qed.

Lemma translateEntries_filter (d d' : Dir) (files : list DirEntry) :
  open d' = open d ->
  forall ctx file,
    translateEntries d' (filter isVmFile files) ctx file
    = translateEntries d files ctx file.
Proof.
  intros Ho. induction files as [|entry rest IH]; intros ctx file; [reflexivity|].
  cbn [filter translateEntries]. unfold isVmFile at 1.
  destruct (negb (IsDir entry) && HasSuffix (Name entry) ".vm") eqn:Hv.
  - cbn [translateEntries]. rewrite Hv, Ho.
    destruct (negb (Name entry =? "Sys.vm")); cbn [andb]; [|apply IH].
    destruct (translateVMFileToASM (open d (Name entry)) ctx file) as [[e c] f].
    apply IH.
  - cbn [andb]. apply IH.
Qed.

(** [main] looks only at the entries that are files with a name ending in
    [.vm]: removing every other entry from the directory listing,
    subdirectories included, changes neither the output nor the final
    counters. *)
Theorem main_ignores_other_entries (d : Dir) :
  main (mkDir (filter isVmFile (entries d)) (open d)) = main d.
Proof.
  unfold main. cbn [entries open]. rewrite checkForSysVM_filter.
  destruct (checkForSysVM (entries d)).
  - destruct (translateVMFileToASM (open d "Sys.vm") initialContext bootstrap)
      as [[e c] f].
    now apply translateEntries_filter.
  - now apply translateEntries_filter.
Qed.

Lemma translateLines_names (lines : list string) :
  forall ctx o,
    let ctx' := snd (fst (translateLines lines ctx o)) in
    fileName ctx' = fileName ctx /\
    currentFunctionName ctx' = currentFunctionName ctx.
Proof.
  induction lines as [|line rest IH]; intros ctx o; cbn [translateLines].
  - cbn. auto.
  - destruct ((TrimSpace line =? "") || HasPrefix (TrimSpace line) "//");
      [apply IH|].
    destruct (vmCommandToAsm_context (TrimSpace line) ctx) as (Hf & Hc & _).
    cbn zeta in Hf, Hc.
    destruct (vmCommandToAsm (TrimSpace line) ctx) as [[asm | msg] ctx1];
      cbn [snd] in Hf, Hc.
    + cbn zeta. rewrite <- Hf, <- Hc. apply IH.
    + cbn. auto.
Qed.

Lemma translateVMFileToASM_names (f : option vmFile) (ctx : Context)
    (file : string) :
  let ctx' := snd (fst (translateVMFileToASM f ctx file)) in
  fileName ctx' = fileName ctx /\
  currentFunctionName ctx' = currentFunctionName ctx.
Proof.
  unfold translateVMFileToASM. destruct f as [vm|]; [|cbn; auto].
  pose proof (translateLines_names (fileLines vm) ctx (mkOutput file "")) as H.
  cbn zeta in H.
  destruct (translateLines (fileLines vm) ctx (mkOutput file "")) as [[e c] o].
  cbn [fst snd] in H.
  destruct e; [exact H|]. destruct (scanErr vm); exact H.
Qed.

Lemma translateEntries_names (d : Dir) (files : list DirEntry) :
  forall ctx file,
    let ctx' := fst (translateEntries d files ctx file) in
    fileName ctx' = fileName ctx /\
    currentFunctionName ctx' = currentFunctionName ctx.
Proof.
  induction files as [|entry rest IH]; intros ctx file; cbn [translateEntries].
  - cbn. auto.
  - destruct (negb (IsDir entry) && HasSuffix (Name entry) ".vm"
              && negb (Name entry =? "Sys.vm")); [|apply IH].
    pose proof (translateVMFileToASM_names (open d (Name entry)) ctx file) as H.
    cbn zeta in H.
    destruct (translateVMFileToASM (open d (Name entry)) ctx file) as [[e c] f].
    cbn [fst snd] in H. destruct H as [Hf Hc].
    cbn zeta. rewrite <- Hf, <- Hc. apply IH.
Qed.

(** Nothing assigns the globals [fileName] and [currentFunctionName]:
    translating a file leaves them as they were, whatever the file holds, a
    [function] command included, and at the end of every run of [main]
    both are still the empty string. *)
Theorem names_never_set (d : Dir) :
  (forall f ctx file,
     fileName (snd (fst (translateVMFileToASM f ctx file))) = fileName ctx /\
     currentFunctionName (snd (fst (translateVMFileToASM f ctx file)))
     = currentFunctionName ctx) /\
  fileName (fst (main d)) = "" /\
  currentFunctionName (fst (main d)) = "".
Proof.
  split; [exact translateVMFileToASM_names|].
  unfold main.
  destruct (checkForSysVM (entries d)).
  - pose proof (translateVMFileToASM_names (open d "Sys.vm") initialContext bootstrap)
      as H. cbn zeta in H.
    destruct (translateVMFileToASM (open d "Sys.vm") initialContext bootstrap)
      as [[e c] f]. cbn [fst snd] in H. destruct H as [Hf Hc].
    destruct (translateEntries_names d (entries d) c f) as [Hf' Hc'].
    rewrite Hf', Hc', Hf, Hc. split; reflexivity.
  - destruct (translateEntries_names d (entries d) initialContext bootstrap)
      as [Hf' Hc'].
    rewrite Hf', Hc'. split; reflexivity.
Qed.

(** ** Temp indices past the registers, and skipped lines *)

Lemma lookup_R_none (m : Z) :
  16 <= m -> lookup predefined ("R" ++ fmt_d m) = None.
Proof.
  intros Hm. unfold predefined. cbn [lookup].
  repeat match goal with
         | |- context [String.eqb ?k ("R" ++ fmt_d m)] =>
             destruct (String.eqb_spec k ("R" ++ fmt_d m)) as [E | _];
             [ exfalso; cbn [append] in E;
               first
                 [ discriminate E
                 | injection E as E;
                   match type of E with
                   | ?d = fmt_d m =>
                       let v := eval vm_compute in (Atoi d) in
                       lazymatch v with
                       | Some ?z =>
                           change d with (fmt_d z) in E;
                           apply fmt_d_inj in E; lia
                       end
                   end ]
             | ]
         end.
  reflexivity.
Qed.

Lemma resolve_R (base : Z) (sigma : string -> Z) (m : Z) :
  16 <= m ->
  resolve base [] sigma ("R" ++ fmt_d m) = sigma ("R" ++ fmt_d m).
Proof.
  intros Hm. unfold resolve. rewrite (lookup_R_none m Hm). reflexivity.
Qed.

(** [push temp i] for [i >= 11] reads no fixed address: it names the
    symbol [R<5+i>], which is not a predefined register, so the word pushed
    comes from wherever the assembler places that variable, while
    [pop temp i] writes RAM address [5 + i]. *)
Theorem push_temp_beyond_registers (index unit asm : string) (i base : Z)
    (sigma : string -> Z) (st : Machine) :
  translatePushCommand "temp" index unit = Ok asm ->
  Atoi index = Some i ->
  11 <= i <= int_max - 5 ->
  stackFits st 1 ->
  exists st',
    runBlock base sigma asm st = Some (Done st') /\
    SP st' = SP st + 1 /\
    ram st' (SP st) = wrap16 (ram st (addr (sigma ("R" ++ fmt_d (5 + i))))).
Proof.
  intros Hasm Hat Hi [H1 H2]. apply blockEffect_ex.
  revert Hasm. unfold translatePushCommand.
  cbn [String.eqb Ascii.eqb Bool.eqb]. rewrite Hat. ok_subst.
  rewrite int_wrap_small by (unfold int_min, int_max in *; lia).
  pose proof (resolve_R base sigma (5 + i) ltac:(lia)) as HR.
  change ("@R" ++ fmt_d (5 + i)) with ("@" ++ ("R" ++ fmt_d (5 + i))).
  assert (Hx : hasNL ("R" ++ fmt_d (5 + i)) = false)
    by (rewrite hasNL_app, hasNL_fmt_d; reflexivity).
  revert HR Hx. generalize ("R" ++ fmt_d (5 + i)). intros x HR Hx.
  straight_block. rewrite HR. norm_machine.
  split; [reflexivity|]. now rewrite wrap16_idem.
Qed.

Lemma push_temp_beyond_registers_witness :
  exists st',
    runBlock 0 (fun _ => 300)
             (txt ["@R16"; "D=M"; "@SP"; "A=M"; "M=D"; "@SP"; "M=M+1"])
             returnMachine
    = Some (Done st') /\
    SP st' = 311 /\ ram st' 310 = 0.
Proof.
  destruct (push_temp_beyond_registers "11" "Main" _ 11 0 (fun _ => 300)
              returnMachine eq_refl eq_refl)
    as (st' & Hr & Hs & Hv).
  - le_compute.
  - unfold stackFits. split; [le_compute | vm_compute; discriminate].
  - exists st'. split; [exact Hr|]. split; [exact Hs | exact Hv].
Defined.

(** Blank lines and comment lines, wherever they stand in a file, have no
    effect: removing them all changes neither what is written, nor the
    error returned, nor the counters. *)
Theorem blank_and_comment_lines_skipped (lines : list string) (ctx : Context)
    (o : Output) :
  translateLines (filter isCommandLine lines) ctx o = translateLines lines ctx o.
Proof.
  revert ctx o. induction lines as [|line rest IH]; intros ctx o; [reflexivity|].
  cbn [filter translateLines]. unfold isCommandLine at 1.
  destruct ((TrimSpace line =? "") || HasPrefix (TrimSpace line) "//") eqn:Hs;
    cbn [negb].
  - apply IH.
  - cbn [translateLines]. rewrite Hs.
    destruct (vmCommandToAsm (TrimSpace line) ctx) as [[asm | msg] ctx1];
      [apply IH | reflexivity].
Qed.
